(** * DEGA "Formula" builder: marker templates, butt-join, seeding, tracks

    A shallow embedding of the marker and track logic of
    [the_dega_template_full.py] (v4.7), and the properties of it that the
    specification states.

    Modelling conventions.
    - Numbers (marker offsets and durations in seconds, the frame rate) are
      rationals in canonical form ([Qc]), so that Python's [==] is Leibniz
      equality.  A field of a marker holds the number as it is written in
      the source; [float(...)] of it is [Sec.float_of], the nearest IEEE 754
      binary64 value, ties to even, with gradual underflow.
    - The float arithmetic of butt-join rounds every operation to binary64
      ([Sec.fadd], [Sec.fsub], [Sec.fdiv]): its results are the doubles the
      code computes.  Infinities and NaN are not modelled: beyond the range
      of a double (about 1.8e308) the code works with [inf], the model goes
      on rounding to 53 bits.
    - The frame of an offset ([_sec_to_frames]) is the rounding of the exact
      product; the statements on frames say that they hold in exact
      arithmetic.
    - Python [int] is [Z]; [str] is [string] (the UTF-8 bytes of the text).
    - A marker dict built by [_mm] is a record with its five keys.
    - The host (DaVinci Resolve) is an arbitrary state machine answering the
      scripting calls; a call either returns a Python value or raises. *)

From Stdlib Require Import ZArith QArith Qcanon Qpower String Ascii List Bool Lia.
Import ListNotations.

Set Implicit Arguments.

(** ** Exceptions and results *)

Inductive exn : Type :=
| ZeroDivisionError
| HostException (msg : string).

Inductive outcome (A : Type) : Type :=
| Ok (a : A)
| Raised (e : exn).

Arguments Ok {A} a.
Arguments Raised {A} e.

Definition obind {A B} (o : outcome A) (k : A -> outcome B) : outcome B :=
  match o with
  | Ok a => k a
  | Raised e => Raised e
  end.

(** ** Seconds as rationals *)

Module Sec.
Open Scope Qc_scope.

Definition leb (a b : Qc) : bool :=
  match a ?= b with Gt => false | _ => true end.

Definition ltb (a b : Qc) : bool :=
  match a ?= b with Lt => true | _ => false end.

(** Python's [min(a, b)]: the first argument unless the second is
    strictly smaller. *)
Definition py_min (a b : Qc) : Qc := if ltb b a then b else a.

(** Python's [round(x)] on a float: nearest integer, ties to even. *)
Definition py_round (q : Qc) : Z :=
  let n := Qnum (this q) in
  let d := Zpos (Qden (this q)) in
  let fl := (n / d)%Z in
  let r := (n mod d)%Z in
  match (2 * r ?= d)%Z with
  | Lt => fl
  | Gt => (fl + 1)%Z
  | Eq => if Z.even fl then fl else (fl + 1)%Z
  end.

(** A decimal literal [n / 10^k] such as [11.6] or [29.97]. *)
Definition dec (n : Z) (den : positive) : Qc := Q2Qc (n # den).

(** *** Binary64 *)

(** [2^k], for any integer [k]. *)
Definition pow2 (k : Z) : Qc := Q2Qc (2 ^ k)%Q.

(** An integer as a rational. *)
Definition of_Z (z : Z) : Qc := Q2Qc (inject_Z z).

(** The binade of a positive [x]: the [e] with [2^e <= x < 2^(e+1)]. *)
Definition ilog2 (x : Qc) : Z :=
  let k := (Z.log2 (Qnum (this x)) - Z.log2 (Zpos (Qden (this x))))%Z in
  if leb (pow2 k) x then k else (k - 1)%Z.

(** The exponent of the last place of the doubles around a positive [x]:
    53 bits of significand, and [2^-1074] for the subnormal numbers. *)
Definition ulp_exp (x : Qc) : Z := Z.max (ilog2 x - 52) (-1074).

(** The double nearest to a positive [x]: [x] in units of the last place,
    rounded to the nearest integer, ties to even. *)
Definition round_pos (x : Qc) : Qc :=
  of_Z (py_round (x / pow2 (ulp_exp x))) * pow2 (ulp_exp x).

(** [float(x)]: the double nearest to [x]. *)
Definition float_of (x : Qc) : Qc :=
  match x ?= 0 with
  | Eq => 0
  | Gt => round_pos x
  | Lt => - round_pos (- x)
  end.

(** [x + y], [x - y] and [x / y] on floats. *)
Definition fadd (x y : Qc) : Qc := float_of (x + y).
Definition fsub (x y : Qc) : Qc := float_of (x - y).
Definition fdiv (x y : Qc) : Qc := float_of (x / y).

End Sec.

(** ** Markers *)

(** A marker dict as built by [_mm(when, color, name, dur, notes)]. *)
Record Marker : Type := _mm {
  t : Qc;
  color : string;
  name : string;
  dur : Qc;
  notes : string
}.

(** [_mp(t, color, name, notes, dur=0.0)]: [_mm] with the last two
    parameters swapped. *)
Definition _mp (when : Qc) (c n nt : string) : Marker := _mm when c n 0%Qc nt.

Definition set_dur (m : Marker) (d : Qc) : Marker :=
  _mm (t m) (color m) (name m) d (notes m).

(** The [fps_str] argument, as [float(fps_str)] sees it: text that denotes
    a number, or anything on which [float] raises.  [py_float] gives the
    number denoted; butt-join takes the float of it, the frame computations
    use it as it is. *)
Inductive fps_text : Type :=
| Numeric (q : Qc)
| NotNumeric.

Definition py_float (s : fps_text) : option Qc :=
  match s with
  | Numeric q => Some q
  | NotNumeric => None
  end.

(** [try: fps = float(fps_str) / except Exception: fps = 29.97] *)
Definition fps_or_default (s : fps_text) : Qc :=
  match py_float s with
  | Some q => q
  | None => Sec.dec 2997 100
  end.

(** ** [sorted]: a stable sort *)

Section Sorted.
Variable A : Type.
Variable le : A -> A -> bool.

Fixpoint insert_sorted (x : A) (l : list A) : list A :=
  match l with
  | [] => [x]
  | y :: l' => if le x y then x :: l else y :: insert_sorted x l'
  end.

(** [x] stood before every element of [l], so among equal keys it stays
    first: the sort is stable, as Python's is. *)
Fixpoint py_sorted (l : list A) : list A :=
  match l with
  | [] => []
  | x :: l' => insert_sorted x (py_sorted l')
  end.

Fixpoint locally_sorted (l : list A) : Prop :=
  match l with
  | x :: ((y :: _) as l') => le x y = true /\ locally_sorted l'
  | _ => True
  end.

End Sorted.

(** ** Butt-join *)

Definition by_time (a b : Marker) : bool := Sec.leb (t a) (t b).

(** The gap the loop finds after [cur]: [nxt_t - (cur_t + cur_d)], each
    of the three read with [float(...)]. *)
Definition gap_after (cur nxt : Marker) : Qc :=
  Sec.fsub (Sec.float_of (t nxt))
           (Sec.fadd (Sec.float_of (t cur)) (Sec.float_of (dur cur))).

(** One pass of the loop body on [cur = ms[i]], [nxt = ms[i + 1]]: the new
    value of [cur].  [fps] is the float of the frame rate.  [1.0 / fps] is
    only evaluated when a positive gap is found, and raises on a zero frame
    rate. *)
Definition stretch (fps : Qc) (cur nxt : Marker) : outcome Marker :=
  let cur_t := Sec.float_of (t cur) in
  let cur_d := Sec.float_of (dur cur) in
  let nxt_t := Sec.float_of (t nxt) in
  if Sec.leb cur_d 0 then Ok cur
  else
    let gap := Sec.fsub nxt_t (Sec.fadd cur_t cur_d) in
    if Sec.ltb 0 gap then
      if Qc_eq_dec fps 0 then Raised ZeroDivisionError
      else Ok (set_dur cur
                 (Sec.fadd cur_d (Sec.py_min gap (Sec.fdiv 1 fps))))
    else Ok cur.

Fixpoint list_set {A} (i : nat) (x : A) (l : list A) : list A :=
  match l, i with
  | [], _ => []
  | _ :: l', O => x :: l'
  | y :: l', S i' => y :: list_set i' x l'
  end.

(** Body of [for i in range(len(ms) - 1)]. *)
Definition butt_join_step (fps : Qc) (ms : list Marker) (i : nat)
  : outcome (list Marker) :=
  match nth_error ms i, nth_error ms (S i) with
  | Some cur, Some nxt =>
      obind (stretch fps cur nxt) (fun cur' => Ok (list_set i cur' ms))
  | _, _ => Ok ms
  end.

Fixpoint for_each {A S} (body : S -> A -> outcome S) (xs : list A) (s : S)
  : outcome S :=
  match xs with
  | [] => Ok s
  | x :: xs' => obind (body s x) (for_each body xs')
  end.

Definition _butt_join_markers (markers : list Marker) (fps_str : fps_text)
  : outcome (list Marker) :=
  let fps := Sec.float_of (fps_or_default fps_str) in
  match markers with
  | [] => Ok markers
  | _ =>
      let ms := py_sorted by_time markers in
      for_each (butt_join_step fps) (seq 0 (length ms - 1)) ms
  end.

(** The same pass by recursion on the list: iteration [i] writes only
    [ms[i]["dur"]] and reads only [ms[i]] and [ms[i + 1]["t"]]. *)
Fixpoint join_adjacent (fps : Qc) (ms : list Marker) : outcome (list Marker) :=
  match ms with
  | cur :: ((nxt :: _) as rest) =>
      obind (stretch fps cur nxt) (fun cur' =>
      obind (join_adjacent fps rest) (fun rest' => Ok (cur' :: rest')))
  | _ => Ok ms
  end.

(** Adjacent markers (in the order of the list) whose positive gap, as the
    loop computes it, is at most one frame. *)
Fixpoint gaps_within_one_frame (fps : Qc) (ms : list Marker) : Prop :=
  match ms with
  | a :: ((b :: _) as rest) =>
      ((0 < Sec.float_of (dur a))%Qc ->
       (gap_after a b <= Sec.fdiv 1 fps)%Qc)
      /\ gaps_within_one_frame fps rest
  | _ => True
  end.

(** No marker of positive duration is followed by a positive gap, as the
    loop computes it. *)
Fixpoint no_positive_gaps (ms : list Marker) : Prop :=
  match ms with
  | a :: ((b :: _) as rest) =>
      ((Sec.float_of (dur a) <= 0)%Qc \/ (gap_after a b <= 0)%Qc)
      /\ no_positive_gaps rest
  | _ => True
  end.

(** [a] ends no later than [b] starts: [a.t + a.dur <= b.t] on the floats
    of the fields, the sum taken exactly. *)
Definition no_overlap (a b : Marker) : Prop :=
  (Sec.float_of (t a) + Sec.float_of (dur a) <= Sec.float_of (t b))%Qc.
(** ** Catalog data (transcribed from the module-level literals) *)

Open Scope string_scope.
Open Scope list_scope.

Definition nl : string := String (ascii_of_nat 10) EmptyString.

Definition VIDEO_TRACKS_TOP_TO_BOTTOM : list string :=
  [ "FX TEMP 🧪";
    "SAFETY 🛑 — Guides (Disable for export)";
    "TITLES 🏷️";
    "GFX — Shapes & Callouts 🟦";
    "LIGHTS & TEXTURES ✨ — Leaks/Flares/Dust";
    "ADJUSTMENT 🟩 — Global Polish";
    "B-ROLL B 🎞️";
    "B-ROLL A 🎞️";
    "A-ROLL B 🎥";
    "A-ROLL A 🎥" ].

Definition AUDIO_TRACKS : list string :=
  [ "DX_A";
    "DX_B";
    "VO_A";
    "VO_B";
    "SFX_HARD";
    "WHOOSH_SWISH";
    "RISERS_REVERSE";
    "STINGERS_MUSFX";
    "MX_A";
    "MX_B";
    "FOLEY_HANDS";
    "FOLEY_CLOTH";
    "FOOTSTEPS";
    "UI_CLICKS";
    "AMB_A";
    "AMB_B";
    "PRINT" ].

Definition _SUPPORTED_MARKER_COLORS : list string :=
  [ "Red"; "Yellow"; "Green"; "Cyan"; "Blue"; "Purple"; "Pink"; "Black"; "White"; "Orange" ].

Definition _COLOR_FALLBACK_items : list (string * string) :=
  [ ("Magenta", "Pink"); ("Orange", "Yellow") ].

Definition MARKERS_12 : list Marker :=
  [ _mm (Sec.dec 0 1) "Red" "HOOK" (Sec.dec 3 1) "Range 0–3s. Open with the clearest value: a visual or line that states *what this is* and *why it matters* in plain language.";
    _mm (Sec.dec 3 1) "Orange" "DRAW" (Sec.dec 5 1) "Range 4–6s. Add one new angle or contrast that deepens curiosity; avoid repeating the hook wording.";
    _mm (Sec.dec 45 10) "Magenta" "INTERRUPT #1" (Sec.dec 0 1) "Micro pattern break (≤0.7s). Quick visual flip/cut-in that resets attention without derailing flow.";
    _mm (Sec.dec 8 1) "Green" "COMMIT / PAYOFF" (Sec.dec 4 1) "Range 3–5s. Deliver the promised clarity: tight demo/result/visual that proves the premise.";
    _mm (Sec.dec 9 1) "Magenta" "INTERRUPT #2" (Sec.dec 0 1) "Second micro jolt; invert framing or swap angle to avoid glide to the finish.";
    _mm (Sec.dec 116 10) "Yellow" "LOOP / CTA" (Sec.dec 4 10) "Range 0.3–1.0s. Button that either loops cleanly or gives one frictionless action." ].

Definition SHOTFX_SPECIFIC_items : list (string * list Marker) :=
  [ ("clone",
     [ _mp (Sec.dec 0 1) "Orange" "Prep / Plates" "Lock-off or perfectly repeatable move. Shoot a clean plate. Keep exposure/WB fixed.";
       _mp (Sec.dec 1 1) "Blue" "Mask strategy" "Plan overlap: decide who passes in front. Soft 6–10px feather; avoid hair edges on seams.";
       _mp (Sec.dec 2 1) "Green" "Parallax sanity" "If handheld, stabilize BOTH plates before masking. Align on hard verticals (door frames).";
       _mp (Sec.dec 3 1) "Pink" "Seam check (Difference)" "Use a Difference/Blend preview to locate seam crawl; nudge mask or warp to match.";
       _mp (Sec.dec 4 1) "Cyan" "Shadows / occlusion" "Ensure correct layer order where subjects cross; paint/contact-shadow fix if needed.";
       _mp (Sec.dec 5 1) "Yellow" "Grain / blur match" "Match grain and motion blur between plates; add grain last so edges integrate.";
       _mp (Sec.dec 6 1) "Purple" "Continuity glance" "Watch hands/feet for pops at the seam during moves; micro-transform if necessary.";
       _mp (Sec.dec 299 1) "Blue" "⏱ 5min anchor" "" ]);
    ("clean_plate",
     [ _mp (Sec.dec 0 1) "Orange" "Choose source" "Prefer adjacent frames over stills to keep texture; avoid plastic look.";
       _mp (Sec.dec 1 1) "Blue" "Track first" "Corner/planar or point track the patch area; stabilize into a working space, then composite.";
       _mp (Sec.dec 2 1) "Green" "Patch blend" "Use soft, irregular masks; bias feather into patch. Match local contrast, not global.";
       _mp (Sec.dec 3 1) "Pink" "Skin texture" "Do not blur: borrow texture from nearby skin; keep pores. Add tiny monochrome grain if needed.";
       _mp (Sec.dec 4 1) "Cyan" "Temporal sanity" "If the head moves, use a short temporal patch (few frames) rather than one still.";
       _mp (Sec.dec 5 1) "Yellow" "Color/Specular" "Match micro highlights; reduce spec hotspots with gentle curve, not blur.";
       _mp (Sec.dec 299 1) "Blue" "⏱ 5min anchor" "" ]);
    ("background_cleanup",
     [ _mp (Sec.dec 0 1) "Orange" "Analyze plane" "Is it flat (planar track) or curved (mesh/point)? Choose tracker accordingly.";
       _mp (Sec.dec 1 1) "Blue" "Perspective insert" "Corner-pin a clean patch in perspective; match lens distortion if heavy wide.";
       _mp (Sec.dec 2 1) "Green" "Edge contamination" "Avoid straight mask edges across textured bricks/tiles; irregular feather sells it.";
       _mp (Sec.dec 3 1) "Pink" "Lighting continuity" "Replicate falloff & vignette; add tiny shadow where object was so wall doesn't look 'too clean'.";
       _mp (Sec.dec 4 1) "Yellow" "Grain / noise" "Sample target area's noise level; add back after composite to prevent 'cutout' look.";
       _mp (Sec.dec 299 1) "Blue" "⏱ 5min anchor" "" ]);
    ("remove_mic_cable",
     [ _mp (Sec.dec 0 1) "Orange" "Prep" "Stabilize the hand region (temp) to simplify paint/roto; work in stabilized space.";
       _mp (Sec.dec 1 1) "Blue" "Roto contour" "Follow knuckle silhouettes; keep feather into skin not into background.";
       _mp (Sec.dec 2 1) "Green" "Clone/patch passes" "Borrow from nearby skin frames; track to hand motion; avoid sliding texture.";
       _mp (Sec.dec 3 1) "Pink" "Specular continuity" "Rebuild highlight streaks across the patch; tiny dodge/burn beats blur every time.";
       _mp (Sec.dec 4 1) "Cyan" "Motion blur" "Match shutter blur on fast finger moves; composite pre-blur, not post.";
       _mp (Sec.dec 5 1) "Yellow" "Final grain" "Add matched grain over the composite; check at 100% zoom.";
       _mp (Sec.dec 299 1) "Blue" "⏱ 5min anchor" "" ]);
    ("hand_split",
     [ _mp (Sec.dec 0 1) "Orange" "Plates & timing" "Record two performance passes to the same click; clap or beep for sync.";
       _mp (Sec.dec 1 1) "Blue" "Registration" "Lock camera; if not, stabilize both plates to the sampler face.";
       _mp (Sec.dec 2 1) "Green" "Mask logic" "Choose overlap line along hardware edges; avoid finger edges crossing seam.";
       _mp (Sec.dec 3 1) "Pink" "Pad feedback" "Duplicate LED/hit feedback under the correct hand; avoid double-lit pads.";
       _mp (Sec.dec 4 1) "Cyan" "Audio truth" "If printing live audio, comp the correct take for each hit; no double hits.";
       _mp (Sec.dec 5 1) "Yellow" "Micro parallax" "If hands drift apart, micro-warp one plate to the other near the seam.";
       _mp (Sec.dec 299 1) "Blue" "⏱ 5min anchor" "" ]);
    ("screen_insert",
     [ _mp (Sec.dec 0 1) "Orange" "Track" "Planar track the screen surface; verify track on edges & diagonals, not just corners.";
       _mp (Sec.dec 1 1) "Blue" "Corner pin" "Apply corner pin; precomp UI at native aspect; avoid subpixel shimmer by slight defocus.";
       _mp (Sec.dec 2 1) "Green" "Display look" "Gamma lift + slight saturation cut; add 1–2 px inner glow and faint reflection pass.";
       _mp (Sec.dec 3 1) "Pink" "Motion blur & flicker" "Match shutter blur; optional subtle 0.5–1% luminance flicker to sell emissive panel.";
       _mp (Sec.dec 4 1) "Cyan" "Moire / aliasing" "Add tiny grain and 0.2–0.4 px defocus to kill moire while keeping UI crisp enough.";
       _mp (Sec.dec 5 1) "Yellow" "Light spill" "Add light wrap onto bezels/fingers at bright frames; very low opacity.";
       _mp (Sec.dec 299 1) "Blue" "⏱ 5min anchor" "" ]) ].

Definition SELECTS_BASE : list Marker :=
  [ _mp (Sec.dec 0 1) "Purple" "SELECTS — Workflow" "Pass 1: reject hard misses. Pass 2: keep only 'A' material. Pass 3: choose alts.";
    _mp (Sec.dec 1 1) "Orange" "Labeling & notes" "Use ⭐/color or keywords in Notes: hook, verse, cutaway, reaction, alt, NG.";
    _mp (Sec.dec 2 1) "Blue" "Cut points" "Prefer cuts on motion/syllables; add 6–12f handles to each pick for safety.";
    _mp (Sec.dec 3 1) "Green" "Sync sanity" "Mark claps/peaks; verify frame-accurate sync against waveform/transients.";
    _mp (Sec.dec 4 1) "Yellow" "Stringout pointers" "Range-mark best beats; leave short gaps between ideas to hear pacing honestly.";
    _mp (Sec.dec 299 1) "Blue" "⏱ 5min anchor" "" ].

Definition SELECTS_SPECIFIC_items : list (string * list Marker) :=
  [ ("mv_perf",
     [ _mp (Sec.dec 5 1) "Red" "Lyric map" "Note bar:line references in Notes (e.g., V1L3). Keep best energy + clean lipsync.";
       _mp (Sec.dec 6 1) "Blue" "Angle variety" "Favor angle changes on rhyme landings; avoid 3+ consecutive takes of same lens.";
       _mp (Sec.dec 7 1) "Pink" "Micro-ramps" "Tag rampable hits (impact/word) for later 90–110% time-micro to sell emphasis." ]);
    ("broll",
     [ _mp (Sec.dec 5 1) "Orange" "Texture diversity" "Collect movement textures (hands, lights, environment). Avoid duplicates of same move.";
       _mp (Sec.dec 6 1) "Cyan" "Parallax / depth" "Prefer foreground passes & reveals; tag any perfect whip/cover for transitions.";
       _mp (Sec.dec 7 1) "Green" "Cutaway purpose" "Each B-roll pick should illustrate a lyric/idea or hide an A-roll cut." ]);
    ("fashion_look",
     [ _mp (Sec.dec 5 1) "Red" "Silhouette first" "Pick one clean full-body read per look; then 2–3 detail shots (fabric, hardware).";
       _mp (Sec.dec 6 1) "Blue" "Motion beauty" "Walk/turn/hair moments with flow; reject frames that crush garment shape.";
       _mp (Sec.dec 7 1) "Yellow" "Color/texture continuity" "Note lighting shifts; tag candidates for thumbnail/carousel." ]);
    ("th_aroll",
     [ _mp (Sec.dec 5 1) "Red" "Message spine" "Select crisp claims and proofs; cut fillers/false starts/breath-tails.";
       _mp (Sec.dec 6 1) "Blue" "Cut on gesture" "Hide jump cuts under head/hand motion; tag phrases needing B-roll coverage.";
       _mp (Sec.dec 7 1) "Green" "Caption sync" "Keep phrase boundaries clean for line breaks; avoid mid-word cuts." ]);
    ("th_broll",
     [ _mp (Sec.dec 5 1) "Orange" "Illustrative matches" "Pick visuals that literally prove the sentence; 1–2 per point max.";
       _mp (Sec.dec 6 1) "Cyan" "Readability" "Avoid busy frames behind captions; prefer negative space or shallow DOF." ]);
    ("dil_generic",
     [ _mp (Sec.dec 5 1) "Red" "Micro-scenes" "Collect clear begin→middle→end beats (3–6s each).";
       _mp (Sec.dec 6 1) "Blue" "Entrances/Exits" "Favor shots with natural in/out motion for seamless chaining." ]);
    ("dil_commute",
     [ _mp (Sec.dec 5 1) "Orange" "Travel rhythm" "Wheels/doors/steps ambience; grab a few speed & direction variations.";
       _mp (Sec.dec 6 1) "Green" "Landmarks" "Tag 1–2 location wides for context; hold for 0.5–1.0s longer." ]);
    ("dil_coffee",
     [ _mp (Sec.dec 5 1) "Pink" "Hands & steam" "Close-ups of pour/steam; use them to reset cadence later.";
       _mp (Sec.dec 6 1) "Yellow" "Loop beats" "Pick a looping action (stir, sip, door swing) for intros/outros." ]);
    ("cook_overhead",
     [ _mp (Sec.dec 5 1) "Red" "Clean hits" "Choose takes with clear pad contact & stable wrist; reject occluded hits.";
       _mp (Sec.dec 6 1) "Blue" "UI context" "Grab short UI pans for key/plugin; make sure values are legible." ]);
    ("cook_front",
     [ _mp (Sec.dec 5 1) "Orange" "Energy & eye line" "Prefer takes with micro-groove and camera engagement; avoid dead stares.";
       _mp (Sec.dec 6 1) "Green" "Reveal moments" "Pick sequences that set up/pay off arrangement changes." ]);
    ("cook_foley",
     [ _mp (Sec.dec 5 1) "Cyan" "Transient truth" "Select crisp knob turns/clicks; align to grid transient if needed.";
       _mp (Sec.dec 6 1) "Yellow" "Variety" "Gather a library: short/long whooshes, reverse, button, cloth, hands." ]);
    ("stringout_generic",
     [ _mp (Sec.dec 5 1) "Red" "Order" "Hook → context → develop → payoff. Keep a 3:1 selects-to-runtime ratio.";
       _mp (Sec.dec 6 1) "Blue" "Air for pacing" "Leave tiny gaps between ideas; listen without music first, then add bed.";
       _mp (Sec.dec 7 1) "Green" "Markers to beats" "Range-mark final beats to guide transitions and graphics later." ]) ].

Definition PRINCIPLE_PACKS_items : list (string * list Marker) :=
  [ ("scenes_segments",
     [ _mp (Sec.dec 0 1) "Purple" "PRINCIPLES — Scenes/Segments" ("• First-frame clarity (<2s): who/where/what." ++ nl ++ "• Keep trims tight; avoid >1.5s dead air between ideas." ++ nl ++ "• Use bridges for invisible cuts (movement/sound/action).");
       _mp (Sec.dec 1 1) "Pink" "Micro-jolt cadence" "Insert a quick change every ~5–8s (angle/motion/graphic) to refresh attention.";
       _mp (Sec.dec 2 1) "Yellow" "Loop seam awareness" "Plan an end frame that re-enters cleanly if the video loops on social.";
       _mp (Sec.dec 299 1) "Blue" "⏱ 5min anchor" "Timeline duration marker (auto-generated)" ]);
    ("shotfx",
     [ _mp (Sec.dec 0 1) "Purple" "PRINCIPLES — ShotFX" ("• Composite first, grade after (minimize double processing)." ++ nl ++ "• Track → refine → blend: favor natural edges over harsh feather." ++ nl ++ "• Use AI assists sparingly; keep facial texture/natural motion.");
       _mp (Sec.dec 1 1) "Blue" "Mask edge awareness" "Mind edges during fast motion; avoid halos/boil. Prefer soft, directional feathering.";
       _mp (Sec.dec 2 1) "Pink" "Look exploration" "Try one alternate 'beauty vs grit' treatment for options later.";
       _mp (Sec.dec 299 1) "Blue" "⏱ 5min anchor" "Timeline duration marker (auto-generated)" ]);
    ("talking_head",
     [ _mp (Sec.dec 0 1) "Purple" "PRINCIPLES — Talking Head" ("• Lead with the point (don't bury context)." ++ nl ++ "• Tighten fillers; preserve natural cadence." ++ nl ++ "• Support hard ideas with B-roll overlays; hide jump cuts.");
       _mp (Sec.dec 1 1) "Blue" "B-roll window" "Consider an overlay here to illustrate or cover a breath cut.";
       _mp (Sec.dec 2 1) "Yellow" "Pacing & captions" "Keep line breaks on phrase boundaries; punch keywords with subtle zoom/audio emphasis.";
       _mp (Sec.dec 299 1) "Blue" "⏱ 5min anchor" "Timeline duration marker (auto-generated)" ]);
    ("fashion",
     [ _mp (Sec.dec 0 1) "Purple" "PRINCIPLES — Fashion" ("• Silhouette first (clean read, full body)." ++ nl ++ "• Then detail: fabric/texture/hardware micro-shots." ++ nl ++ "• Motion beauty: walk/turn/glance for flow & attitude.");
       _mp (Sec.dec 1 1) "Pink" "Motion beauty" "Feature a fluid move here (turn/step/hair/garment ripple).";
       _mp (Sec.dec 2 1) "Green" "Thumbnail candidates" "Flag strong stills for covers/carousels later.";
       _mp (Sec.dec 299 1) "Blue" "⏱ 5min anchor" "Timeline duration marker (auto-generated)" ]);
    ("day_in_the_life",
     [ _mp (Sec.dec 0 1) "Purple" "PRINCIPLES — Day in the Life" ("• Intent fast: what's happening today?" ++ nl ++ "• Micro-scenes > montage blur: 3–6s beats with clear purpose." ++ nl ++ "• End each cycle with a small resolution or tease.");
       _mp (Sec.dec 1 1) "Blue" "Atmos pass" "Insert textures/hands/ambient to vary pacing without losing thread.";
       _mp (Sec.dec 2 1) "Yellow" "Transition moment" "Natural hop to the next micro-scene (movement/sound change).";
       _mp (Sec.dec 3 1) "Green" "Cycle closure" "Leave a resolved beat that can loop if needed.";
       _mp (Sec.dec 299 1) "Blue" "⏱ 5min anchor" "Timeline duration marker (auto-generated)" ]);
    ("cook_ups",
     [ _mp (Sec.dec 0 1) "Purple" "PRINCIPLES — Cook-Ups" ("• Introduce motif quickly; show the 'why' of the tweak." ++ nl ++ "• Reveal progress visually (UI, hands, waveform/meter).");
       _mp (Sec.dec 1 1) "Yellow" "Arrangement choice" "Commit to a direction; avoid endless A/B meanders.";
       _mp (Sec.dec 2 1) "Blue" "UI / sound insert" "Highlight a plugin/knob/waveform moment that sells the change.";
       _mp (Sec.dec 3 1) "Pink" "Vibe spike" "Create a small peak (camera move, slow-mo, quick cut burst).";
       _mp (Sec.dec 299 1) "Blue" "⏱ 5min anchor" "Timeline duration marker (auto-generated)" ]) ].

(** ** Text helpers: [str.lower], [str.replace], [in], [startswith] *)

Definition lower_ascii (c : ascii) : ascii :=
  let n := nat_of_ascii c in
  if (65 <=? n)%nat && (n <=? 90)%nat then ascii_of_nat (n + 32) else c.

(** [str.lower()] on the UTF-8 bytes.  Besides [A]..[Z], exactly two code
    points have a lower case that contains an ASCII character: U+212A
    (Kelvin sign, to [k]) and U+0130 (dotted capital I, to [i] followed by
    U+0307).  Every other non-ASCII code point is mapped by Python to
    non-ASCII text and is kept as it is here; the keyword tests below, all
    on ASCII needles, cannot tell the difference. *)
Fixpoint lower (s : string) : string :=
  match s with
  | String "226" (String "132" (String "170" rest)) => String "k" (lower rest)
  | String "196" (String "176" rest) =>
      String "i" (String "204" (String "135" (lower rest)))
  | String c rest => String (lower_ascii c) (lower rest)
  | EmptyString => EmptyString
  end.

Definition startswith (s p : string) : bool := String.prefix p s.

(** [needle in hay] *)
Fixpoint contains (hay needle : string) : bool :=
  if String.prefix needle hay then true
  else match hay with
       | EmptyString => false
       | String _ hay' => contains hay' needle
       end.

Fixpoint drop (n : nat) (s : string) : string :=
  match n, s with
  | O, _ => s
  | S n', String _ s' => drop n' s'
  | S _, EmptyString => EmptyString
  end.

Fixpoint replace_fuel (fuel : nat) (old new s : string) : string :=
  match fuel with
  | O => s
  | S fuel' =>
      match s with
      | EmptyString => EmptyString
      | String c s' =>
          if String.prefix old s
          then (new ++ replace_fuel fuel' old new (drop (String.length old) s))%string
          else String c (replace_fuel fuel' old new s')
      end
  end.

(** [s.replace(old, new)] for a non-empty [old]: left to right, without
    overlap.  Each step consumes at least one character. *)
Definition replace (s old new : string) : string :=
  replace_fuel (String.length s) old new s.

(** ** Dictionaries with string keys *)

Fixpoint dict_get {V} (d : list (string * V)) (k : string) : option V :=
  match d with
  | [] => None
  | (k', v) :: d' => if String.eqb k k' then Some v else dict_get d' k
  end.

Definition dict_mem {V} (d : list (string * V)) (k : string) : bool :=
  match dict_get d k with Some _ => true | None => false end.

Definition list_mem (x : string) (l : list string) : bool :=
  existsb (String.eqb x) l.

Definition _COLOR_FALLBACK (c : string) : option string :=
  dict_get _COLOR_FALLBACK_items c.

(** [PRINCIPLE_PACKS[key]] for the literal keys of the module, all of which
    are present. *)
Definition PRINCIPLE_PACKS (key : string) : list Marker :=
  match dict_get PRINCIPLE_PACKS_items key with
  | Some p => p
  | None => []
  end.

(** [SHOTFX_SPECIFIC[key]] for a key of the table. *)
Definition SHOTFX_SPECIFIC (key : string) : list Marker :=
  match dict_get SHOTFX_SPECIFIC_items key with
  | Some p => p
  | None => []
  end.

(** ** Timeline title classification *)

Definition _shotfx_variant_for_title (norm_title : string) : option string :=
  let t := lower norm_title in
  if contains t "clone" then Some "clone"
  else if contains t "clean plate" then Some "clean_plate"
  else if contains t "background" && contains t "cleanup"
       then Some "background_cleanup"
  else if (contains t "remove" && contains t "mic") || contains t "mic cable"
       then Some "remove_mic_cable"
  else if contains t "hand split" then Some "hand_split"
  else if contains t "screen insert" || contains t "(ui)"
          || (contains t "screen" && contains t "insert")
       then Some "screen_insert"
  else None.

Definition _selects_variant_for_title (norm_title : string) : option string :=
  let t := lower norm_title in
  if contains t "perf selects" || contains t "performance selects"
  then Some "mv_perf"
  else if contains t "b-roll selects" || contains t "broll selects"
  then Some "broll"
  else if contains t "look selects" then Some "fashion_look"
  else if contains t "a-roll selects" || contains t "aroll selects"
  then Some "th_aroll"
  else if contains t "selects — commute" || contains t "selects - commute"
          || contains t "commute"
  then Some "dil_commute"
  else if contains t "coffee" then Some "dil_coffee"
  else if startswith t "selects —" || startswith t "selects -"
  then Some "dil_generic"
  else if contains t "overhead selects" then Some "cook_overhead"
  else if contains t "front cam selects" || contains t "front-camera selects"
  then Some "cook_front"
  else if contains t "foley/prod selects" || contains t "foley selects"
          || contains t "prod selects"
  then Some "cook_foley"
  else if contains t "stringout" then Some "stringout_generic"
  else None.

(** [base + SPECIFIC[var_key]] when [var_key] is set and is a key of the
    table, [base] otherwise. *)
Definition with_variant (base : list Marker)
    (specific : list (string * list Marker)) (var_key : option string)
  : list Marker :=
  match var_key with
  | Some k =>
      match k, dict_get specific k with
      | String _ _, Some extra => base ++ extra
      | _, _ => base
      end
  | None => base
  end.

(** The title after [(title or "").lower()] and the two dash replacements. *)
Definition normalize_title (title : option string) : string :=
  let s := match title with Some s => s | None => "" end in
  replace (replace (lower s) "—" "-") "–" "-".

Definition is_master_title (t : string) : bool :=
  (contains t " money master" || startswith t "money master")
  || (contains t " master -" || startswith t "mv master")
  || startswith t "th master"
  || startswith t "fashion master"
  || startswith t "dil master"
  || startswith t "cook-up master".

Definition get_principle_markers_for_title (title : option string)
  : list Marker :=
  let t := normalize_title title in
  if is_master_title t then []
  else if contains t "selects" || contains t "stringout" then
    with_variant SELECTS_BASE SELECTS_SPECIFIC_items
                 (_selects_variant_for_title t)
  else if contains t "shotfx" || contains t "shot fx" then
    with_variant (PRINCIPLE_PACKS "shotfx") SHOTFX_SPECIFIC_items
                 (_shotfx_variant_for_title t)
  else if contains t "segment" then PRINCIPLE_PACKS "scenes_segments"
  else if contains t "interview" then PRINCIPLE_PACKS "talking_head"
  else if contains t "look" then PRINCIPLE_PACKS "fashion"
  else if contains t "chapter" then PRINCIPLE_PACKS "day_in_the_life"
  else if contains t "section" then PRINCIPLE_PACKS "cook_ups"
  else [].

(** The master timelines [main()] creates: the three money masters, the
    [10 | Master Build] entry of each pillar with the suffix [main()]
    appends, and [_tier_names(prefix)] for the five lane prefixes. *)
Definition tier_names (prefix : string) : list string :=
  [ (prefix ++ " — 12s — 2160×3840 • 29.97p")%string;
    (prefix ++ " — 22s — 2160×3840 • 29.97p")%string;
    (prefix ++ " — 30s — 2160×3840 • 29.97p")%string ].

Definition driver_master_titles : list string :=
  [ "Money Master — 12s (IG short) — 2160×3840 • 29.97p";
    "Money Master — 22s (IG mid) — 2160×3840 • 29.97p";
    "Money Master — 30s (IG upper) — 2160×3840 • 29.97p";
    "MV Master — ⏱ 29.97p • 📐 2160×3840";
    "Fashion Master — ⏱ 29.97p • 📐 2160×3840";
    "TH Master — ⏱ 29.97p • 📐 2160×3840";
    "DIL Master — ⏱ 29.97p • 📐 2160×3840";
    "Cook-Up Master — ⏱ 29.97p • 📐 2160×3840" ]
  ++ tier_names "MV Master" ++ tier_names "Fashion Master"
  ++ tier_names "TH Master" ++ tier_names "DIL Master"
  ++ tier_names "Cook-Up Master".

(** ** Frames *)

Definition _sec_to_frames (sec fps_float : Qc) : Z :=
  Sec.py_round (sec * fps_float)%Qc.

(** [max(1, int(dur_frames or 1))] on an [int]. *)
Definition ensure_min_duration (dur_frames : Z) : Z :=
  Z.max 1 (if (dur_frames =? 0)%Z then 1%Z else dur_frames).

(** ** The host: calls on a timeline object and their replies *)

(** Python values a host call may return. *)
#[local] Unset Elimination Schemes.
Inductive pyval : Type :=
| VNone
| VBool (b : bool)
| VInt (z : Z)
| VFloat (q : Qc)
| VStr (s : string)
| VList (items : list pyval)
| VDict (items : list (pyval * pyval)).
#[local] Set Elimination Schemes.

(** Truth value of [if v:]. *)
Definition truthy (v : pyval) : bool :=
  match v with
  | VNone => false
  | VBool b => b
  | VInt z => negb (z =? 0)%Z
  | VFloat q => if Qc_eq_dec q 0 then false else true
  | VStr s => negb (String.eqb s "")
  | VList items => match items with [] => false | _ => true end
  | VDict items => match items with [] => false | _ => true end
  end.

(** The methods of a timeline object.  The first seven are the ones this
    module calls; the two deletions complete the interface of the host and
    are issued by nothing below. *)
Inductive call : Type :=
| GetName
| GetMarkers
| AddMarker6 (frame : Z) (color name note : string) (duration : Z)
             (custom_data : string)
| AddMarker5 (frame : Z) (color name note : string) (duration : Z)
| GetTrackCount (kind : string)
| AddTrack (kind : string)
| SetTrackName (kind : string) (index : Z) (label : string)
| DeleteTrack (kind : string) (index : Z)
| DeleteMarkerAtFrame (frame : Z).

(** A call returns a value or raises; [msg] is [str(e)].  A missing method
    is the [AttributeError] raised at the call site. *)
Inductive reply : Type :=
| Returns (v : pyval)
| Raises (msg : string).

Definition is_marker_add (c : call) : bool :=
  match c with
  | AddMarker6 _ _ _ _ _ _ | AddMarker5 _ _ _ _ _ => true
  | _ => false
  end.

Definition marker_adds (cs : list call) : list call := filter is_marker_add cs.

(** ** Run statistics *)

Record BuildStats : Type := mkStats {
  folders_created : Z;
  folders_found : Z;
  timelines_created : Z;
  timelines_failed : Z;
  timelines_skipped : Z;
  tracks_created : Z;
  errors : list string
}.

(** [BuildStats()] *)
Definition new_stats : BuildStats := mkStats 0 0 0 0 0 0 [].

(** [stats.log_error(op, err)] *)
Definition log_error (op err : string) (s : BuildStats) : BuildStats :=
  mkStats (folders_created s) (folders_found s) (timelines_created s)
          (timelines_failed s) (timelines_skipped s) (tracks_created s)
          (errors s ++ [(op ++ ": " ++ err)%string]).

(** [stats.tracks_created += 1] *)
Definition incr_tracks_created (s : BuildStats) : BuildStats :=
  mkStats (folders_created s) (folders_found s) (timelines_created s)
          (timelines_failed s) (timelines_skipped s) (tracks_created s + 1)
          (errors s).

(** The ["error_count"] entry of [stats.summary()]. *)
Definition error_count (s : BuildStats) : Z := Z.of_nat (length (errors s)).


(** ** What the seeding path asks of the host *)

(** The colour handed to [_add_marker_safe]:
    [if color not in _SUPPORTED_MARKER_COLORS:
         color = _COLOR_FALLBACK.get(color, "Red")]. *)
Definition seed_color (c : string) : string :=
  if list_mem c _SUPPORTED_MARKER_COLORS then c
  else match _COLOR_FALLBACK c with
       | Some fb => fb
       | None => "Red"
       end.

(** The duration handed to [_add_marker_safe]. *)
Definition seed_dur (m : Marker) (fps_float : Qc) : Z :=
  let d := _sec_to_frames (dur m) fps_float in
  if (d <? 1)%Z then 1%Z else d.

(** [sorted(markers, key=lambda m: m["t"], reverse=True)]: descending, and
    still stable. *)
Definition by_time_desc (a b : Marker) : bool := Sec.leb (t b) (t a).

(** The first host call made for a marker of the pack. *)
Definition first_attempt (fps_float : Qc) (m : Marker) : call :=
  AddMarker6 (_sec_to_frames (t m) fps_float) (seed_color (color m))
             (name m) (notes m) (ensure_min_duration (seed_dur m fps_float)) "".

(** An attempt to place one marker: either call shape, on the given frame
    with the given name, note and duration, in the colour asked for or in
    its fallback. *)
Definition attempt_with (frame : Z) (color name note : string) (d : Z)
    (c : call) : Prop :=
  match c with
  | AddMarker6 f col n nt d' custom =>
      f = frame /\ (col = color \/ _COLOR_FALLBACK color = Some col)
      /\ n = name /\ nt = note /\ d' = d /\ custom = ""
  | AddMarker5 f col n nt d' =>
      f = frame /\ (col = color \/ _COLOR_FALLBACK color = Some col)
      /\ n = name /\ nt = note /\ d' = d
  | _ => False
  end.

(** An attempt for the marker [m] of a pack seeded at [fps_float]. *)
Definition retry_of (fps_float : Qc) (m : Marker) (c : call) : Prop :=
  attempt_with (_sec_to_frames (t m) fps_float) (seed_color (color m))
               (name m) (notes m) (ensure_min_duration (seed_dur m fps_float))
               c.

(** The calls made for one marker: its first attempt, then retries. *)
Definition block_of (fps_float : Qc) (m : Marker) (cs : list call) : Prop :=
  exists rest, cs = first_attempt fps_float m :: rest
               /\ Forall (retry_of fps_float m) rest.


(** ** The world a run acts on *)

Section Host.

(** States of the timeline object, and how it answers a call. *)
Variable HState : Type.
Variable respond : HState -> call -> reply * HState.

(** Python's [int] on text, used only if the host reports a count as a
    string; [None] when it raises. *)
Variable int_of_text : string -> option Z.

(** The timeline, the calls issued so far (oldest first), and the one
    [BuildStats] object of the run, which a function can update only when
    it is handed a reference to it. *)
Record World : Type := mkWorld {
  host : HState;
  calls : list call;
  stats : BuildStats
}.

Definition M (A : Type) : Type := World -> A * World.

Definition ret {A} (a : A) : M A := fun w => (a, w).

Definition bind {A B} (m : M A) (k : A -> M B) : M B :=
  fun w => let (a, w') := m w in k a w'.

Notation "x <- m ;; k" := (bind m (fun x => k))
  (at level 61, m at next level, right associativity).
Notation "m ;;; k" := (bind m (fun _ => k))
  (at level 61, right associativity).

Definition host_call (c : call) : M reply :=
  fun w =>
    let (r, h') := respond (host w) c in
    (r, mkWorld h' (calls w ++ [c]) (stats w)).

Definition update_stats (f : BuildStats -> BuildStats) : M unit :=
  fun w => (tt, mkWorld (host w) (calls w) (f (stats w))).

(** [if stats: ...] on the optional [stats] argument. *)
Definition when_stats (stats_ref : bool) (f : BuildStats -> BuildStats)
  : M unit :=
  if stats_ref then update_stats f else ret tt.

(** [int(v)], [None] when it raises. *)
Definition py_int (v : pyval) : option Z :=
  match v with
  | VBool b => Some (if b then 1 else 0)%Z
  | VInt z => Some z
  | VFloat q => Some (Z.quot (Qnum (this q)) (Zpos (Qden (this q))))
  | VStr s => int_of_text s
  | VNone | VList _ | VDict _ => None
  end.

(** ** Marker placement *)

(** The two attempts of the [except] branch: the 5-argument form, first
    with the colour, then with its fallback. *)
Definition add_marker_5arg (frame : Z) (color name note : string)
    (dur_frames : Z) : M bool :=
  r3 <- host_call (AddMarker5 frame color name note dur_frames) ;;
  match r3 with
  | Raises _ => ret false
  | Returns ok3 =>
      if truthy ok3 then ret true
      else
        match _COLOR_FALLBACK color with
        | Some (String _ _ as fb) =>
            r4 <- host_call (AddMarker5 frame fb name note dur_frames) ;;
            match r4 with
            | Raises _ => ret false
            | Returns ok4 => ret (truthy ok4)
            end
        | _ => ret false
        end
  end.

Definition _add_marker_safe (frame : Z) (color name note : string)
    (dur_frames : Z) : M bool :=
  let dur_frames := ensure_min_duration dur_frames in
  r <- host_call (AddMarker6 frame color name note dur_frames "") ;;
  match r with
  | Raises _ => add_marker_5arg frame color name note dur_frames
  | Returns ok =>
      if truthy ok then ret true
      else
        match _COLOR_FALLBACK color with
        | Some (String _ _ as fb) =>
            r2 <- host_call (AddMarker6 frame fb name note dur_frames "") ;;
            match r2 with
            | Raises _ => add_marker_5arg frame color name note dur_frames
            | Returns ok2 => ret (truthy ok2)
            end
        | _ => ret false
        end
  end.

Definition _count_markers : M Z :=
  r <- host_call GetMarkers ;;
  match r with
  | Returns (VDict mk) => ret (Z.of_nat (length mk))
  | Returns (VList mk) => ret (Z.of_nat (length mk))
  | _ => ret 0%Z
  end.

(** One iteration of [for m in sorted_markers]. *)
Definition seed_one (fps_float : Qc) (m : Marker) : M bool :=
  let frame := _sec_to_frames (t m) fps_float in
  _add_marker_safe frame (seed_color (color m)) (name m) (notes m)
                   (seed_dur m fps_float).

Fixpoint seed_loop (fps_float : Qc) (ms : list Marker) (added : Z) : M Z :=
  match ms with
  | [] => ret added
  | m :: ms' =>
      ok <- seed_one fps_float m ;;
      seed_loop fps_float ms' (if ok then added + 1 else added)%Z
  end.

Definition add_markers_to_timeline_if_empty (fps_str : fps_text)
    (markers : list Marker) (force : bool) : M (outcome Z) :=
  let fps_float := fps_or_default fps_str in
  existing <- _count_markers ;;
  if (existing >? 0)%Z && negb force then ret (Ok 0%Z)
  else
    let marker_count := length markers in
    if (marker_count =? 0)%nat then
      (* [log.debug("...", tl.GetName())]; [return 0] *)
      nm <- host_call GetName ;;
      match nm with
      | Raises msg => ret (Raised (HostException msg))
      | Returns _ => ret (Ok 0%Z)
      end
    else
      (* [log.info("...", marker_count, tl.GetName())] *)
      nm <- host_call GetName ;;
      match nm with
      | Raises msg => ret (Raised (HostException msg))
      | Returns _ =>
          let sorted_markers := py_sorted by_time_desc markers in
          added <- seed_loop fps_float sorted_markers 0%Z ;;
          ret (Ok added)
      end.

(** ** Tracks *)

(** [try: have = int(tl.GetTrackCount(kind)) / except Exception: have = 0] *)
Definition track_count_or_zero (kind : string) : M Z :=
  r <- host_call (GetTrackCount kind) ;;
  match r with
  | Returns v => ret (match py_int v with Some z => z | None => 0%Z end)
  | Raises _ => ret 0%Z
  end.

(** One iteration of [for _ in range(max(0, need))]. *)
Definition add_one_track (kind : string) (stats_ref : bool) : M unit :=
  r <- host_call (AddTrack kind) ;;
  match r with
  | Returns _ => when_stats stats_ref incr_tracks_created
  | Raises msg =>
      when_stats stats_ref (log_error ("Track creation: " ++ kind)%string msg)
  end.

Fixpoint repeat_m (n : nat) (m : M unit) : M unit :=
  match n with
  | O => ret tt
  | S n' => m ;;; repeat_m n' m
  end.

(** [for i, label in enumerate(target, 1): tl.SetTrackName(kind, i, label)],
    each call guarded by [try/except: pass]. *)
Fixpoint name_tracks (kind : string) (i : Z) (target : list string) : M unit :=
  match target with
  | [] => ret tt
  | label :: target' =>
      host_call (SetTrackName kind i label) ;;;
      name_tracks kind (i + 1)%Z target'
  end.

Definition ensure_subtitle_track (stats_ref : bool) : M unit :=
  subcnt <- track_count_or_zero "subtitle" ;;
  if (subcnt =? 0)%Z then
    r1 <- host_call (AddTrack "subtitle") ;;
    match r1 with
    | Raises _ => ret tt
    | Returns _ =>
        r2 <- host_call (SetTrackName "subtitle" 1 "CC | English") ;;
        match r2 with
        | Raises _ => ret tt
        | Returns _ => when_stats stats_ref incr_tracks_created
        end
    end
  else ret tt.

Definition or_empty (names : option (list string)) : list string :=
  match names with
  | Some l => l
  | None => []
  end.

(** The labels in host index order: video tracks are declared top to
    bottom and numbered bottom to top, so their list is reversed once here;
    any other kind takes the left-to-right list as it is. *)
Definition track_target (kind : string)
    (names_top_to_bottom names_left_to_right : option (list string))
  : list string :=
  if String.eqb kind "video" then rev (or_empty names_top_to_bottom)
  else or_empty names_left_to_right.

Definition ensure_tracks_named (kind : string)
    (names_top_to_bottom names_left_to_right : option (list string))
    (stats_ref : bool) : M unit :=
  let target := track_target kind names_top_to_bottom names_left_to_right in
  have <- track_count_or_zero kind ;;
  let need := (Z.of_nat (length target) - have)%Z in
  repeat_m (Z.to_nat (Z.max 0 need)) (add_one_track kind stats_ref) ;;;
  if String.eqb kind "video" then name_tracks "video" 1 target
  else
    name_tracks "audio" 1 target ;;;
    ensure_subtitle_track stats_ref.

End Host.

Arguments mkWorld {HState} host calls stats.

(** The timeline after a sequence of calls. *)
Definition host_after {HState} (respond : HState -> call -> reply * HState)
    (h : HState) (cs : list call) : HState :=
  fold_left (fun h c => snd (respond h c)) cs h.

(** [m], run from [w], issues exactly the calls [cs], which is all the
    timeline sees of it. *)
Definition drives {HState A} (respond : HState -> call -> reply * HState)
    (m : M HState A) (w : World HState) (cs : list call) : Prop :=
  calls (snd (m w)) = calls w ++ cs
  /\ host (snd (m w)) = host_after respond (host w) cs.

Definition is_track_removal (c : call) : bool :=
  match c with
  | DeleteTrack _ _ => true
  | _ => false
  end.

(** Calls that may change the number of tracks of kind [k]. *)
Definition changes_count (c : call) (k : string) : bool :=
  match c with
  | AddTrack k' | DeleteTrack k' _ => String.eqb k' k
  | _ => false
  end.

(** The renaming calls for [labels], numbered from [i]. *)
Fixpoint rename_calls (kind : string) (i : Z) (labels : list string)
  : list call :=
  match labels with
  | [] => []
  | label :: labels' =>
      SetTrackName kind i label :: rename_calls kind (i + 1) labels'
  end.

(** [m], run from [w], issues exactly the calls [cs] and leaves the
    statistics of the run as they were. *)
Definition issues {HState A} (m : M HState A) (w : World HState)
    (cs : list call) : Prop :=
  calls (snd (m w)) = calls w ++ cs /\ stats (snd (m w)) = stats w.

(** Seeding twice in succession, without forcing. *)
Definition seed_twice {HState} (respond : HState -> call -> reply * HState)
    (fps_str : fps_text) (markers : list Marker) : M HState (outcome Z) :=
  bind (add_markers_to_timeline_if_empty respond fps_str markers false)
       (fun _ => add_markers_to_timeline_if_empty respond fps_str markers false).

(** ** An in-memory timeline

    A concrete host for the examples: tracks are lists of names, markers
    are keyed by frame.  It refuses a marker on an empty timeline (no
    content, [mt_frames = 0]), on an occupied frame, with a duration below
    one frame, or in a colour it does not know. *)

Record MemMarker : Type := mkMemMarker {
  mk_color : string;
  mk_name : string;
  mk_note : string;
  mk_duration : Z;
  mk_custom : string
}.

Record MemTimeline : Type := mkMem {
  mt_name : string;
  mt_video : list string;
  mt_audio : list string;
  mt_subtitle : list string;
  mt_markers : list (Z * MemMarker);
  mt_frames : Z;
  mt_colors : list string;
  mt_enumerates : bool
}.

Definition mem_tracks (tl : MemTimeline) (kind : string) : list string :=
  if String.eqb kind "video" then mt_video tl
  else if String.eqb kind "audio" then mt_audio tl
  else if String.eqb kind "subtitle" then mt_subtitle tl
  else [].

Definition mem_known_kind (kind : string) : bool :=
  String.eqb kind "video" || String.eqb kind "audio"
  || String.eqb kind "subtitle".

Definition mem_set_tracks (tl : MemTimeline) (kind : string)
    (tracks : list string) : MemTimeline :=
  mkMem (mt_name tl)
        (if String.eqb kind "video" then tracks else mt_video tl)
        (if String.eqb kind "video" then mt_audio tl
         else if String.eqb kind "audio" then tracks else mt_audio tl)
        (if String.eqb kind "video" then mt_subtitle tl
         else if String.eqb kind "audio" then mt_subtitle tl
         else if String.eqb kind "subtitle" then tracks else mt_subtitle tl)
        (mt_markers tl) (mt_frames tl) (mt_colors tl) (mt_enumerates tl).

Definition mem_set_markers (tl : MemTimeline) (ms : list (Z * MemMarker))
  : MemTimeline :=
  mkMem (mt_name tl) (mt_video tl) (mt_audio tl) (mt_subtitle tl) ms
        (mt_frames tl) (mt_colors tl) (mt_enumerates tl).

Definition mem_marker_at (tl : MemTimeline) (frame : Z) : bool :=
  existsb (fun fm => (fst fm =? frame)%Z) (mt_markers tl).

Definition mem_add_marker (tl : MemTimeline) (frame : Z)
    (c n note : string) (d : Z) (custom : string) : reply * MemTimeline :=
  if (0 <? mt_frames tl)%Z && (0 <=? frame)%Z && (1 <=? d)%Z
     && list_mem c (mt_colors tl) && negb (mem_marker_at tl frame)
  then (Returns (VBool true),
        mem_set_markers tl
          (mt_markers tl ++ [(frame, mkMemMarker c n note d custom)]))
  else (Returns (VBool false), tl).

Definition mem_marker_value (fm : Z * MemMarker) : pyval * pyval :=
  (VInt (fst fm),
   VDict [ (VStr "color", VStr (mk_color (snd fm)));
           (VStr "duration", VInt (mk_duration (snd fm)));
           (VStr "note", VStr (mk_note (snd fm)));
           (VStr "name", VStr (mk_name (snd fm)));
           (VStr "customData", VStr (mk_custom (snd fm))) ]).

Fixpoint remove_nth {A} (i : nat) (l : list A) : list A :=
  match l, i with
  | [], _ => []
  | _ :: l', O => l'
  | x :: l', S i' => x :: remove_nth i' l'
  end.

Definition mem_respond (tl : MemTimeline) (c : call) : reply * MemTimeline :=
  match c with
  | GetName => (Returns (VStr (mt_name tl)), tl)
  | GetMarkers =>
      if mt_enumerates tl
      then (Returns (VDict (map mem_marker_value (mt_markers tl))), tl)
      else (Raises "'Timeline' object has no attribute 'GetMarkers'", tl)
  | AddMarker6 f col n note d custom => mem_add_marker tl f col n note d custom
  | AddMarker5 f col n note d => mem_add_marker tl f col n note d ""
  | GetTrackCount k => (Returns (VInt (Z.of_nat (length (mem_tracks tl k)))), tl)
  | AddTrack k =>
      if mem_known_kind k
      then (Returns (VBool true), mem_set_tracks tl k (mem_tracks tl k ++ [""]))
      else (Returns (VBool false), tl)
  | SetTrackName k i label =>
      if (1 <=? i)%Z && (i <=? Z.of_nat (length (mem_tracks tl k)))%Z
      then (Returns (VBool true),
            mem_set_tracks tl k
              (list_set (Z.to_nat (i - 1)) label (mem_tracks tl k)))
      else (Returns (VBool false), tl)
  | DeleteTrack k i =>
      if (1 <=? i)%Z && (i <=? Z.of_nat (length (mem_tracks tl k)))%Z
      then (Returns (VBool true),
            mem_set_tracks tl k (remove_nth (Z.to_nat (i - 1)) (mem_tracks tl k)))
      else (Returns (VBool false), tl)
  | DeleteMarkerAtFrame f =>
      if mem_marker_at tl f
      then (Returns (VBool true),
            mem_set_markers tl
              (filter (fun fm => negb (fst fm =? f)%Z) (mt_markers tl)))
      else (Returns (VBool false), tl)
  end.

(** The in-memory host never reports a count as text. *)
Definition mem_int_of_text (s : string) : option Z := None.

Definition mem_track_count (tl : MemTimeline) (kind : string) : Z :=
  Z.of_nat (length (mem_tracks tl kind)).

(** The marker colours of the host application. *)
Definition host_colors : list string :=
  [ "Blue"; "Cyan"; "Green"; "Yellow"; "Red"; "Pink"; "Purple"; "Fuchsia";
    "Rose"; "Lavender"; "Sky"; "Mint"; "Lemon"; "Sand"; "Cocoa"; "Cream" ].

(** The start of a run on [tl]: no call issued yet, fresh statistics. *)
Definition mem_world (tl : MemTimeline) : World MemTimeline :=
  mkWorld tl [] new_stats.

(** ** Example timelines *)

(** A timeline with content (five minutes at 29.97 fps) and no marker. *)
Definition studio_timeline : MemTimeline :=
  mkMem "Segment — Hook Performance — ⏱ 29.97p • 📐 2160×3840"
        ["Video 1"] ["Audio 1"] [] [] 8991 host_colors true.

(** A freshly created timeline: no content, so no marker is accepted. *)
Definition empty_timeline : MemTimeline :=
  mkMem "Money Master — 12s (IG short) — 2160×3840 • 29.97p"
        ["Video 1"] ["Audio 1"] [] [] 0 host_colors true.

(** A timeline that already carries a marker, on a build of the host
    without marker enumeration. *)
Definition opaque_timeline : MemTimeline :=
  mkMem "Interview — Radio Cut + B-Roll — ⏱ 29.97p • 📐 2160×3840"
        ["Video 1"] ["Audio 1"] []
        [(0%Z, mkMemMarker "Purple" "PRINCIPLES — Talking Head" "" 1 "")]
        8991 host_colors false.

(** A timeline with twelve video tracks, two more than the catalog names. *)
Definition twelve_track_timeline : MemTimeline :=
  mkMem "MV Master — 12s — 2160×3840 • 29.97p"
        [ "Video 1"; "Video 2"; "Video 3"; "Video 4"; "Video 5"; "Video 6";
          "Video 7"; "Video 8"; "Video 9"; "Video 10"; "My overlay A";
          "My overlay B" ]
        ["Audio 1"] [] [] 8991 host_colors true.

(** The module constant [FPS = "29.97"]. *)
Definition FPS : fps_text := Numeric (Sec.dec 2997 100).

(** * Further parts of the module *)

From Stdlib Require Import Lqa Permutation.
(** ** Seconds-only pacing (lane, tier, section), transcribed from [PACING_S] *)

Definition PACING_S_items
  : list (string * list (string * list (string * string))) :=
  [ ("money",
     [ ("12s",
       [ ("HOOK", "Cut every ~0.8–1.2s; micro-jolt ≤0.7s ok.");
         ("DRAW", "Quicker trims ~0.6–0.9s; 1 brisk insert per beat of idea.");
         ("COMMIT / PAYOFF", "Let proof breathe 1.2–1.8s; single cut-ins ≤0.5s.");
         ("LOOP / CTA", "Button ≤0.7s; avoid extra frames after action lands.") ]);
       ("22s",
       [ ("HOOK", "0.9–1.3s cadence.");
         ("DRAW", "0.7–1.0s cadence; allow 1 contrast cut ≤0.5s.");
         ("INTERRUPT #1", "≤0.6s burst.");
         ("COMMIT / PAYOFF #1", "1.4–2.0s; 1–2 inserts ≤0.5s.");
         ("SECOND HOOK", "0.8–1.1s, punchier than first hook.");
         ("DEVELOP", "1.0–1.4s trims; chain 2 beats max.");
         ("LOOP / CTA", "0.6–0.9s clean loop frame.") ]);
       ("30s",
       [ ("HOOK", "1.0–1.4s cadence.");
         ("DRAW", "0.9–1.2s; maintain forward pressure.");
         ("COMMIT / PAYOFF #1", "1.5–2.2s; inserts ≤0.6s.");
         ("SECOND HOOK", "0.9–1.2s; keep phrasing fresh.");
         ("DEVELOP A", "1.1–1.6s trims; avoid meander.");
         ("DEVELOP B", "1.1–1.6s trims; escalate or contrast.");
         ("FINAL PAYOFF / LOOP", "0.9–1.3s; land on loopable motion.") ]) ]);
    ("mv",
     [ ("12s",
       [ ("HOOK (Signature Visual)", "0.7–1.0s; snap on motion apex.");
         ("DRAW (Aesthetic Lift)", "0.6–0.9s; switch angle/location quickly.");
         ("COMMIT / PAYOFF", "1.2–1.6s on best performance bar; cut-ins ≤0.5s.");
         ("LOOP / CTA", "≤0.7s with repeatable motion.") ]);
       ("22s",
       [ ("HOOK", "0.9–1.2s; hit downbeat moves.");
         ("DRAW", "0.7–1.0s; texture/move alternation.");
         ("COMMIT / PAYOFF #1", "1.4–1.9s; preserve groove.");
         ("SECOND HOOK", "0.8–1.1s; fresh pose/transition.");
         ("DEVELOP", "1.0–1.4s; 2-beat mini-sequence.");
         ("LOOP / CTA", "0.6–0.9s.") ]);
       ("30s",
       [ ("HOOK", "1.0–1.3s; signature move early.");
         ("DRAW", "0.9–1.2s; keep energy rising.");
         ("COMMIT / PAYOFF #1", "1.5–2.1s; show payoff clean.");
         ("SECOND HOOK", "0.9–1.2s.");
         ("DEVELOP A", "1.1–1.5s per move sequence.");
         ("DEVELOP B", "1.1–1.5s, environment interplay.");
         ("FINAL PAYOFF / LOOP", "0.9–1.2s loop close.") ]) ]);
    ("fashion",
     [ ("12s",
       [ ("HOOK (Hero Fit Moment)", "0.7–1.0s; silhouette read first.");
         ("DRAW (Detail Contrast)", "0.6–0.9s; alternate texture/motion.");
         ("COMMIT / PAYOFF", "1.2–1.6s full-body; detail cut-ins ≤0.5s.");
         ("LOOP / CTA", "≤0.7s on a repeatable turn/step.") ]);
       ("22s",
       [ ("HOOK (Look Identity)", "0.8–1.1s.");
         ("DRAW (Texture/Movement)", "0.7–1.0s; emphasize fabric motion.");
         ("COMMIT / PAYOFF #1", "1.3–1.8s head-to-toe.");
         ("SECOND HOOK (Alt Styling)", "0.8–1.1s; new layer/prop.");
         ("DEVELOP", "1.0–1.4s; 2 detail beats max.");
         ("LOOP / CTA", "0.6–0.9s.") ]);
       ("30s",
       [ ("HOOK (Statement Frame)", "1.0–1.3s.");
         ("DRAW (Cutaway Detail)", "0.9–1.2s; stitching/hardware.");
         ("COMMIT / PAYOFF #1", "1.5–2.1s.");
         ("SECOND HOOK", "0.9–1.2s.");
         ("DEVELOP A", "1.1–1.5s per move.");
         ("DEVELOP B", "1.1–1.5s; environment read.");
         ("FINAL PAYOFF / LOOP", "0.9–1.2s.") ]) ]);
    ("talking",
     [ ("12s",
       [ ("HOOK (Plain-Speak Claim)", "0.8–1.1s; cut on phrase ends.");
         ("DRAW (Setup in One Line)", "0.7–1.0s; keep fillers trimmed.");
         ("COMMIT / PAYOFF", "1.2–1.7s; overlay receipts ≤0.5s.");
         ("LOOP / CTA", "≤0.7s; clean end breath.") ]);
       ("22s",
       [ ("HOOK (Outcome First)", "0.9–1.2s.");
         ("DRAW (Short Context)", "0.8–1.1s; one surprise fact.");
         ("COMMIT / PAYOFF #1", "1.4–2.0s.");
         ("SECOND HOOK", "0.8–1.1s; new phrasing.");
         ("DEVELOP", "1.0–1.4s; single example.");
         ("LOOP / CTA", "0.6–0.9s.") ]);
       ("30s",
       [ ("HOOK (Punchy Thesis)", "1.0–1.3s.");
         ("DRAW (Angle Boost)", "0.9–1.2s.");
         ("COMMIT / PAYOFF #1", "1.5–2.1s.");
         ("SECOND HOOK", "0.9–1.2s.");
         ("DEVELOP A", "1.1–1.5s.");
         ("DEVELOP B", "1.1–1.5s.");
         ("FINAL PAYOFF / LOOP", "0.9–1.2s.") ]) ]);
    ("dil",
     [ ("12s",
       [ ("HOOK (Moment in Progress)", "0.7–1.0s; cut on action changes.");
         ("DRAW (What's Next?)", "0.7–1.0s; tease movement.");
         ("COMMIT / PAYOFF", "1.2–1.6s micro-resolution.");
         ("LOOP / CTA", "≤0.7s.") ]);
       ("22s",
       [ ("HOOK (Drop-In)", "0.9–1.2s.");
         ("DRAW (Mini Arc)", "0.8–1.1s.");
         ("COMMIT / PAYOFF #1", "1.4–1.9s.");
         ("SECOND HOOK", "0.8–1.1s.");
         ("DEVELOP", "1.0–1.4s.");
         ("LOOP / CTA", "0.6–0.9s.") ]);
       ("30s",
       [ ("HOOK (Live Snapshot)", "1.0–1.3s.");
         ("DRAW (Tension/Contrast)", "0.9–1.2s.");
         ("COMMIT / PAYOFF #1", "1.5–2.0s.");
         ("SECOND HOOK", "0.9–1.2s.");
         ("DEVELOP A", "1.1–1.5s.");
         ("DEVELOP B", "1.1–1.5s.");
         ("FINAL PAYOFF / LOOP", "0.9–1.2s.") ]) ]);
    ("cook",
     [ ("12s",
       [ ("HOOK (Signature Sound/Move)", "0.7–1.0s; cut on transients.");
         ("DRAW (Layer or Constraint)", "0.6–0.9s; UI/hands ~0.5s.");
         ("COMMIT / PAYOFF", "1.2–1.6s groove lock.");
         ("LOOP / CTA", "≤0.7s.") ]);
       ("22s",
       [ ("HOOK (Instant Identity)", "0.9–1.1s.");
         ("DRAW (What You'll Build)", "0.7–1.0s; context fast.");
         ("COMMIT / PAYOFF #1", "1.4–1.9s.");
         ("SECOND HOOK", "0.8–1.1s.");
         ("DEVELOP", "1.0–1.4s; short fills ≤0.5s.");
         ("LOOP / CTA", "0.6–0.9s.") ]);
       ("30s",
       [ ("HOOK (Immediate Sauce)", "1.0–1.2s.");
         ("DRAW (Set the Game)", "0.9–1.2s.");
         ("COMMIT / PAYOFF #1", "1.5–2.0s.");
         ("SECOND HOOK", "0.9–1.2s.");
         ("DEVELOP A", "1.1–1.5s.");
         ("DEVELOP B", "1.1–1.5s.");
         ("FINAL PAYOFF / LOOP", "0.9–1.2s.") ]) ]) ].

(** ** Master templates (transcribed from [MARKERS_22], [MARKERS_30], [LANE_MARKERS]) *)

Definition MARKERS_22 : list Marker :=
  [ _mm (Sec.dec 0 1) "Red" "HOOK" (Sec.dec 3 1) "Range 0–3s. Punchy premise stated plainly; no hedging.";
    _mm (Sec.dec 3 1) "Orange" "DRAW" (Sec.dec 5 1) "Range 4–6s. Add context or an unexpected contrast that still supports the hook.";
    _mm (Sec.dec 6 1) "Magenta" "INTERRUPT #1" (Sec.dec 0 1) "Early micro jolt (≤0.7s). Keeps the mid-section from flattening.";
    _mm (Sec.dec 8 1) "Green" "COMMIT / PAYOFF #1" (Sec.dec 4 1) "Range 3–5s. First clean delivery moment—proof, reveal, or tight before/after.";
    _mm (Sec.dec 12 1) "Blue" "SECOND HOOK" (Sec.dec 3 1) "Range 2–4s. Re-hook with a sharper angle or upside; avoid redundancy.";
    _mm (Sec.dec 135 10) "Magenta" "INTERRUPT #2" (Sec.dec 0 1) "Quick flip after second hook to prevent plateau.";
    _mm (Sec.dec 15 1) "Purple" "DEVELOP" (Sec.dec 7 1) "Range 6–8s. Stack 1–2 supporting beats; no rabbit holes.";
    _mm (Sec.dec 185 10) "Magenta" "INTERRUPT #3" (Sec.dec 0 1) "Penultimate jolt to prime the close.";
    _mm (Sec.dec 213 10) "Yellow" "LOOP / CTA" (Sec.dec 7 10) "Range 0.5–1.2s. Clean loop or minimal ask with on-screen affordance." ].

Definition MARKERS_30 : list Marker :=
  [ _mm (Sec.dec 0 1) "Red" "HOOK" (Sec.dec 3 1) "Range 0–3s. Plain-speak promise; strong visual identity.";
    _mm (Sec.dec 3 1) "Orange" "DRAW" (Sec.dec 5 1) "Range 4–6s. Elevate intrigue via contrast/constraint/benefit.";
    _mm (Sec.dec 6 1) "Magenta" "INTERRUPT #1" (Sec.dec 0 1) "Micro reset to avoid 6–10s slump.";
    _mm (Sec.dec 8 1) "Green" "COMMIT / PAYOFF #1" (Sec.dec 4 1) "Range 3–5s. Hard clarity moment #1.";
    _mm (Sec.dec 12 1) "Blue" "SECOND HOOK" (Sec.dec 3 1) "Range 2–4s. Alternate entry point for scrollers; new phrasing.";
    _mm (Sec.dec 135 10) "Magenta" "INTERRUPT #2" (Sec.dec 0 1) "Quick subversion; keep rhythm varied.";
    _mm (Sec.dec 15 1) "Purple" "DEVELOP A" (Sec.dec 7 1) "Range 6–8s. Expand with one concise supporting angle.";
    _mm (Sec.dec 20 1) "Magenta" "INTERRUPT #3" (Sec.dec 0 1) "Reset cadence before last stretch.";
    _mm (Sec.dec 22 1) "Purple" "DEVELOP B" (Sec.dec 6 1) "Range 5–7s. Second support; avoid duplication.";
    _mm (Sec.dec 26 1) "Magenta" "INTERRUPT #4" (Sec.dec 0 1) "Final micro jolt before close.";
    _mm (Sec.dec 28 1) "Yellow" "FINAL PAYOFF / LOOP" (Sec.dec 2 1) "Range 1.5–3.0s. Clean visual loop or crisp CTA." ].

Definition LANE_MARKERS_items : list (string * list (string * list Marker)) :=
  [ ("money",
     [ ("12s",
        MARKERS_12);
       ("22s",
        MARKERS_22);
       ("30s",
        MARKERS_30) ]);
    ("mv",
     [ ("12s",
        [ _mm (Sec.dec 0 1) "Red" "HOOK (Signature Visual)" (Sec.dec 3 1) "Range 0–3s. Iconic pose/move or bold text: instantly tells what vibe this is.";
          _mm (Sec.dec 3 1) "Orange" "DRAW (Aesthetic Lift)" (Sec.dec 5 1) "Range 4–6s. Add a quick look change, location shift, or camera energy.";
          _mm (Sec.dec 45 10) "Magenta" "INTERRUPT #1" (Sec.dec 0 1) "≤0.7s. Micro cut/whip/push to reset attention.";
          _mm (Sec.dec 8 1) "Green" "COMMIT / PAYOFF" (Sec.dec 4 1) "Range 3–5s. Tight performance moment or strong transition that feels 'earned'.";
          _mm (Sec.dec 9 1) "Magenta" "INTERRUPT #2" (Sec.dec 0 1) "Second micro flip to avoid slide to credits.";
          _mm (Sec.dec 116 10) "Yellow" "LOOP / CTA" (Sec.dec 4 10) "Range 0.3–1.0s. End on a repeatable motion or subtle action prompt." ]);
       ("22s",
        MARKERS_22);
       ("30s",
        MARKERS_30) ]);
    ("fashion",
     [ ("12s",
        [ _mm (Sec.dec 0 1) "Red" "HOOK (Hero Fit Moment)" (Sec.dec 3 1) "Range 0–3s. One striking silhouette or texture close-up that defines the look.";
          _mm (Sec.dec 3 1) "Orange" "DRAW (Detail Contrast)" (Sec.dec 5 1) "Range 4–6s. Switch to fabric, accessories, or motion to add dimension.";
          _mm (Sec.dec 6 1) "Magenta" "INTERRUPT #1" (Sec.dec 0 1) "≤0.7s. Quick angle/tempo flip.";
          _mm (Sec.dec 8 1) "Green" "COMMIT / PAYOFF" (Sec.dec 4 1) "Range 3–5s. Full-body reveal or clean style transition.";
          _mm (Sec.dec 116 10) "Yellow" "LOOP / CTA" (Sec.dec 4 10) "Range 0.3–1.0s. Loopable step/turn or minimal ask." ]);
       ("22s",
        [ _mm (Sec.dec 0 1) "Red" "HOOK (Look Identity)" (Sec.dec 3 1) "Range 0–3s. State the vibe: street/clean/retro/etc. via a hero frame.";
          _mm (Sec.dec 3 1) "Orange" "DRAW (Texture/Movement)" (Sec.dec 5 1) "Range 4–6s. Fabric motion or accessory interaction.";
          _mm (Sec.dec 6 1) "Magenta" "INTERRUPT #1" (Sec.dec 0 1) "≤0.7s. Angle/location micro switch.";
          _mm (Sec.dec 8 1) "Green" "COMMIT / PAYOFF #1" (Sec.dec 4 1) "Range 3–5s. Full outfit clarity.";
          _mm (Sec.dec 12 1) "Blue" "SECOND HOOK (Alt Styling)" (Sec.dec 3 1) "Range 2–4s. Secondary combo or layer change.";
          _mm (Sec.dec 15 1) "Purple" "DEVELOP" (Sec.dec 7 1) "Range 6–8s. 1–2 beats: close-ups, pocket pulls, hem, shoe detail.";
          _mm (Sec.dec 213 10) "Yellow" "LOOP / CTA" (Sec.dec 7 10) "Range 0.5–1.2s. Loopable walk-by or glance." ]);
       ("30s",
        [ _mm (Sec.dec 0 1) "Red" "HOOK (Statement Frame)" (Sec.dec 3 1) "Range 0–3s. Pose, lensing, or lighting that telegraphs tone.";
          _mm (Sec.dec 3 1) "Orange" "DRAW (Cutaway Detail)" (Sec.dec 5 1) "Range 4–6s. Textures, stitching, hardware.";
          _mm (Sec.dec 6 1) "Magenta" "INTERRUPT #1" (Sec.dec 0 1) "Micro jolt.";
          _mm (Sec.dec 8 1) "Green" "COMMIT / PAYOFF #1" (Sec.dec 4 1) "Range 3–5s. Head-to-toe moment.";
          _mm (Sec.dec 12 1) "Blue" "SECOND HOOK" (Sec.dec 3 1) "Range 2–4s. Alternate palette/prop.";
          _mm (Sec.dec 15 1) "Purple" "DEVELOP A" (Sec.dec 7 1) "Range 6–8s. Movement sequence: walk, turn, sit.";
          _mm (Sec.dec 22 1) "Purple" "DEVELOP B" (Sec.dec 6 1) "Range 5–7s. Environment integration.";
          _mm (Sec.dec 28 1) "Yellow" "FINAL PAYOFF / LOOP" (Sec.dec 2 1) "Range 1.5–3.0s. Seamless loop or subtle CTA." ]) ]);
    ("talking",
     [ ("12s",
        [ _mm (Sec.dec 0 1) "Red" "HOOK (Plain-Speak Claim)" (Sec.dec 3 1) "Range 0–3s. One-sentence promise with a direct face angle.";
          _mm (Sec.dec 3 1) "Orange" "DRAW (Setup in One Line)" (Sec.dec 5 1) "Range 4–6s. Short context that *increases* curiosity.";
          _mm (Sec.dec 6 1) "Magenta" "INTERRUPT #1" (Sec.dec 0 1) "≤0.7s. Insert quick B-roll or on-screen receipt.";
          _mm (Sec.dec 8 1) "Green" "COMMIT / PAYOFF" (Sec.dec 4 1) "Range 3–5s. The clear takeaway or micro demo.";
          _mm (Sec.dec 116 10) "Yellow" "LOOP / CTA" (Sec.dec 4 10) "Range 0.3–1.0s. Frictionless close." ]);
       ("22s",
        [ _mm (Sec.dec 0 1) "Red" "HOOK (Outcome First)" (Sec.dec 3 1) "Range 0–3s. Lead with result/benefit plainly.";
          _mm (Sec.dec 3 1) "Orange" "DRAW (Short Context)" (Sec.dec 5 1) "Range 4–6s. Add one surprise fact or contrast.";
          _mm (Sec.dec 6 1) "Magenta" "INTERRUPT #1" (Sec.dec 0 1) "≤0.7s. Pattern break: quick insert or angle swap.";
          _mm (Sec.dec 8 1) "Green" "COMMIT / PAYOFF #1" (Sec.dec 4 1) "Range 3–5s. First clear point.";
          _mm (Sec.dec 12 1) "Blue" "SECOND HOOK" (Sec.dec 3 1) "Range 2–4s. Re-articulate upside in fresher words.";
          _mm (Sec.dec 15 1) "Purple" "DEVELOP" (Sec.dec 7 1) "Range 6–8s. One supporting example; avoid tangents.";
          _mm (Sec.dec 213 10) "Yellow" "LOOP / CTA" (Sec.dec 7 10) "Range 0.5–1.2s. End crisp." ]);
       ("30s",
        [ _mm (Sec.dec 0 1) "Red" "HOOK (Punchy Thesis)" (Sec.dec 3 1) "Range 0–3s. No hedging.";
          _mm (Sec.dec 3 1) "Orange" "DRAW (Angle Boost)" (Sec.dec 5 1) "Range 4–6s. Sharpen tension without jargon.";
          _mm (Sec.dec 6 1) "Magenta" "INTERRUPT #1" (Sec.dec 0 1) "Micro reset.";
          _mm (Sec.dec 8 1) "Green" "COMMIT / PAYOFF #1" (Sec.dec 4 1) "Range 3–5s. Clear, specific point.";
          _mm (Sec.dec 12 1) "Blue" "SECOND HOOK" (Sec.dec 3 1) "Range 2–4s. New phrasing for late arrivals.";
          _mm (Sec.dec 15 1) "Purple" "DEVELOP A" (Sec.dec 7 1) "Range 6–8s. Example or tiny case.";
          _mm (Sec.dec 22 1) "Purple" "DEVELOP B" (Sec.dec 6 1) "Range 5–7s. Short application/implication.";
          _mm (Sec.dec 28 1) "Yellow" "FINAL PAYOFF / LOOP" (Sec.dec 2 1) "Range 1.5–3.0s. Tight loop or ask." ]) ]);
    ("dil",
     [ ("12s",
        [ _mm (Sec.dec 0 1) "Red" "HOOK (Moment in Progress)" (Sec.dec 3 1) "Range 0–3s. Drop viewer into motion; avoid slow preamble.";
          _mm (Sec.dec 3 1) "Orange" "DRAW (What's Next?)" (Sec.dec 5 1) "Range 4–6s. Tease destination/task contrast.";
          _mm (Sec.dec 6 1) "Magenta" "INTERRUPT #1" (Sec.dec 0 1) "≤0.7s. Tempo flip.";
          _mm (Sec.dec 8 1) "Green" "COMMIT / PAYOFF" (Sec.dec 4 1) "Range 3–5s. Satisfying micro-resolution (arrive/complete/transition).";
          _mm (Sec.dec 116 10) "Yellow" "LOOP / CTA" (Sec.dec 4 10) "Range 0.3–1.0s. Loopable motion or minimal ask." ]);
       ("22s",
        [ _mm (Sec.dec 0 1) "Red" "HOOK (Drop-In)" (Sec.dec 3 1) "Range 0–3s. Start mid-action.";
          _mm (Sec.dec 3 1) "Orange" "DRAW (Mini Arc)" (Sec.dec 5 1) "Range 4–6s. Set tiny objective/change.";
          _mm (Sec.dec 6 1) "Magenta" "INTERRUPT #1" (Sec.dec 0 1) "≤0.7s. Micro reset.";
          _mm (Sec.dec 8 1) "Green" "COMMIT / PAYOFF #1" (Sec.dec 4 1) "Range 3–5s. Hit a checkpoint.";
          _mm (Sec.dec 12 1) "Blue" "SECOND HOOK" (Sec.dec 3 1) "Range 2–4s. New micro-goal.";
          _mm (Sec.dec 15 1) "Purple" "DEVELOP" (Sec.dec 7 1) "Range 6–8s. Texture beats (ambient, details).";
          _mm (Sec.dec 213 10) "Yellow" "LOOP / CTA" (Sec.dec 7 10) "Range 0.5–1.2s. End in motion for loop." ]);
       ("30s",
        [ _mm (Sec.dec 0 1) "Red" "HOOK (Live Snapshot)" (Sec.dec 3 1) "Range 0–3s. Immediate immersion.";
          _mm (Sec.dec 3 1) "Orange" "DRAW (Tension/Contrast)" (Sec.dec 5 1) "Range 4–6s. Set a tiny tension to resolve.";
          _mm (Sec.dec 6 1) "Magenta" "INTERRUPT #1" (Sec.dec 0 1) "Quick changeup.";
          _mm (Sec.dec 8 1) "Green" "COMMIT / PAYOFF #1" (Sec.dec 4 1) "Range 3–5s. Satisfy the first micro-goal.";
          _mm (Sec.dec 12 1) "Blue" "SECOND HOOK" (Sec.dec 3 1) "Range 2–4s. Lure late scrollers.";
          _mm (Sec.dec 15 1) "Purple" "DEVELOP A" (Sec.dec 7 1) "Range 6–8s. Environment & texture.";
          _mm (Sec.dec 22 1) "Purple" "DEVELOP B" (Sec.dec 6 1) "Range 5–7s. Human beat or detail set.";
          _mm (Sec.dec 28 1) "Yellow" "FINAL PAYOFF / LOOP" (Sec.dec 2 1) "Range 1.5–3.0s. Loopable exit/enter." ]) ]);
    ("cook",
     [ ("12s",
        [ _mm (Sec.dec 0 1) "Red" "HOOK (Signature Sound/Move)" (Sec.dec 3 1) "Range 0–3s. Instantly show the identity: pad hit, finger drum, or motif.";
          _mm (Sec.dec 3 1) "Orange" "DRAW (Layer or Constraint)" (Sec.dec 5 1) "Range 4–6s. Tease a layer you'll add or a flip you'll attempt.";
          _mm (Sec.dec 6 1) "Magenta" "INTERRUPT #1" (Sec.dec 0 1) "≤0.7s. Micro switch to screen/overhead.";
          _mm (Sec.dec 8 1) "Green" "COMMIT / PAYOFF" (Sec.dec 4 1) "Range 3–5s. Small but satisfying musical 'click' (layer locks, groove snaps).";
          _mm (Sec.dec 116 10) "Yellow" "LOOP / CTA" (Sec.dec 4 10) "Range 0.3–1.0s. Seamless loop or tiny ask." ]);
       ("22s",
        [ _mm (Sec.dec 0 1) "Red" "HOOK (Instant Identity)" (Sec.dec 3 1) "Range 0–3s. The 'ohhh' sound/move first.";
          _mm (Sec.dec 3 1) "Orange" "DRAW (What You'll Build)" (Sec.dec 5 1) "Range 4–6s. Promise the flip: key/tempo/session context (fast).";
          _mm (Sec.dec 6 1) "Magenta" "INTERRUPT #1" (Sec.dec 0 1) "≤0.7s. Angle/UI micro cut.";
          _mm (Sec.dec 8 1) "Green" "COMMIT / PAYOFF #1" (Sec.dec 4 1) "Range 3–5s. First groove lock.";
          _mm (Sec.dec 12 1) "Blue" "SECOND HOOK" (Sec.dec 3 1) "Range 2–4s. Catchier motif/turn.";
          _mm (Sec.dec 15 1) "Purple" "DEVELOP" (Sec.dec 7 1) "Range 6–8s. Add/remove tension: short fills, mute plays, knob rides.";
          _mm (Sec.dec 213 10) "Yellow" "LOOP / CTA" (Sec.dec 7 10) "Range 0.5–1.2s. Clean loop." ]);
       ("30s",
        [ _mm (Sec.dec 0 1) "Red" "HOOK (Immediate Sauce)" (Sec.dec 3 1) "Range 0–3s. Start at the most *you* sound.";
          _mm (Sec.dec 3 1) "Orange" "DRAW (Set the Game)" (Sec.dec 5 1) "Range 4–6s. 'Here's the flip' in one line.";
          _mm (Sec.dec 6 1) "Magenta" "INTERRUPT #1" (Sec.dec 0 1) "Micro cut/angle.";
          _mm (Sec.dec 8 1) "Green" "COMMIT / PAYOFF #1" (Sec.dec 4 1) "Range 3–5s. First lock moment.";
          _mm (Sec.dec 12 1) "Blue" "SECOND HOOK" (Sec.dec 3 1) "Range 2–4s. Stronger motif.";
          _mm (Sec.dec 15 1) "Purple" "DEVELOP A" (Sec.dec 7 1) "Range 6–8s. Arrange mini-arc.";
          _mm (Sec.dec 22 1) "Purple" "DEVELOP B" (Sec.dec 6 1) "Range 5–7s. Short performance burst.";
          _mm (Sec.dec 28 1) "Yellow" "FINAL PAYOFF / LOOP" (Sec.dec 2 1) "Range 1.5–3.0s. Loop land." ]) ]) ].

(** ** Pacing enrichment *)

(** [str.isspace] on a one-byte character. *)
Definition is_space_byte (c : ascii) : bool :=
  let n := nat_of_ascii c in
  ((9 <=? n)%nat && (n <=? 13)%nat) || ((28 <=? n)%nat && (n <=? 32)%nat).

(** Drops the white space at the head of the reversed UTF-8 bytes: the
    one-byte characters above, U+0085 and U+00A0 (C2 85, C2 A0), U+1680
    (E1 9A 80), U+2000..U+200A, U+2028, U+2029, U+202F (E2 80 80..8A, A8, A9,
    AF), U+205F (E2 81 9F) and U+3000 (E3 80 80): the characters for which
    [str.isspace] holds. *)
Fixpoint strip_rev (l : list ascii) : list ascii :=
  match l with
  | [] => []
  | c :: rest =>
      if is_space_byte c then strip_rev rest
      else
        match rest with
        | b :: rest2 =>
            let n := nat_of_ascii c in
            let m := nat_of_ascii b in
            if (m =? 194)%nat && ((n =? 133)%nat || (n =? 160)%nat)
            then strip_rev rest2
            else
              match rest2 with
              | a :: rest3 =>
                  let k := nat_of_ascii a in
                  if ((k =? 225)%nat && (m =? 154)%nat && (n =? 128)%nat)
                     || ((k =? 226)%nat && (m =? 128)%nat
                         && (((128 <=? n)%nat && (n <=? 138)%nat)
                             || (n =? 168)%nat || (n =? 169)%nat
                             || (n =? 175)%nat))
                     || ((k =? 226)%nat && (m =? 129)%nat && (n =? 159)%nat)
                     || ((k =? 227)%nat && (m =? 128)%nat && (n =? 128)%nat)
                  then strip_rev rest3
                  else l
              | [] => l
              end
        | [] => l
        end
  end.

(** [s.rstrip()] *)
Definition rstrip (s : string) : string :=
  string_of_list_ascii (rev (strip_rev (rev (list_ascii_of_string s)))).

(** [PACING_S.get(lane, {}).get(tier, {})] *)
Definition pacing_rules (lane tier : string) : list (string * string) :=
  match dict_get PACING_S_items lane with
  | Some tiers =>
      match dict_get tiers tier with
      | Some rules => rules
      | None => []
      end
  | None => []
  end.

(** [rules.get(name, "")] *)
Definition pacing_tip (rules : list (string * string)) (name : string)
  : string :=
  match dict_get rules name with
  | Some tip => tip
  | None => ""
  end.

Definition set_notes (m : Marker) (n : string) : Marker :=
  _mm (t m) (color m) (name m) (dur m) n.

(** The body of the loop: the copy [m2] of [m], with the tip appended to its
    notes when the marker's name has one. *)
Definition enrich_one (rules : list (string * string)) (m : Marker) : Marker :=
  let tip := pacing_tip rules (name m) in
  match tip with
  | EmptyString => m
  | String _ _ =>
      let base := rstrip (notes m) in
      match base with
      | String _ _ => set_notes m (base ++ nl ++ "— Cuts: " ++ tip)%string
      | EmptyString => set_notes m ("Cuts: " ++ tip)%string
      end
  end.

(** A [str] or [None] argument, as [not x] sees it. *)
Definition falsy_text (x : option string) : bool :=
  match x with
  | Some (String _ _) => false
  | _ => true
  end.

Definition text_or_empty (x : option string) : string :=
  match x with
  | Some s => s
  | None => ""
  end.

Definition _enrich_marker_notes (markers : list Marker)
    (lane tier : option string) : list Marker :=
  match markers with
  | [] => markers
  | _ =>
      if falsy_text lane || falsy_text tier then markers
      else
        let rules := pacing_rules (text_or_empty lane) (text_or_empty tier) in
        map (enrich_one rules) markers
  end.

(** ** Lane and tier of a title *)

(** ["12s" if "12s" in t else "22s" if "22s" in t else "30s"] *)
Definition tier_in_title (t : string) : string :=
  if contains t "12s" then "12s"
  else if contains t "22s" then "22s"
  else "30s".

Definition _lane_tier_from_title (title : option string)
  : option string * option string :=
  let t := lower (text_or_empty title) in
  if contains t "money master" then (Some "money", Some (tier_in_title t))
  else if contains t "mv master" then (Some "mv", Some (tier_in_title t))
  else if contains t "fashion master"
  then (Some "fashion", Some (tier_in_title t))
  else if contains t "th master" then (Some "talking", Some (tier_in_title t))
  else if contains t "dil master" then (Some "dil", Some (tier_in_title t))
  else if contains t "cook-up master"
  then (Some "cook", Some (tier_in_title t))
  else
    let nt := replace t "—" "-" in
    if startswith nt "segment -" then (Some "mv", Some "30s")
    else if startswith nt "interview -" then (Some "talking", Some "30s")
    else if startswith nt "look -" then (Some "fashion", Some "30s")
    else if startswith nt "chapter -" then (Some "dil", Some "30s")
    else if startswith nt "section -" then (Some "cook", Some "30s")
    else (None, None).

Definition _infer_lane_from_pillar_or_title (pillar_name title : option string)
  : string :=
  let p := lower (text_or_empty pillar_name) in
  let t := lower (text_or_empty title) in
  if contains p "music-video" || startswith t "segment —"
     || startswith t "mv master" then "mv"
  else if contains p "fashion" || startswith t "look —"
          || startswith t "fashion master" then "fashion"
  else if contains p "talking head" || startswith t "interview —"
          || startswith t "th master" then "talking"
  else if contains p "day in the life" || startswith t "chapter —"
          || startswith t "dil master" then "dil"
  else if contains p "cook-ups" || startswith t "section —"
          || startswith t "cook-up master" then "cook"
  else if contains p "money" || contains t "money master" then "money"
  else "money".

(** The lane and tier the driver enriches a principle pack with: those of
    the title, else the lane inferred from the pillar name and the tier
    ["selects"] for a Selects or Stringouts title, ["30s"] otherwise. *)
Definition driver_lane_tier (pillar_name title : string) : string * string :=
  let lt := _lane_tier_from_title (Some title) in
  let lane :=
    if falsy_text (fst lt)
    then _infer_lane_from_pillar_or_title (Some pillar_name) (Some title)
    else text_or_empty (fst lt) in
  let tier :=
    if falsy_text (snd lt)
    then if contains (lower title) "selects"
            || contains (lower title) "stringouts"
         then "selects" else "30s"
    else text_or_empty (snd lt) in
  (lane, tier).

(** ** Transcripts of a run *)

(** The replies of the timeline to a sequence of calls, in order. *)
Fixpoint replies {HState} (respond : HState -> call -> reply * HState)
    (h : HState) (cs : list call) : list reply :=
  match cs with
  | [] => []
  | c :: cs' => fst (respond h c) :: replies respond (snd (respond h c)) cs'
  end.

(** [if ok:] on the result of a call: it returned, and what it returned is
    true. *)
Definition accepted (r : reply) : bool :=
  match r with
  | Returns v => truthy v
  | Raises _ => false
  end.

Definition raised (r : reply) : bool :=
  match r with
  | Returns _ => false
  | Raises _ => true
  end.

Definition is_six_arg (c : call) : bool :=
  match c with
  | AddMarker6 _ _ _ _ _ _ => true
  | _ => false
  end.

(** The frame argument of a marker-add call. *)
Definition marker_add_frame (c : call) : option Z :=
  match c with
  | AddMarker6 f _ _ _ _ _ | AddMarker5 f _ _ _ _ => Some f
  | _ => None
  end.

(** The frames of the marker-add calls among [cs], in order. *)
Fixpoint marker_frames (cs : list call) : list Z :=
  match cs with
  | [] => []
  | c :: cs' =>
      match marker_add_frame c with
      | Some f => f :: marker_frames cs'
      | None => marker_frames cs'
      end
  end.

(** Each number is at most the one before it. *)
Fixpoint non_increasing (l : list Z) : Prop :=
  match l with
  | x :: ((y :: _) as l') => (y <= x)%Z /\ non_increasing l'
  | _ => True
  end.

(** How many of the calls [cs], issued from state [h], the timeline
    accepts. *)
Definition accepted_count {HState}
    (respond : HState -> call -> reply * HState) (h : HState)
    (cs : list call) : nat :=
  length (filter accepted (replies respond h cs)).

Definition returned_count {HState}
    (respond : HState -> call -> reply * HState) (h : HState)
    (cs : list call) : nat :=
  length (filter (fun r => negb (raised r)) (replies respond h cs)).

Definition raised_count {HState}
    (respond : HState -> call -> reply * HState) (h : HState)
    (cs : list call) : nat :=
  length (filter raised (replies respond h cs)).

(** Two markers that differ at most in their durations. *)
Definition same_but_dur (a b : Marker) : Prop :=
  t b = t a /\ color b = color a /\ name b = name a /\ notes b = notes a.

(** Two markers that differ at most in their notes. *)
Definition same_but_notes (a b : Marker) : Prop :=
  t b = t a /\ color b = color a /\ name b = name a /\ dur b = dur a.

(** How many marker-add calls among [cs], issued from state [h], the
    timeline accepts. *)
Fixpoint accepted_adds {HState} (respond : HState -> call -> reply * HState)
    (h : HState) (cs : list call) : nat :=
  match cs with
  | [] => 0
  | c :: cs' =>
      (if is_marker_add c && accepted (fst (respond h c)) then 1 else 0)
      + accepted_adds respond (snd (respond h c)) cs'
  end.

(** A series of attempts that ends with the first one accepted, or with the
    last one when none is: [result] tells which. *)
Definition stops_at_first_accept (rs : list reply) (result : bool) : Prop :=
  result = accepted (last rs (Raises "none"))
  /\ Forall (fun r => accepted r = false) (removelast rs).

(** The counters of a run that track setup has no business with. *)
Definition other_counters (s : BuildStats) : Z * Z * Z * Z * Z :=
  (folders_created s, folders_found s, timelines_created s,
   timelines_failed s, timelines_skipped s).

(** The calls of the seeding path, and the calls of track setup. *)
Definition is_seeding_call (c : call) : bool :=
  match c with
  | GetMarkers | GetName => true
  | _ => is_marker_add c
  end.

Definition is_track_call (c : call) : bool :=
  match c with
  | GetTrackCount _ | AddTrack _ | SetTrackName _ _ _ => true
  | _ => false
  end.

(** ** Frames of a pack *)

Definition pack_frames (fps_float : Qc) (pack : list Marker) : list Z :=
  map (fun m => _sec_to_frames (t m) fps_float) pack.

(** The number of frames the markers of a pack land on. *)
Definition distinct_frames (fps_float : Qc) (pack : list Marker) : nat :=
  length (nodup Z.eq_dec (pack_frames fps_float pack)).

(** The frames of [frames] that hold no marker in state [h]. *)
Definition free_frames {HState} (marked : HState -> Z -> bool) (h : HState)
    (frames : list Z) : list Z :=
  filter (fun f => negb (marked h f)) frames.

(** ** Project settings

    [set_project_defaults] and [restore_project_defaults] talk to the
    project object through two methods. *)

Inductive pcall : Type :=
| GetSetting (key : string)
| SetSetting (key : string) (value : pyval).

(** The [keys] list of [set_project_defaults]. *)
Definition setting_keys : list string :=
  [ "timelineResolutionWidth";
    "timelineResolutionHeight";
    "timelinePlaybackFrameRate";
    "timelineFrameRate";
    "timelineDropFrameTimecode";
    "timelineInterlaceProcessing" ].

(** The six assignments of the [try] block, in order; [w], [h] and [fps]
    are the texts [str(w)], [str(h)] and [str(fps)]. *)
Definition default_settings (w h fps : string) : list (string * pyval) :=
  [ ("timelineResolutionWidth", VStr w);
    ("timelineResolutionHeight", VStr h);
    ("timelinePlaybackFrameRate", VStr fps);
    ("timelineFrameRate", VStr fps);
    ("timelineDropFrameTimecode", VStr "0");
    ("timelineInterlaceProcessing", VStr "0") ].

Definition is_none (v : pyval) : bool :=
  match v with
  | VNone => true
  | _ => false
  end.

Section Project.

(** States of the project object, and how it answers a call. *)
Variable PState : Type.
Variable presp : PState -> pcall -> reply * PState.

(** The project and the calls issued to it so far (oldest first). *)
Record PWorld : Type := mkPWorld {
  project : PState;
  pcalls : list pcall
}.

Definition PM (A : Type) : Type := PWorld -> A * PWorld.

Definition pret {A} (a : A) : PM A := fun w => (a, w).

Definition pbind {A B} (m : PM A) (k : A -> PM B) : PM B :=
  fun w => let (a, w') := m w in k a w'.

Definition project_call (c : pcall) : PM reply :=
  fun w =>
    let (r, p') := presp (project w) c in
    (r, mkPWorld p' (pcalls w ++ [c])).

(** [for k in keys: try: prev[k] = project.GetSetting(k)
                    except Exception: prev[k] = None].
    The keys are distinct, so the dict is the list of its items in
    insertion order. *)
Fixpoint save_settings (keys : list string) : PM (list (string * pyval)) :=
  match keys with
  | [] => pret []
  | k :: keys' =>
      pbind (project_call (GetSetting k)) (fun r =>
      pbind (save_settings keys') (fun rest =>
      pret ((k, match r with
                | Returns v => v
                | Raises _ => VNone
                end) :: rest)))
  end.

(** The body of the [try] block: the first call that raises ends it. *)
Fixpoint set_until_raise (kvs : list (string * pyval)) : PM unit :=
  match kvs with
  | [] => pret tt
  | (k, v) :: kvs' =>
      pbind (project_call (SetSetting k v)) (fun r =>
      match r with
      | Raises _ => pret tt
      | Returns _ => set_until_raise kvs'
      end)
  end.

Definition set_project_defaults (w h fps : string)
  : PM (list (string * pyval)) :=
  pbind (save_settings setting_keys) (fun prev =>
  pbind (set_until_raise (default_settings w h fps)) (fun _ =>
  pret prev)).

(** [for k, v in prev.items(): if v is None: continue; ...], each call
    guarded by [try/except: pass]. *)
Fixpoint restore_project_defaults (prev : list (string * pyval)) : PM unit :=
  match prev with
  | [] => pret tt
  | (k, v) :: prev' =>
      if is_none v then restore_project_defaults prev'
      else
        pbind (project_call (SetSetting k v)) (fun _ =>
        restore_project_defaults prev')
  end.

(** The bracket [create_vertical_timeline] puts around the creation of a
    timeline: save and set, then restore what was saved. *)
Definition set_then_restore (w h fps : string) : PM unit :=
  pbind (set_project_defaults w h fps) restore_project_defaults.

End Project.

Arguments mkPWorld {PState} project pcalls.

(** The project after a sequence of calls. *)
Definition project_after {PState}
    (presp : PState -> pcall -> reply * PState) (p : PState)
    (cs : list pcall) : PState :=
  fold_left (fun p c => snd (presp p c)) cs p.

(** The replies of the project to a sequence of calls, in order. *)
Fixpoint preplies {PState} (presp : PState -> pcall -> reply * PState)
    (p : PState) (cs : list pcall) : list reply :=
  match cs with
  | [] => []
  | c :: cs' => fst (presp p c) :: preplies presp (snd (presp p c)) cs'
  end.

(** [m], run from [w], issues exactly the calls [cs] to the project. *)
Definition pdrives {PState A} (presp : PState -> pcall -> reply * PState)
    (m : PM PState A) (w : PWorld PState) (cs : list pcall) : Prop :=
  pcalls (snd (m w)) = pcalls w ++ cs
  /\ project (snd (m w)) = project_after presp (project w) cs.

Definition set_call (kv : string * pyval) : pcall :=
  SetSetting (fst kv) (snd kv).

(** What is saved for a key: the value read, [None] if the read raised. *)
Definition saved_value (r : reply) : pyval :=
  match r with
  | Returns v => v
  | Raises _ => VNone
  end.

(** The entries of [prev] that [restore_project_defaults] writes back. *)
Definition restorable (prev : list (string * pyval))
  : list (string * pyval) :=
  filter (fun kv => negb (is_none (snd kv))) prev.

(** ** An in-memory project: a key-value store of settings *)

Definition MemProject : Type := list (string * pyval).

Definition mem_setting (p : MemProject) (k : string) : pyval :=
  match dict_get p k with
  | Some v => v
  | None => VNone
  end.

Definition mem_presp (p : MemProject) (c : pcall) : reply * MemProject :=
  match c with
  | GetSetting k => (Returns (mem_setting p k), p)
  | SetSetting k v => (Returns (VBool true), (k, v) :: p)
  end.

(** A project at 1080p, 24 fps, with no interlace setting. *)
Definition hd_project : MemProject :=
  [ ("timelineResolutionWidth", VStr "1920");
    ("timelineResolutionHeight", VStr "1080");
    ("timelinePlaybackFrameRate", VStr "24");
    ("timelineFrameRate", VStr "24");
    ("timelineDropFrameTimecode", VStr "0");
    ("colorScienceMode", VStr "davinciYRGB") ].

(** ** The finitely many packs and pacing tables *)

(** Every table of [PACING_S], lane by lane and tier by tier. *)
Definition all_pacing_tables : list (list (string * string)) :=
  concat (map (fun lane => map snd (snd lane)) PACING_S_items).

(** [base] and [base + extra] for every [extra] of a variant table. *)
Definition variant_packs (base : list Marker)
    (specific : list (string * list Marker)) : list (list Marker) :=
  base :: map (fun kv => base ++ snd kv) specific.

(** Every pack [get_principle_markers_for_title] can return. *)
Definition principle_pack_range : list (list Marker) :=
  [] :: variant_packs SELECTS_BASE SELECTS_SPECIFIC_items
  ++ variant_packs (PRINCIPLE_PACKS "shotfx") SHOTFX_SPECIFIC_items
  ++ [ PRINCIPLE_PACKS "scenes_segments"; PRINCIPLE_PACKS "talking_head";
       PRINCIPLE_PACKS "fashion"; PRINCIPLE_PACKS "day_in_the_life";
       PRINCIPLE_PACKS "cook_ups" ].

(** No marker of [pack] has an entry in [rules]. *)
Definition no_rule_for (rules : list (string * string)) (pack : list Marker)
  : bool :=
  forallb (fun m => negb (dict_mem rules (name m))) pack.

(** The marker the seeding loop places first. *)
Definition placed_first (markers : list Marker) : option Marker :=
  hd_error (py_sorted by_time_desc markers).

(** The pack is empty, or butt-join at the module's frame rate returns it
    and seeding then starts with the five-minute anchor, on frame 8961. *)
Definition anchor_leads (pack : list Marker) : bool :=
  match pack with
  | [] => true
  | _ =>
      match _butt_join_markers pack FPS with
      | Ok paced =>
          match placed_first paced with
          | Some m =>
              String.eqb (name m) "⏱ 5min anchor"
              && String.eqb (color m) "Blue"
              && (_sec_to_frames (t m) (fps_or_default FPS) =? 8961)%Z
              && (seed_dur m (fps_or_default FPS) =? 1)%Z
          | None => false
          end
      | Raised _ => false
      end
  end.

(** The lanes and tiers that have a pacing table. *)
Definition has_pacing_table (lane tier : string) : bool :=
  match dict_get PACING_S_items lane with
  | Some tiers => dict_mem tiers tier
  | None => false
  end.

(** What [_lane_tier_from_title] may return: nothing, or a lane and a tier
    that have a pacing table. *)
Definition lane_tier_ok (lt : option string * option string) : bool :=
  match lt with
  | (Some lane, Some tier) => has_pacing_table lane tier
  | (None, None) => true
  | _ => false
  end.

(** ** Media-pool folders

    [get_or_create_folder] and its helpers talk to folder objects and to
    the media pool.  Their values are API objects (opaque handles) next to
    plain Python values. *)

#[local] Unset Elimination Schemes.
Inductive oval : Type :=
| ONone
| OBool (b : bool)
| OInt (z : Z)
| OStr (s : string)
| OObj (id : nat)
| OTuple (items : list oval)
| OList (items : list oval)
| ODict (items : list (oval * oval)).
#[local] Set Elimination Schemes.

(** Truth value of [if v:]; an API object is true. *)
Definition o_truthy (v : oval) : bool :=
  match v with
  | ONone => false
  | OBool b => b
  | OInt z => negb (z =? 0)%Z
  | OStr s => negb (String.eqb s "")
  | OObj _ => true
  | OTuple items | OList items => match items with [] => false | _ => true end
  | ODict items => match items with [] => false | _ => true end
  end.

(** Method calls on a folder object, and the two ways to add a subfolder.
    [SubFolders accessor id] is [getattr(folder, accessor, None)] followed,
    if the attribute is there, by its call. *)
Inductive ocall : Type :=
| SubFolders (accessor : string) (folder : nat)
| FolderName (obj : nat)
| FolderParent (obj : nat)
| PoolAddSubFolder (parent : oval) (name : string)
| FolderAddSubFolder (parent : nat) (name : string).

(** A call returns, raises, or finds no such method on the object. *)
Inductive oreply : Type :=
| OReturns (v : oval)
| ORaises (msg : string)
| OMissing.

(** What [get_folder_path] comes to: the joined text, or the [TypeError] of
    [str.join] on names that are not all text. *)
Inductive path_result : Type :=
| PathText (s : string)
| PathTypeError (names : list oval).

Fixpoint all_text (names : list oval) : option (list string) :=
  match names with
  | [] => Some []
  | OStr s :: rest =>
      match all_text rest with
      | Some l => Some (s :: l)
      | None => None
      end
  | _ :: _ => None
  end.

(** [sep.join(items)] *)
Fixpoint join (sep : string) (items : list string) : string :=
  match items with
  | [] => ""
  | [s] => s
  | s :: rest => (s ++ sep ++ join sep rest)%string
  end.

(** [stats.folders_found += 1] and [stats.folders_created += 1] *)
Definition incr_folders_found (s : BuildStats) : BuildStats :=
  mkStats (folders_created s) (folders_found s + 1) (timelines_created s)
          (timelines_failed s) (timelines_skipped s) (tracks_created s)
          (errors s).

Definition incr_folders_created (s : BuildStats) : BuildStats :=
  mkStats (folders_created s + 1) (folders_found s) (timelines_created s)
          (timelines_failed s) (timelines_skipped s) (tracks_created s)
          (errors s).

Section Folders.

(** States of the media pool, and how it answers a call. *)
Variable OState : Type.
Variable orespond : OState -> ocall -> oreply * OState.

(** [str(e)] for the [TypeError] that [str.join] raises on these items. *)
Variable join_error : list oval -> string.

Record FWorld : Type := mkFWorld {
  pool : OState;
  ocalls : list ocall;
  fstats : BuildStats
}.

Definition FM (A : Type) : Type := FWorld -> A * FWorld.

Definition fret {A} (a : A) : FM A := fun w => (a, w).

Definition fbind {A B} (m : FM A) (k : A -> FM B) : FM B :=
  fun w => let (a, w') := m w in k a w'.

Definition pool_call (c : ocall) : FM oreply :=
  fun w =>
    let (r, p') := orespond (pool w) c in
    (r, mkFWorld p' (ocalls w ++ [c]) (fstats w)).

Definition fupdate_stats (f : BuildStats -> BuildStats) : FM unit :=
  fun w => (tt, mkFWorld (pool w) (ocalls w) (f (fstats w))).

(** The loop of [_iter_subfolders] over the accessors still to try.  A
    value that is not an object has no such attribute. *)
Fixpoint iter_accessors (accessors : list string) (folder : oval)
  : FM (list oval) :=
  match accessors with
  | [] => fret []
  | accessor :: rest =>
      match folder with
      | OObj id =>
          fbind (pool_call (SubFolders accessor id)) (fun r =>
          match r with
          | OReturns (ODict items) => fret (map snd items)
          | OReturns (OList items) => fret items
          | _ => iter_accessors rest folder
          end)
      | _ => iter_accessors rest folder
      end
  end.

Definition _iter_subfolders (folder : oval) : FM (list oval) :=
  iter_accessors ["GetSubFolders"; "GetSubFolderList"] folder.

(** The names collected by the loop of [get_folder_path], innermost first,
    with [fuel] rounds left.  A call on a value that is not an object
    raises [AttributeError]. *)
Fixpoint path_names (fuel : nat) (cur : oval) : FM (list oval) :=
  match fuel with
  | O => fret []
  | S fuel' =>
      match cur with
      | OObj id =>
          fbind (pool_call (FolderName id)) (fun r =>
          match r with
          | OReturns nm =>
              fbind (pool_call (FolderParent id)) (fun p =>
              match p with
              | OReturns parent =>
                  if o_truthy parent
                  then fbind (path_names fuel' parent) (fun rest =>
                       fret (nm :: rest))
                  else fret [nm]
              | _ => fret [nm]
              end)
          | _ => fret []
          end)
      | _ => fret []
      end
  end.

Definition get_folder_path (folder : oval) : FM path_result :=
  fbind (path_names 10 folder) (fun names =>
  match all_text (rev names) with
  | Some texts => fret (PathText (join " / " texts))
  | None => fret (PathTypeError (rev names))
  end).

(** [for sub in subs: try: if sub.GetName() == name: ...; return sub
     except Exception: pass].  The log line of a match evaluates
    [get_folder_path(parent)] before the counter is touched. *)
Fixpoint find_subfolder (subs : list oval) (parent : oval) (name : string)
  : FM (option oval) :=
  match subs with
  | [] => fret None
  | sub :: rest =>
      match sub with
      | OObj id =>
          fbind (pool_call (FolderName id)) (fun r =>
          match r with
          | OReturns (OStr s) =>
              if String.eqb s name then
                fbind (get_folder_path parent) (fun p =>
                match p with
                | PathText _ =>
                    fbind (fupdate_stats incr_folders_found) (fun _ =>
                    fret (Some sub))
                | PathTypeError _ => find_subfolder rest parent name
                end)
              else find_subfolder rest parent name
          | _ => find_subfolder rest parent name
          end)
      | _ => find_subfolder rest parent name
      end
  end.

(** [if folder: log.info(..., get_folder_path(parent));
                stats.folders_created += 1]; the result is the message of
    the exception raised, if any. *)
Definition count_created (folder parent : oval) : FM (option string) :=
  if o_truthy folder then
    fbind (get_folder_path parent) (fun p =>
    match p with
    | PathText _ =>
        fbind (fupdate_stats incr_folders_created) (fun _ => fret None)
    | PathTypeError names => fret (Some (join_error names))
    end)
  else fret None.

(** The [except] branch: [parent.AddSubFolder(name)], if the parent has
    such a method.  [folder] is what the variable holds on entry. *)
Definition try_parent_add (parent : oval) (name : string) (folder : oval)
  : FM oval :=
  match parent with
  | OObj id =>
      fbind (pool_call (FolderAddSubFolder id name)) (fun r =>
      match r with
      | OMissing => fret folder
      | ORaises msg =>
          fbind (fupdate_stats
                   (log_error ("Folder creation: " ++ name)%string msg))
                (fun _ => fret folder)
      | OReturns v =>
          fbind (count_created v parent) (fun e =>
          match e with
          | None => fret v
          | Some msg =>
              fbind (fupdate_stats
                       (log_error ("Folder creation: " ++ name)%string msg))
                    (fun _ => fret v)
          end)
      end)
  | _ => fret folder
  end.

Definition get_or_create_folder (parent : oval) (name : string) : FM oval :=
  fbind (_iter_subfolders parent) (fun subs =>
  fbind (find_subfolder subs parent name) (fun found =>
  match found with
  | Some sub => fret sub
  | None =>
      fbind
        (fbind (pool_call (PoolAddSubFolder parent name)) (fun r =>
         match r with
         | OReturns (OTuple []) =>
             (* [folder[0]] raises [IndexError] *)
             try_parent_add parent name (OTuple [])
         | OReturns v =>
             let folder := match v with
                           | OTuple (first :: _) => first
                           | _ => v
                           end in
             fbind (count_created folder parent) (fun e =>
             match e with
             | None => fret folder
             | Some _ => try_parent_add parent name folder
             end)
         | _ => try_parent_add parent name ONone
         end))
        (fun folder =>
         if o_truthy folder then fret folder
         else
           fbind (fupdate_stats
                    (log_error ("Folder creation: " ++ name)%string
                               "All methods failed"))
                 (fun _ => fret folder))
  end)).

End Folders.

Arguments mkFWorld {OState} pool ocalls fstats.

(** A call that may add a folder. *)
Definition is_folder_add (c : ocall) : bool :=
  match c with
  | PoolAddSubFolder _ _ | FolderAddSubFolder _ _ => true
  | _ => false
  end.

(** ** An in-memory media pool: folders with a name and a parent *)

Record MemFolder : Type := mkMemFolder {
  mf_id : nat;
  mf_name : string;
  mf_parent : option nat
}.

Definition MemPool : Type := list MemFolder.

Definition mem_folder (p : MemPool) (id : nat) : option MemFolder :=
  find (fun f => (mf_id f =? id)%nat) p.

Definition mem_children (p : MemPool) (id : nat) : list oval :=
  map (fun f => OObj (mf_id f))
      (filter (fun f => match mf_parent f with
                        | Some q => (q =? id)%nat
                        | None => false
                        end) p).

(** The pool answers [GetSubFolderList] only, names its folders with text,
    and adds a subfolder through the media pool, under an id not yet in
    use. *)
Definition mem_orespond (p : MemPool) (c : ocall) : oreply * MemPool :=
  match c with
  | SubFolders accessor id =>
      if String.eqb accessor "GetSubFolderList"
      then match mem_folder p id with
           | Some _ => (OReturns (OList (mem_children p id)), p)
           | None => (ORaises "stale folder", p)
           end
      else (OMissing, p)
  | FolderName id =>
      match mem_folder p id with
      | Some f => (OReturns (OStr (mf_name f)), p)
      | None => (ORaises "stale folder", p)
      end
  | FolderParent id =>
      match mem_folder p id with
      | Some f =>
          (OReturns (match mf_parent f with
                     | Some q => OObj q
                     | None => ONone
                     end), p)
      | None => (ORaises "stale folder", p)
      end
  | PoolAddSubFolder (OObj id) name =>
      match mem_folder p id with
      | Some _ =>
          let fresh := S (fold_right Nat.max 0%nat (map mf_id p)) in
          (OReturns (OObj fresh), p ++ [mkMemFolder fresh name (Some id)])
      | None => (OReturns ONone, p)
      end
  | PoolAddSubFolder _ _ => (OReturns ONone, p)
  | FolderAddSubFolder _ _ => (OMissing, p)
  end.

Definition mem_join_error (names : list oval) : string :=
  "sequence item: expected str instance".

(** The root bin with the top-level bin of the formula lanes. *)
Definition formula_pool : MemPool :=
  [ mkMemFolder 1 "Master" None;
    mkMemFolder 2 "02 | 🧪 The Formula" (Some 1%nat) ].

Definition is_text (v : oval) : bool :=
  match v with
  | OStr _ => true
  | _ => false
  end.

(** ** Master templates *)

(** [LANE_MARKERS[lane][tier]]; [None] is the [KeyError]. *)
Definition LANE_MARKERS (lane tier : string) : option (list Marker) :=
  match dict_get LANE_MARKERS_items lane with
  | Some tiers => dict_get tiers tier
  | None => None
  end.

Definition all_master_templates : list (list Marker) :=
  concat (map (fun lane => map snd (snd lane)) LANE_MARKERS_items).

(** Every rule of the table has a tip to give and a marker to give it to. *)
Definition rules_reach (rules : list (string * string))
    (pack : list Marker) : bool :=
  forallb (fun rule =>
             negb (String.eqb (snd rule) "")
             && existsb (fun m => String.eqb (name m) (fst rule)) pack)
          rules.

(** Every pacing table belongs to a master template that its rules reach. *)
Definition pacing_matches_templates : bool :=
  forallb (fun lane =>
             forallb (fun tier =>
                        match LANE_MARKERS (fst lane) (fst tier) with
                        | Some pack => rules_reach (snd tier) pack
                        | None => false
                        end)
                     (snd lane))
          PACING_S_items.

(** ** Building a timeline

    [create_vertical_timeline] and [create_vertical_timeline_unique] talk to
    the project, to the media pool and to the timeline they create or find.
    One state stands for the host application; the three kinds of call act
    on it. *)

(** Project and media-pool methods besides the settings. *)
Inductive poolcall : Type :=
| GetTimelines
| GetTimelineCount
| GetTimelineByIndex (i : Z)
| SetCurrentFolder (folder : oval)
| CreateEmptyTimeline (title : string).

(** Such a call returns a value or raises; a missing method is the
    [AttributeError] raised at the call site. *)
Inductive greply : Type :=
| GReturns (v : oval)
| GRaises (msg : string).

(** A call of a run: on the project's settings, on the project or the media
    pool, or a method of the value [tl]. *)
Inductive gcall : Type :=
| OnProject (c : pcall)
| OnPool (c : poolcall)
| OnTimeline (tl : oval) (c : call).

(** [stats.timelines_created += 1] and its two siblings. *)
Definition incr_timelines_created (s : BuildStats) : BuildStats :=
  mkStats (folders_created s) (folders_found s) (timelines_created s + 1)
          (timelines_failed s) (timelines_skipped s) (tracks_created s)
          (errors s).

Definition incr_timelines_failed (s : BuildStats) : BuildStats :=
  mkStats (folders_created s) (folders_found s) (timelines_created s)
          (timelines_failed s + 1) (timelines_skipped s) (tracks_created s)
          (errors s).

Definition incr_timelines_skipped (s : BuildStats) : BuildStats :=
  mkStats (folders_created s) (folders_found s) (timelines_created s)
          (timelines_failed s) (timelines_skipped s + 1) (tracks_created s)
          (errors s).

(** [stats.timelines_failed += 1; stats.log_error(f"Timeline creation:
    {title}", reason)] *)
Definition record_failure (title reason : string) (s : BuildStats)
  : BuildStats :=
  log_error ("Timeline creation: " ++ title)%string reason
            (incr_timelines_failed s).

(** How many timelines a run has accounted for. *)
Definition timelines_counted (s : BuildStats) : Z :=
  (timelines_created s + timelines_failed s + timelines_skipped s)%Z.

Definition is_on_project (c : gcall) : bool :=
  match c with
  | OnProject _ => true
  | _ => false
  end.

Definition is_creation (c : gcall) : bool :=
  match c with
  | OnPool (CreateEmptyTimeline _) => true
  | _ => false
  end.

Section Building.

Variable G : Type.
Variable gproject : G -> pcall -> reply * G.
Variable gpool : G -> poolcall -> greply * G.
Variable gtimeline : oval -> G -> call -> reply * G.
Variable int_of_text : string -> option Z.

Record GWorld : Type := mkGWorld {
  gstate : G;
  gtrace : list gcall;
  gstats : BuildStats
}.

Definition GM (A : Type) : Type := GWorld -> A * GWorld.

Definition gret {A} (a : A) : GM A := fun w => (a, w).

Definition gbind {A B} (m : GM A) (k : A -> GM B) : GM B :=
  fun w => let (a, w') := m w in k a w'.

Definition gupdate_stats (f : BuildStats -> BuildStats) : GM unit :=
  fun w => (tt, mkGWorld (gstate w) (gtrace w) (f (gstats w))).

Definition on_pool (c : poolcall) : GM greply :=
  fun w =>
    let (r, g') := gpool (gstate w) c in
    (r, mkGWorld g' (gtrace w ++ [OnPool c]) (gstats w)).

(** A function of the project's settings, run on the host. *)
Definition on_project {A} (m : PM G A) : GM A :=
  fun w =>
    let (a, pw) := m (mkPWorld (gstate w) []) in
    (a, mkGWorld (project pw) (gtrace w ++ map OnProject (pcalls pw))
                 (gstats w)).

(** A function of one timeline, run on the value [tl] with the statistics
    of the run. *)
Definition on_timeline {A} (tl : oval) (m : M G A) : GM A :=
  fun w =>
    let (a, w') := m (mkWorld (gstate w) [] (gstats w)) in
    (a, mkGWorld (host w') (gtrace w ++ map (OnTimeline tl) (calls w'))
                 (stats w')).

(** [int(v)], [None] when it raises. *)
Definition o_int (v : oval) : option Z :=
  match v with
  | OBool b => Some (if b then 1 else 0)%Z
  | OInt z => Some z
  | OStr s => int_of_text s
  | _ => None
  end.

(** [tl and tl.GetName() == name], inside [try/except: pass]. *)
Definition is_named (tl : oval) (name : string) : GM bool :=
  if o_truthy tl then
    gbind (on_timeline tl (host_call (gtimeline tl) GetName)) (fun r =>
    match r with
    | Returns (VStr s) => gret (String.eqb s name)
    | _ => gret false
    end)
  else gret false.

Fixpoint any_named (tls : list oval) (name : string) : GM bool :=
  match tls with
  | [] => gret false
  | tl :: rest =>
      gbind (is_named tl name) (fun b =>
      if b then gret true else any_named rest name)
  end.

(** [for i in range(i, i + n)], each round inside [try/except: continue]. *)
Fixpoint any_indexed (n : nat) (i : Z) (name : string) : GM bool :=
  match n with
  | O => gret false
  | S n' =>
      gbind (on_pool (GetTimelineByIndex i)) (fun r =>
      match r with
      | GReturns tl =>
          gbind (is_named tl name) (fun b =>
          if b then gret true else any_indexed n' (i + 1)%Z name)
      | GRaises _ => any_indexed n' (i + 1)%Z name
      end)
  end.

Definition timeline_exists (name : string) : GM bool :=
  gbind (on_pool GetTimelines) (fun r =>
  gbind (match r with
         | GReturns (OList tls) => any_named tls name
         | _ => gret false
         end) (fun found =>
  if found then gret true
  else
    gbind (on_pool GetTimelineCount) (fun c =>
    match c with
    | GReturns v =>
        match o_int v with
        | Some count => any_indexed (Z.to_nat count) 1 name
        | None => gret false
        end
    | GRaises _ => gret false
    end))).

(** [if markers: try: add_markers_to_timeline_if_empty(tl, FPS, markers)
     except Exception: ...]; the result is not used. *)
Definition seed_if_any (tl : oval) (markers : list Marker) : GM unit :=
  match markers with
  | [] => gret tt
  | _ =>
      gbind (on_timeline tl
               (add_markers_to_timeline_if_empty (gtimeline tl) FPS markers
                                                 false))
            (fun _ => gret tt)
  end.

(** The track setup of a new timeline, with the statistics of the run. *)
Definition setup_tracks (tl : oval) : GM unit :=
  gbind (on_timeline tl
           (ensure_tracks_named (gtimeline tl) int_of_text "video"
                                (Some VIDEO_TRACKS_TOP_TO_BOTTOM) None true))
        (fun _ =>
  gbind (on_timeline tl
           (ensure_tracks_named (gtimeline tl) int_of_text "audio"
                                None (Some AUDIO_TRACKS) true))
        (fun _ =>
  gupdate_stats incr_timelines_created)).

(** The two early exits after [set_project_defaults]: record, restore,
    return [None]. *)
Definition record_and_restore (title reason : string) (prev : list (string * pyval))
  : GM oval :=
  gbind (gupdate_stats (record_failure title reason)) (fun _ =>
  gbind (on_project (restore_project_defaults gproject prev)) (fun _ =>
  gret ONone)).

Definition create_vertical_timeline (folder : oval) (title w h fps : string)
    (markers : list Marker) : GM oval :=
  if negb (o_truthy folder) then
    gbind (gupdate_stats (record_failure title "No target folder")) (fun _ =>
    gret ONone)
  else
    gbind (on_project (set_project_defaults gproject w h fps)) (fun prev =>
    (* [safe_set_current_folder(mp, folder)], its result unused *)
    gbind (on_pool (SetCurrentFolder folder)) (fun _ =>
    gbind (on_pool (CreateEmptyTimeline title)) (fun r =>
    match r with
    | GRaises msg => record_and_restore title msg prev
    | GReturns tl =>
        if o_truthy tl then
          gbind (on_project (restore_project_defaults gproject prev))
                (fun _ =>
          gbind (setup_tracks tl) (fun _ =>
          gbind (seed_if_any tl markers) (fun _ =>
          gret tl)))
        else record_and_restore title "CreateEmptyTimeline returned None" prev
    end))).

(** [upgrade_existing_track_labels(tl)]: both kinds without statistics,
    then the name for the log line; the [try] swallows what it raises. *)
Definition upgrade_existing_track_labels (tl : oval) : GM unit :=
  gbind (on_timeline tl
           (ensure_tracks_named (gtimeline tl) int_of_text "video"
                                (Some VIDEO_TRACKS_TOP_TO_BOTTOM) None false))
        (fun _ =>
  gbind (on_timeline tl
           (ensure_tracks_named (gtimeline tl) int_of_text "audio"
                                None (Some AUDIO_TRACKS) false))
        (fun _ =>
  gbind (on_timeline tl (host_call (gtimeline tl) GetName)) (fun _ =>
  gret tt))).

(** The loop that looks the existing timeline up again.  Nothing in it is
    guarded, so whatever raises ends the loop; a match ends it with
    [break]. *)
Fixpoint upgrade_found (n : nat) (i : Z) (title : string)
    (markers : list Marker) : GM unit :=
  match n with
  | O => gret tt
  | S n' =>
      gbind (on_pool (GetTimelineByIndex i)) (fun r =>
      match r with
      | GRaises _ => gret tt
      | GReturns tl =>
          if o_truthy tl then
            gbind (on_timeline tl (host_call (gtimeline tl) GetName))
                  (fun nm =>
            match nm with
            | Raises _ => gret tt
            | Returns (VStr s) =>
                if String.eqb s title then
                  gbind (upgrade_existing_track_labels tl) (fun _ =>
                  seed_if_any tl markers)
                else upgrade_found n' (i + 1)%Z title markers
            | Returns _ => upgrade_found n' (i + 1)%Z title markers
            end)
          else upgrade_found n' (i + 1)%Z title markers
      end)
  end.

Definition create_vertical_timeline_unique (folder : oval)
    (title w h fps : string) (markers : list Marker) : GM oval :=
  gbind (timeline_exists title) (fun known =>
  if known then
    gbind (gbind (on_pool GetTimelineCount) (fun c =>
           match c with
           | GReturns v =>
               match o_int v with
               | Some count => upgrade_found (Z.to_nat count) 1 title markers
               | None => gret tt
               end
           | GRaises _ => gret tt
           end)) (fun _ =>
    gbind (gupdate_stats incr_timelines_skipped) (fun _ =>
    gret ONone))
  else create_vertical_timeline folder title w h fps markers).

End Building.

Arguments mkGWorld {G} gstate gtrace gstats.

Definition is_on_timeline (c : gcall) : bool :=
  match c with
  | OnTimeline _ _ => true
  | _ => false
  end.

(** A call that reads or touches a timeline: neither a settings call nor
    the creation of a timeline. *)
Definition is_lookup (c : gcall) : bool :=
  match c with
  | OnProject _ => false
  | OnPool (CreateEmptyTimeline _) => false
  | _ => true
  end.

(** * Properties *)

Unset Implicit Arguments.

(** ** Arithmetic on seconds *)

Module SecFacts.
Import Sec.
Open Scope Qc_scope.

Lemma leb_le a b : leb a b = true <-> a <= b.
Proof.
  unfold leb. rewrite Qcle_alt.
  destruct (a ?= b); split; intro H; try reflexivity; try discriminate.
  exfalso; apply H; reflexivity.
Qed.

Lemma ltb_lt a b : ltb a b = true <-> a < b.
Proof.
  unfold ltb. rewrite Qclt_alt.
  destruct (a ?= b); split; intro H; try reflexivity; discriminate.
Qed.

Lemma ltb_ge a b : ltb a b = false <-> b <= a.
Proof.
  split; intro H.
  - apply Qcnot_lt_le. intro L. apply ltb_lt in L. congruence.
  - destruct (ltb a b) eqn:E; [|reflexivity].
    apply ltb_lt in E. exfalso. exact (Qcle_not_lt _ _ H E).
Qed.

Lemma leb_gt a b : leb a b = false <-> b < a.
Proof.
  split; intro H.
  - apply Qcnot_le_lt. intro L. apply leb_le in L. congruence.
  - destruct (leb a b) eqn:E; [|reflexivity].
    apply leb_le in E. exfalso. exact (Qcle_not_lt _ _ E H).
Qed.

Lemma leb_total a b : leb a b = false -> leb b a = true.
Proof.
  intro H. apply leb_gt in H. apply leb_le. now apply Qclt_le_weak.
Qed.

End SecFacts.

(** ** Sorting *)

Section SortedFacts.
Variable A : Type.
Variable le : A -> A -> bool.

Lemma insert_sorted_In x y l :
  In y (insert_sorted le x l) <-> y = x \/ In y l.
Proof.
  induction l as [|z l IH]; simpl.
  - intuition congruence.
  - destruct (le x z); simpl; [intuition congruence|].
    rewrite IH. intuition congruence.
Qed.

Lemma py_sorted_In y l : In y (py_sorted le l) <-> In y l.
Proof.
  induction l as [|x l IH]; simpl; [reflexivity|].
  rewrite insert_sorted_In, IH. intuition congruence.
Qed.

Lemma insert_sorted_length x l :
  length (insert_sorted le x l) = S (length l).
Proof.
  induction l as [|z l IH]; simpl; [reflexivity|].
  destruct (le x z); simpl; congruence.
Qed.

Lemma py_sorted_length l : length (py_sorted le l) = length l.
Proof.
  induction l as [|x l IH]; simpl; [reflexivity|].
  now rewrite insert_sorted_length, IH.
Qed.

(** Sorting a list that is already in order returns it. *)
Lemma py_sorted_fixed l : locally_sorted le l -> py_sorted le l = l.
Proof.
  induction l as [|x l IH]; [reflexivity|].
  intro H. cbn [py_sorted].
  destruct l as [|y l']; [reflexivity|].
  destruct H as [Hxy Hl]. rewrite (IH Hl). simpl. now rewrite Hxy.
Qed.

Hypothesis le_total : forall a b, le a b = false -> le b a = true.

Lemma insert_sorted_sorted x l :
  locally_sorted le l -> locally_sorted le (insert_sorted le x l).
Proof.
  induction l as [|y l IH]; [simpl; auto|].
  intro H. cbn [insert_sorted].
  destruct (le x y) eqn:E; [simpl; auto|].
  destruct l as [|z l'].
  - simpl. auto.
  - destruct H as [Hyz Hl]. specialize (IH Hl).
    cbn [insert_sorted] in *.
    destruct (le x z) eqn:E'; simpl; simpl in IH; auto.
Qed.

Lemma py_sorted_sorted l : locally_sorted le (py_sorted le l).
Proof.
  induction l as [|x l IH]; [exact I|].
  simpl. now apply insert_sorted_sorted.
Qed.

End SortedFacts.
(** ** Rounding *)

Section RoundingFacts.
Open Scope Z_scope.

(** The integer chosen by [py_round] for [n / d] is within half a unit of
    it. *)
Lemma round_half_bound n d :
  0 < d ->
  let fl := n / d in
  let r := n mod d in
  let z := match 2 * r ?= d with
           | Lt => fl
           | Gt => fl + 1
           | Eq => if Z.even fl then fl else fl + 1
           end in
  2 * z * d - d <= 2 * n <= 2 * z * d + d.
Proof.
  intros Hd fl r z.
  assert (E : n = d * fl + r) by (apply Z.div_mod; lia).
  assert (B : 0 <= r < d) by (apply Z.mod_pos_bound; lia).
  subst z. clearbody fl r. destruct (2 * r ?= d) eqn:C.
  - apply Z.compare_eq in C. destruct (Z.even fl); nia.
  - apply -> Z.compare_lt_iff in C. nia.
  - apply -> Z.compare_gt_iff in C. nia.
Qed.

Lemma py_round_bound (q : Qc) :
  (inject_Z (Sec.py_round q) - (1 # 2) <= q)%Q
  /\ (q <= inject_Z (Sec.py_round q) + (1 # 2))%Q.
Proof.
  destruct q as [[n d] Hc]. unfold Sec.py_round. cbn [this Qnum Qden].
  pose proof (round_half_bound n (Zpos d) (Pos2Z.is_pos d)) as H.
  cbv zeta in H.
  set (z := match 2 * (n mod Zpos d) ?= Zpos d with
            | Lt => n / Zpos d
            | Gt => n / Zpos d + 1
            | Eq => if Z.even (n / Zpos d) then n / Zpos d else n / Zpos d + 1
            end) in *.
  unfold Qle, Qminus, Qplus, Qopp, inject_Z. cbn [Qnum Qden].
  split; nia.
Qed.

(** Rounding keeps the order. *)
Lemma py_round_monotone (p q : Qc) :
  (p <= q)%Qc -> Sec.py_round p <= Sec.py_round q.
Proof.
  intro H. unfold Qcle in H.
  destruct (py_round_bound p) as [Lp Up].
  destruct (py_round_bound q) as [Lq Uq].
  destruct (Z_le_gt_dec (Sec.py_round p) (Sec.py_round q)) as [|G]; [assumption|].
  exfalso.
  assert (G' : (inject_Z (Sec.py_round q) + 1 <= inject_Z (Sec.py_round p))%Q).
  { change 1%Q with (inject_Z 1). rewrite <- inject_Z_plus, <- Zle_Qle. lia. }
  assert (Epq : (p == q)%Q) by (apply Qle_antisym; [assumption|]; lra).
  apply Qc_is_canon in Epq. subst q. lia.
Qed.
End RoundingFacts.

(** ** Rounding to binary64 *)

Section FloatFacts.
Import Sec SecFacts.
Open Scope Qc_scope.

Lemma this_pow2 k : (this (pow2 k) == 2 ^ k)%Q.
Proof. unfold pow2. cbn [this Q2Qc]. apply Qred_correct. Qed.

Lemma this_of_Z z : (this (of_Z z) == inject_Z z)%Q.
Proof. unfold of_Z. cbn [this Q2Qc]. apply Qred_correct. Qed.

Lemma pow2_pos k : 0 < pow2 k.
Proof.
  unfold Qclt. rewrite this_pow2. apply Qpower_0_lt. reflexivity.
Qed.

Lemma pow2_add a b : pow2 (a + b) = pow2 a * pow2 b.
Proof.
  apply Qc_is_canon. cbn [Qcmult this Q2Qc]. rewrite Qred_correct.
  rewrite !this_pow2. apply Qpower_plus. discriminate.
Qed.

Lemma pow2_le a b : (a <= b)%Z -> pow2 a <= pow2 b.
Proof.
  intro H. unfold Qcle. rewrite !this_pow2.
  apply Qpower_le_compat_l; [exact H | discriminate].
Qed.

Lemma pow2_lt a b : (a < b)%Z -> pow2 a < pow2 b.
Proof.
  intro H. unfold Qclt. rewrite !this_pow2.
  apply Qpower_lt_compat_l; [exact H | reflexivity].
Qed.

Lemma pow2_lt_inv a b : pow2 a < pow2 b -> (a < b)%Z.
Proof.
  intro H. destruct (Z_lt_le_dec a b) as [|G]; [assumption|].
  exfalso. apply pow2_le in G. exact (Qcle_not_lt _ _ G H).
Qed.

Lemma pow2_of_Z k : (0 <= k)%Z -> pow2 k = of_Z (2 ^ k).
Proof.
  intro H. apply Qc_is_canon. rewrite this_pow2, this_of_Z.
  symmetry. apply (Zpower_Qpower 2 k H).
Qed.

Lemma of_Z_le a b : (a <= b)%Z -> of_Z a <= of_Z b.
Proof.
  intro H. unfold Qcle. rewrite !this_of_Z. now rewrite <- Zle_Qle.
Qed.

Lemma of_Z_lt a b : (a < b)%Z -> of_Z a < of_Z b.
Proof.
  intro H. unfold Qclt. rewrite !this_of_Z. now rewrite <- Zlt_Qlt.
Qed.

Lemma of_Z_mult a b : of_Z (a * b) = of_Z a * of_Z b.
Proof.
  apply Qc_is_canon. cbn [Qcmult this Q2Qc]. rewrite Qred_correct.
  rewrite !this_of_Z. rewrite inject_Z_mult. reflexivity.
Qed.

Lemma of_Z_0 : of_Z 0 = 0.
Proof. reflexivity. Qed.

(** An integer is its own rounding. *)
Lemma py_round_of_Z z : py_round (of_Z z) = z.
Proof.
  destruct (py_round_bound (of_Z z)) as [L U].
  rewrite this_of_Z in L, U.
  set (p := py_round (of_Z z)) in *.
  assert (A : (inject_Z p <= inject_Z z + (1 # 2))%Q) by lra.
  assert (B : (inject_Z z <= inject_Z p + (1 # 2))%Q) by lra.
  unfold Qle, Qplus, inject_Z in A, B. cbn [Qnum Qden] in A, B. lia.
Qed.


Lemma mult_lt_reg_r x y z : 0 < z -> x * z < y * z -> x < y.
Proof.
  intros Hz H. apply Qcnot_le_lt. intro L.
  apply (Qcmult_le_compat_r _ _ z) in L; [|now apply Qclt_le_weak].
  exact (Qcle_not_lt _ _ L H).
Qed.

Lemma frac_form (x : Qc) :
  x * of_Z (Zpos (Qden (this x))) = of_Z (Qnum (this x)).
Proof.
  apply Qc_is_canon. cbn [Qcmult this Q2Qc]. rewrite Qred_correct.
  rewrite !this_of_Z. destruct x as [[n d] H]. cbn [this Qnum Qden].
  unfold Qeq, Qmult, inject_Z. cbn [Qnum Qden]. lia.
Qed.

Lemma num_pos (x : Qc) : 0 < x -> (0 < Qnum (this x))%Z.
Proof.
  intro H. unfold Qclt, Qlt in H. simpl in H. lia.
Qed.

Lemma pow2_le_of_Z a n : (0 <= a)%Z -> (2 ^ a <= n)%Z -> pow2 a <= of_Z n.
Proof. intros Ha H. rewrite (pow2_of_Z a Ha). now apply of_Z_le. Qed.

Lemma of_Z_lt_pow2 a n : (0 <= a)%Z -> (n < 2 ^ a)%Z -> of_Z n < pow2 a.
Proof. intros Ha H. rewrite (pow2_of_Z a Ha). now apply of_Z_lt. Qed.

(** The two candidates of [ilog2] enclose [x]. *)
Lemma log2_enclosure (x : Qc) :
  0 < x ->
  let k := (Z.log2 (Qnum (this x)) - Z.log2 (Zpos (Qden (this x))))%Z in
  pow2 (k - 1) <= x /\ x < pow2 (k + 1).
Proof.
  intros Hx k. subst k.
  pose proof (num_pos x Hx) as Hn.
  set (n := Qnum (this x)) in *. set (d := Zpos (Qden (this x))).
  assert (Hd : (0 < d)%Z) by (unfold d; lia).
  destruct (Z.log2_spec n Hn) as [Ln Un].
  destruct (Z.log2_spec d Hd) as [Ld Ud].
  pose proof (Z.log2_nonneg n) as An. pose proof (Z.log2_nonneg d) as Ad.
  set (a := Z.log2 n) in *. set (b := Z.log2 d) in *.
  assert (Dpos : 0 < of_Z d) by (apply (of_Z_lt 0 d); exact Hd).
  pose proof (frac_form x) as F. fold n d in F.
  split.
  - apply Qcmult_lt_0_le_reg_r with (z := of_Z d); [exact Dpos|].
    rewrite F.
    apply Qcle_trans with (y := pow2 (a - b - 1) * pow2 (b + 1)).
    + rewrite (Qcmult_comm (pow2 (a - b - 1)) (of_Z d)).
      rewrite (Qcmult_comm (pow2 (a - b - 1)) (pow2 (b + 1))).
      apply Qcmult_le_compat_r.
      * apply Qclt_le_weak, of_Z_lt_pow2; lia.
      * apply Qclt_le_weak, pow2_pos.
    + rewrite <- pow2_add. replace (a - b - 1 + (b + 1))%Z with a by lia.
      now apply pow2_le_of_Z.
  - apply mult_lt_reg_r with (z := of_Z d); [exact Dpos|].
    rewrite F.
    apply Qclt_le_trans with (y := pow2 (a - b + 1) * pow2 b).
    + rewrite <- pow2_add. replace (a - b + 1 + b)%Z with (a + 1)%Z by lia.
      apply of_Z_lt_pow2; [lia|]. exact Un.
    + rewrite (Qcmult_comm (pow2 (a - b + 1)) (of_Z d)).
      rewrite (Qcmult_comm (pow2 (a - b + 1)) (pow2 b)).
      apply Qcmult_le_compat_r.
      * now apply pow2_le_of_Z.
      * apply Qclt_le_weak, pow2_pos.
Qed.

Lemma ilog2_spec x :
  0 < x -> pow2 (ilog2 x) <= x /\ x < pow2 (ilog2 x + 1).
Proof.
  intro Hx. destruct (log2_enclosure x Hx) as [L U]. unfold ilog2.
  set (k := (Z.log2 (Qnum (this x)) - Z.log2 (Zpos (Qden (this x))))%Z) in *.
  destruct (leb (pow2 k) x) eqn:E.
  - apply leb_le in E. split; assumption.
  - apply leb_gt in E. replace (k - 1 + 1)%Z with k by lia.
    split; assumption.
Qed.

Lemma ilog2_unique x e :
  pow2 e <= x -> x < pow2 (e + 1) -> ilog2 x = e.
Proof.
  intros L U.
  assert (Hx : 0 < x) by (apply Qclt_le_trans with (y := pow2 e);
                          [apply pow2_pos | exact L]).
  destruct (ilog2_spec x Hx) as [L' U'].
  assert (A : (ilog2 x < e + 1)%Z)
    by (apply pow2_lt_inv; exact (Qcle_lt_trans _ _ _ L' U)).
  assert (B : (e < ilog2 x + 1)%Z)
    by (apply pow2_lt_inv; exact (Qcle_lt_trans _ _ _ L U')).
  lia.
Qed.

Lemma ilog2_monotone x y : 0 < x -> x <= y -> (ilog2 x <= ilog2 y)%Z.
Proof.
  intros Hx Hxy.
  assert (Hy : 0 < y) by exact (Qclt_le_trans _ _ _ Hx Hxy).
  destruct (ilog2_spec x Hx) as [Lx _].
  destruct (ilog2_spec y Hy) as [_ Uy].
  assert (A : (ilog2 x < ilog2 y + 1)%Z).
  { apply pow2_lt_inv.
    exact (Qcle_lt_trans _ _ _ (Qcle_trans _ _ _ Lx Hxy) Uy). }
  lia.
Qed.


Lemma pow2_0 : pow2 0 = 1.
Proof. reflexivity. Qed.

Lemma pow2_neq_0 q : pow2 q <> 0.
Proof.
  intro E. pose proof (pow2_pos q) as P. rewrite E in P.
  exact (Qclt_not_eq _ _ P eq_refl).
Qed.

Lemma div_pow2 x q : x / pow2 q = x * pow2 (- q).
Proof.
  unfold Qcdiv. f_equal.
  rewrite <- (Qcmult_1_l (pow2 (- q))).
  rewrite <- (Qcmult_inv_l (pow2 q) (pow2_neq_0 q)).
  rewrite <- Qcmult_assoc, <- pow2_add.
  replace (q + - q)%Z with 0%Z by lia.
  now rewrite pow2_0, Qcmult_1_r.
Qed.

Lemma div_mul_pow2 x q : x / pow2 q * pow2 q = x.
Proof.
  rewrite div_pow2, <- Qcmult_assoc, <- pow2_add.
  replace (- q + q)%Z with 0%Z by lia.
  now rewrite pow2_0, Qcmult_1_r.
Qed.

Lemma scaled_le x y q : x <= y -> x / pow2 q <= y / pow2 q.
Proof.
  intro H. rewrite !div_pow2.
  apply Qcmult_le_compat_r; [exact H | apply Qclt_le_weak, pow2_pos].
Qed.

Lemma pow2_div a b : pow2 a / pow2 b = pow2 (a - b).
Proof. rewrite div_pow2, <- pow2_add. reflexivity. Qed.

Lemma ulp_exp_ge x : (-1074 <= ulp_exp x)%Z.
Proof. unfold ulp_exp. lia. Qed.

Lemma ulp_exp_monotone x y : 0 < x -> x <= y -> (ulp_exp x <= ulp_exp y)%Z.
Proof.
  intros Hx Hxy. pose proof (ilog2_monotone x y Hx Hxy). unfold ulp_exp. lia.
Qed.

Lemma round_pos_le_pow2 x b :
  x <= pow2 b -> (ulp_exp x <= b)%Z -> round_pos x <= pow2 b.
Proof.
  intros Hx Hq. unfold round_pos. set (q := ulp_exp x) in *.
  pose proof (scaled_le _ _ q Hx) as S.
  rewrite pow2_div, (pow2_of_Z (b - q)) in S by lia.
  apply py_round_monotone in S. rewrite py_round_of_Z in S.
  replace (pow2 b) with (of_Z (2 ^ (b - q)) * pow2 q).
  - apply Qcmult_le_compat_r; [now apply of_Z_le|].
    apply Qclt_le_weak, pow2_pos.
  - rewrite <- pow2_of_Z, <- pow2_add by lia. f_equal. lia.
Qed.

Lemma round_pos_ge_pow2 x b :
  pow2 b <= x -> (ulp_exp x <= b)%Z -> pow2 b <= round_pos x.
Proof.
  intros Hx Hq. unfold round_pos. set (q := ulp_exp x) in *.
  pose proof (scaled_le _ _ q Hx) as S.
  rewrite pow2_div, (pow2_of_Z (b - q)) in S by lia.
  apply py_round_monotone in S. rewrite py_round_of_Z in S.
  replace (pow2 b) with (of_Z (2 ^ (b - q)) * pow2 q).
  - apply Qcmult_le_compat_r; [now apply of_Z_le|].
    apply Qclt_le_weak, pow2_pos.
  - rewrite <- pow2_of_Z, <- pow2_add by lia. f_equal. lia.
Qed.

Lemma round_pos_nonneg x : 0 <= x -> 0 <= round_pos x.
Proof.
  intro Hx. unfold round_pos.
  assert (S : 0 <= x / pow2 (ulp_exp x)).
  { rewrite div_pow2. rewrite <- (Qcmult_0_l (pow2 (- ulp_exp x))).
    apply Qcmult_le_compat_r; [exact Hx | apply Qclt_le_weak, pow2_pos]. }
  apply py_round_monotone in S. change 0 with (of_Z 0) in S at 1.
  rewrite py_round_of_Z in S.
  rewrite <- (Qcmult_0_l (pow2 (ulp_exp x))).
  apply Qcmult_le_compat_r; [|apply Qclt_le_weak, pow2_pos].
  change 0 with (of_Z 0). now apply of_Z_le.
Qed.

(** Rounding keeps the order. *)
Lemma round_pos_monotone x y : 0 < x -> x <= y -> round_pos x <= round_pos y.
Proof.
  intros Hx Hxy.
  assert (Hy : 0 < y) by exact (Qclt_le_trans _ _ _ Hx Hxy).
  pose proof (ulp_exp_monotone x y Hx Hxy) as Q.
  destruct (Z.eq_dec (ulp_exp x) (ulp_exp y)) as [E|N].
  - unfold round_pos. rewrite E.
    apply Qcmult_le_compat_r; [|apply Qclt_le_weak, pow2_pos].
    apply of_Z_le, py_round_monotone, scaled_le, Hxy.
  - destruct (ilog2_spec x Hx) as [_ Ux].
    destruct (ilog2_spec y Hy) as [Ly _].
    assert (B : (ilog2 x + 1 <= ilog2 y)%Z) by (unfold ulp_exp in *; lia).
    apply Qcle_trans with (y := pow2 (ilog2 y)).
    + apply round_pos_le_pow2; [|unfold ulp_exp in *; lia].
      apply Qclt_le_weak.
      exact (Qclt_le_trans _ _ _ Ux (pow2_le _ _ B)).
    + apply round_pos_ge_pow2; [exact Ly | unfold ulp_exp in *; lia].
Qed.

Lemma float_of_0 : float_of 0 = 0.
Proof. reflexivity. Qed.

Lemma float_of_pos x : 0 < x -> float_of x = round_pos x.
Proof.
  intro H. unfold float_of.
  assert (C : (x ?= 0) = Gt) by (apply (Qcgt_alt x 0); exact H).
  now rewrite C.
Qed.

Lemma float_of_neg x : x < 0 -> float_of x = - round_pos (- x).
Proof.
  intro H. unfold float_of.
  assert (C : (x ?= 0) = Lt) by (apply (Qclt_alt x 0); exact H).
  now rewrite C.
Qed.

Lemma opp_pos x : x < 0 -> 0 < - x.
Proof.
  intro H. unfold Qclt in *. cbn [Qcopp this Q2Qc].
  rewrite !Qred_correct. change (this 0) with 0%Q in *. lra.
Qed.

Lemma float_of_nonneg x : 0 <= x -> 0 <= float_of x.
Proof.
  intro H. destruct (Qc_eq_dec x 0) as [->|N]; [apply Qcle_refl|].
  assert (P : 0 < x).
  { apply Qcnot_le_lt. intro L. apply N. now apply Qcle_antisym. }
  rewrite (float_of_pos x P). now apply round_pos_nonneg.
Qed.

Lemma float_of_nonpos x : x <= 0 -> float_of x <= 0.
Proof.
  intro H. destruct (Qc_eq_dec x 0) as [->|N]; [apply Qcle_refl|].
  assert (P : x < 0).
  { apply Qcnot_le_lt. intro L. apply N. now apply Qcle_antisym. }
  rewrite (float_of_neg x P).
  apply Qcopp_le_compat in H. change (- 0) with 0 in H.
  apply round_pos_nonneg in H. apply Qcopp_le_compat in H.
  exact H.
Qed.

(** Rounding to the nearest double keeps the order. *)
Lemma float_of_monotone x y : x <= y -> float_of x <= float_of y.
Proof.
  intro H.
  destruct (Qclt_le_dec 0 x) as [Px|Nx].
  - rewrite (float_of_pos x Px),
            (float_of_pos y (Qclt_le_trans _ _ _ Px H)).
    now apply round_pos_monotone.
  - destruct (Qclt_le_dec y 0) as [Ny|Py].
    + assert (Nx' : x < 0) by exact (Qcle_lt_trans _ _ _ H Ny).
      rewrite (float_of_neg x Nx'), (float_of_neg y Ny).
      apply Qcopp_le_compat.
      apply round_pos_monotone; [now apply opp_pos|].
      now apply Qcopp_le_compat.
    + apply Qcle_trans with (y := 0).
      * now apply float_of_nonpos.
      * now apply float_of_nonneg.
Qed.


Lemma mult_pos a b : 0 < a -> 0 < b -> 0 < a * b.
Proof.
  intros Ha Hb. rewrite <- (Qcmult_0_l b).
  now apply Qcmult_lt_compat_r.
Qed.

(** A number with a significand of at most 53 bits and an exponent in
    range is its own rounding. *)
Lemma round_pos_small m j :
  (0 < m < 2 ^ 53)%Z -> (-1074 <= j)%Z ->
  round_pos (of_Z m * pow2 j) = of_Z m * pow2 j.
Proof.
  intros Hm Hj.
  assert (Hm0 : (0 < m)%Z) by lia.
  destruct (Z.log2_spec m Hm0) as [La Ua].
  pose proof (Z.log2_nonneg m) as A0.
  assert (A52 : (Z.log2 m < 53)%Z) by (apply Z.log2_lt_pow2; lia).
  set (a := Z.log2 m) in *.
  assert (E : ilog2 (of_Z m * pow2 j) = (a + j)%Z).
  { apply ilog2_unique.
    - rewrite pow2_add. apply Qcmult_le_compat_r.
      + now apply pow2_le_of_Z.
      + apply Qclt_le_weak, pow2_pos.
    - replace (a + j + 1)%Z with (a + 1 + j)%Z by lia.
      rewrite pow2_add. apply Qcmult_lt_compat_r; [apply pow2_pos|].
      apply of_Z_lt_pow2; [lia|]. exact Ua. }
  unfold round_pos, ulp_exp. rewrite E.
  set (q := Z.max (a + j - 52) (-1074)).
  assert (Q : (q <= j)%Z) by (unfold q; lia).
  assert (S : of_Z m * pow2 j / pow2 q = of_Z (m * 2 ^ (j - q))).
  { rewrite div_pow2, <- Qcmult_assoc, <- pow2_add.
    rewrite of_Z_mult, <- pow2_of_Z by lia. reflexivity. }
  rewrite S, py_round_of_Z, of_Z_mult, <- Qcmult_assoc.
  rewrite <- pow2_of_Z, <- pow2_add by lia.
  solve [reflexivity | f_equal; f_equal; lia].
Qed.

Lemma round_pos_repr m j :
  (0 < m <= 2 ^ 53)%Z -> (-1074 <= j)%Z ->
  round_pos (of_Z m * pow2 j) = of_Z m * pow2 j.
Proof.
  intros Hm Hj. destruct (Z.eq_dec m (2 ^ 53)) as [->|N].
  - assert (E : of_Z (2 ^ 53) * pow2 j = of_Z (2 ^ 52) * pow2 (j + 1)).
    { rewrite <- !pow2_of_Z, <- !pow2_add by lia. f_equal. lia. }
    rewrite E. apply round_pos_small; lia.
  - apply round_pos_small; lia.
Qed.

(** What rounding returns has such a significand and exponent. *)
Lemma round_pos_is_repr x :
  0 < x ->
  exists m j, (0 <= m <= 2 ^ 53)%Z /\ (-1074 <= j)%Z
              /\ round_pos x = of_Z m * pow2 j.
Proof.
  intro Hx. exists (py_round (x / pow2 (ulp_exp x))), (ulp_exp x).
  split; [|split; [apply ulp_exp_ge | reflexivity]].
  destruct (ilog2_spec x Hx) as [_ U]. split.
  - assert (S : 0 <= x / pow2 (ulp_exp x)).
    { rewrite div_pow2. rewrite <- (Qcmult_0_l (pow2 (- ulp_exp x))).
      apply Qcmult_le_compat_r; apply Qclt_le_weak;
        [exact Hx | apply pow2_pos]. }
    apply py_round_monotone in S. change 0 with (of_Z 0) in S at 1.
    now rewrite py_round_of_Z in S.
  - assert (S : x / pow2 (ulp_exp x) <= of_Z (2 ^ 53)).
    { rewrite <- pow2_of_Z by lia.
      apply Qcle_trans with (y := pow2 (ilog2 x + 1) / pow2 (ulp_exp x)).
      - apply scaled_le. now apply Qclt_le_weak.
      - rewrite pow2_div. apply pow2_le. unfold ulp_exp. lia. }
    apply py_round_monotone in S. now rewrite py_round_of_Z in S.
Qed.

Lemma float_of_fixes_rounded x :
  0 < x -> float_of (round_pos x) = round_pos x.
Proof.
  intro Hx. destruct (round_pos_is_repr x Hx) as (m & j & Hm & Hj & E).
  rewrite E. destruct (Z.eq_dec m 0) as [->|N].
  - rewrite of_Z_0, Qcmult_0_l. reflexivity.
  - assert (P : 0 < of_Z m * pow2 j).
    { apply mult_pos; [|apply pow2_pos]. apply (of_Z_lt 0 m). lia. }
    rewrite (float_of_pos _ P). apply round_pos_repr; [lia | exact Hj].
Qed.

(** A double is its own rounding. *)
Lemma float_of_idempotent x : float_of (float_of x) = float_of x.
Proof.
  destruct (Qclt_le_dec 0 x) as [Px|Nx].
  - rewrite (float_of_pos x Px). now apply float_of_fixes_rounded.
  - destruct (Qc_eq_dec x 0) as [->|N]; [reflexivity|].
    assert (P : x < 0).
    { apply Qcnot_le_lt. intro L. apply N. now apply Qcle_antisym. }
    rewrite (float_of_neg x P).
    pose proof (float_of_fixes_rounded (- x) (opp_pos x P)) as F.
    set (r := round_pos (- x)) in *.
    destruct (Qc_eq_dec r 0) as [Z|NZ]; [rewrite Z; reflexivity|].
    assert (R : 0 <= r).
    { apply round_pos_nonneg. apply Qclt_le_weak. now apply opp_pos. }
    assert (R' : - r < 0).
    { apply Qcnot_le_lt. intro L. apply Qcopp_le_compat in L.
      rewrite Qcopp_involutive in L. change (- 0) with 0 in L.
      apply NZ. now apply Qcle_antisym. }
    rewrite (float_of_neg _ R'), Qcopp_involutive. f_equal.
    assert (Rp : 0 < r).
    { apply Qcnot_le_lt. intro L. apply NZ. now apply Qcle_antisym. }
    rewrite <- (float_of_pos r Rp). exact F.
Qed.

End FloatFacts.

(** The doubles of 0.1 and of 29.97, the float of one frame at 29.97 fps,
    4.5 (a double), the sum 0.1 + 0.2, and two ties among the subnormal
    numbers: 1.5 and 2.5 units of [2^-1074] both round to 2 units. *)
Lemma float_of_examples :
  this (Sec.float_of (Sec.dec 1 10))
  = (3602879701896397 # 36028797018963968)%Q
  /\ this (Sec.float_of (Sec.dec 2997 100))
     = (1054475631502295 # 35184372088832)%Q
  /\ this (Sec.fdiv 1 (Sec.float_of (Sec.dec 2997 100)))
     = (4808648250779309 # 144115188075855872)%Q
  /\ this (Sec.float_of (Sec.dec 45 10)) = (9 # 2)%Q
  /\ this (Sec.fadd (Sec.float_of (Sec.dec 1 10))
                    (Sec.float_of (Sec.dec 2 10)))
     = (1351079888211149 # 4503599627370496)%Q
  /\ Sec.float_of (Sec.dec 15 10 * Sec.pow2 (-1074)) = Sec.pow2 (-1073)
  /\ Sec.float_of (Sec.dec 25 10 * Sec.pow2 (-1074)) = Sec.pow2 (-1073).
Proof.
  repeat split; try (vm_compute; reflexivity);
    apply Qc_is_canon; vm_compute; reflexivity.
Qed.


(** ** Butt-join *)

Section ButtJoinFacts.
Import SecFacts.
Open Scope Qc_scope.

Lemma list_set_middle {A} (pre : list A) x y rest :
  list_set (length pre) y (pre ++ x :: rest) = pre ++ y :: rest.
Proof.
  induction pre as [|p pre IH]; simpl; [reflexivity|]. now rewrite IH.
Qed.

Lemma nth_error_middle {A} (pre : list A) x rest :
  nth_error (pre ++ x :: rest) (length pre) = Some x.
Proof.
  induction pre as [|p pre IH]; simpl; auto.
Qed.

Lemma nth_error_middle_S {A} (pre : list A) x rest :
  nth_error (pre ++ x :: rest) (S (length pre)) = nth_error rest 0.
Proof.
  induction pre as [|p pre IH]; simpl; auto.
Qed.

Lemma join_adjacent_step fps cur nxt rest :
  join_adjacent fps (cur :: nxt :: rest)
  = obind (stretch fps cur nxt) (fun cur' =>
    obind (join_adjacent fps (nxt :: rest)) (fun rest' => Ok (cur' :: rest'))).
Proof. reflexivity. Qed.

(** The indexed loop over [range(len(ms) - 1)] computes [join_adjacent]. *)
Lemma butt_join_loop_spec fps l : forall pre,
  for_each (butt_join_step fps) (seq (length pre) (length l - 1)) (pre ++ l)
  = obind (join_adjacent fps l) (fun l' => Ok (pre ++ l')).
Proof.
  induction l as [|cur l IH]; intro pre; [reflexivity|].
  destruct l as [|nxt rest]; [reflexivity|].
  replace (length (cur :: nxt :: rest) - 1)%nat with (S (length rest))
    by (simpl; lia).
  cbn [seq for_each]. unfold butt_join_step at 1.
  rewrite nth_error_middle, nth_error_middle_S. cbn [nth_error].
  rewrite join_adjacent_step.
  destruct (stretch fps cur nxt) as [cur'|e]; [|reflexivity].
  cbn [obind]. rewrite list_set_middle.
  specialize (IH (pre ++ [cur'])).
  rewrite length_app, Nat.add_1_r in IH.
  replace (length (nxt :: rest) - 1)%nat with (length rest) in IH
    by (simpl; lia).
  rewrite <- app_assoc in IH. cbn [app] in IH. rewrite IH.
  destruct (join_adjacent fps (nxt :: rest)) as [rest'|e]; [|reflexivity].
  cbn [obind]. now rewrite <- app_assoc.
Qed.

Lemma butt_join_spec markers fps_str :
  _butt_join_markers markers fps_str
  = join_adjacent (Sec.float_of (fps_or_default fps_str))
                  (py_sorted by_time markers).
Proof.
  unfold _butt_join_markers.
  destruct markers as [|m ms]; [reflexivity|].
  pose proof (butt_join_loop_spec (Sec.float_of (fps_or_default fps_str))
                (py_sorted by_time (m :: ms)) []) as H.
  cbn [length app] in H. rewrite H.
  destruct (join_adjacent _ _); reflexivity.
Qed.

(** What one stretch does to a marker. *)
Lemma stretch_keeps fps a b a' :
  stretch fps a b = Ok a' ->
  t a' = t a /\ color a' = color a /\ name a' = name a /\ notes a' = notes a.
Proof.
  unfold stretch.
  destruct (Sec.leb (Sec.float_of (dur a)) 0); [intros [= <-]; auto|].
  destruct (Sec.ltb 0 _); [|intros [= <-]; auto].
  destruct (Qc_eq_dec fps 0); [discriminate|].
  intros [= <-]. simpl. auto.
Qed.

(** The three ways out of the loop body. *)
Lemma stretch_cases fps a b :
  (Sec.float_of (dur a) <= 0 /\ stretch fps a b = Ok a)
  \/ (0 < Sec.float_of (dur a) /\ gap_after a b <= 0
      /\ stretch fps a b = Ok a)
  \/ (0 < Sec.float_of (dur a) /\ 0 < gap_after a b
      /\ stretch fps a b
         = if Qc_eq_dec fps 0 then Raised ZeroDivisionError
           else Ok (set_dur a
                      (Sec.fadd (Sec.float_of (dur a))
                                (Sec.py_min (gap_after a b)
                                            (Sec.fdiv 1 fps))))).
Proof.
  unfold stretch. fold (gap_after a b).
  destruct (Sec.leb (Sec.float_of (dur a)) 0) eqn:D.
  { left. split; [now apply leb_le | reflexivity]. }
  apply leb_gt in D. right.
  destruct (Sec.ltb 0 (gap_after a b)) eqn:G.
  - right. apply ltb_lt in G. auto.
  - left. apply ltb_ge in G. auto.
Qed.

(** A pair that overlaps leaves no gap to close. *)
Lemma overlap_leaves_no_gap a b : ~ no_overlap a b -> gap_after a b <= 0.
Proof.
  intro H. unfold no_overlap in H. apply Qcnot_le_lt in H.
  unfold gap_after, Sec.fsub, Sec.fadd.
  apply float_of_nonpos.
  set (e := Sec.float_of (Sec.float_of (t a) + Sec.float_of (dur a))).
  assert (E : Sec.float_of (t b) <= e).
  { rewrite <- (float_of_idempotent (t b)). unfold e.
    apply float_of_monotone. now apply Qclt_le_weak. }
  unfold Qcminus. apply Qcle_minus_iff in E.
  apply Qcopp_le_compat in E. change (- 0) with 0 in E.
  replace (Sec.float_of (t b) + - e) with (- (e + - Sec.float_of (t b)))
    by ring.
  exact E.
Qed.

Lemma join_adjacent_cons fps a l out :
  join_adjacent fps (a :: l) = Ok out ->
  exists a' l', out = a' :: l' /\ t a' = t a /\ join_adjacent fps l = Ok l'
    /\ match l with
       | b :: _ => stretch fps a b = Ok a'
       | [] => a' = a
       end.
Proof.
  destruct l as [|b rest].
  - intros [= <-]. exists a, []. auto.
  - rewrite join_adjacent_step.
    destruct (stretch fps a b) as [a'|e] eqn:S1; [|discriminate].
    cbn [obind].
    destruct (join_adjacent fps (b :: rest)) as [l'|e] eqn:J; [|discriminate].
    intros [= <-]. exists a', l'.
    repeat split; auto. now apply stretch_keeps in S1.
Qed.

Lemma join_adjacent_length fps l : forall out,
  join_adjacent fps l = Ok out -> length out = length l.
Proof.
  induction l as [|a l IH]; intros out H.
  - now injection H as <-.
  - apply join_adjacent_cons in H as (a' & l' & -> & _ & J & _).
    simpl. f_equal. now apply IH.
Qed.

(** Pairwise view of a joined pack: positions and offsets are kept, and
    the marker at [i] is the stretch of [ms[i]] towards [ms[i + 1]]. *)
Lemma join_adjacent_nth fps l : forall out i a b,
  join_adjacent fps l = Ok out ->
  nth_error l i = Some a -> nth_error l (S i) = Some b ->
  exists a' b', nth_error out i = Some a' /\ nth_error out (S i) = Some b'
    /\ stretch fps a b = Ok a' /\ t b' = t b.
Proof.
  induction l as [|x l IH]; intros out i a b H Ha Hb.
  - destruct i; discriminate.
  - apply join_adjacent_cons in H as (x' & l' & -> & Hx & J & S1).
    destruct i as [|i].
    + injection Ha as <-. cbn [nth_error] in Hb.
      destruct l as [|y rest]; [discriminate|].
      injection Hb as <-.
      apply join_adjacent_cons in J as (y' & r' & -> & Hy & _ & _).
      exists x', y'. simpl. auto.
    + cbn [nth_error] in Ha, Hb.
      destruct (IH l' i a b J Ha Hb) as (a' & b' & ? & ? & ? & ?).
      exists a', b'. simpl. auto.
Qed.

Lemma join_adjacent_sorted fps l : forall out,
  join_adjacent fps l = Ok out ->
  locally_sorted by_time l -> locally_sorted by_time out.
Proof.
  induction l as [|a l IH]; intros out H Hs.
  - now injection H as <-.
  - apply join_adjacent_cons in H as (a' & l' & -> & Ha & J & _).
    destruct l as [|b rest].
    + injection J as <-. exact I.
    + destruct Hs as [Hab Hs].
      pose proof (IH _ J Hs) as Hs'.
      apply join_adjacent_cons in J as (b' & r' & -> & Hb & _ & _).
      split; [|exact Hs'].
      unfold by_time in *. now rewrite Ha, Hb.
Qed.

(** Without a positive gap there is nothing to stretch. *)
Lemma stretch_untouched fps a b :
  Sec.float_of (dur a) <= 0 \/ gap_after a b <= 0 -> stretch fps a b = Ok a.
Proof.
  intro H. destruct (stretch_cases fps a b) as [[_ E]|[(_ & _ & E)|(D & G & _)]];
    try exact E.
  exfalso. destruct H as [H|H].
  - exact (Qcle_not_lt _ _ H D).
  - exact (Qcle_not_lt _ _ H G).
Qed.

Lemma join_adjacent_untouched fps l :
  no_positive_gaps l -> join_adjacent fps l = Ok l.
Proof.
  induction l as [|a l IH]; [reflexivity|].
  destruct l as [|b rest]; [reflexivity|].
  intros [Hab Hrest]. rewrite join_adjacent_step.
  rewrite (stretch_untouched fps a b Hab). cbn [obind].
  now rewrite (IH Hrest).
Qed.

End ButtJoinFacts.
Section ButtJoinClaims.
Import SecFacts.
Open Scope Qc_scope.

Lemma stretch_total fps a b : fps <> 0 -> exists a', stretch fps a b = Ok a'.
Proof.
  intro Hf. unfold stretch.
  destruct (Sec.leb (Sec.float_of (dur a)) 0); [eauto|].
  destruct (Sec.ltb 0 _); [|eauto].
  destruct (Qc_eq_dec fps 0); [contradiction|eauto].
Qed.

Lemma join_adjacent_total fps l :
  fps <> 0 -> exists out, join_adjacent fps l = Ok out.
Proof.
  intro Hf. induction l as [|a l IH]; [simpl; eauto|].
  destruct l as [|b rest]; [simpl; eauto|].
  rewrite join_adjacent_step.
  destruct (stretch_total fps a b Hf) as [a' ->].
  destruct IH as [out ->]. simpl. eauto.
Qed.

Lemma by_time_sorted markers : locally_sorted by_time (py_sorted by_time markers).
Proof.
  apply py_sorted_sorted. intros a b. unfold by_time. apply leb_total.
Qed.

(** C2, as amended.  Butt-join is a fixed point as soon as its result has
    no positive gap left after a marker of positive duration, the gap taken
    as the loop computes it: a second pass then returns the result
    unchanged. *)
Theorem butt_join_fixed_point_when_gaps_closed markers fps_str out :
  _butt_join_markers markers fps_str = Ok out ->
  no_positive_gaps out ->
  _butt_join_markers out fps_str = Ok out.
Proof.
  intros J N. rewrite butt_join_spec in J |- *.
  rewrite (py_sorted_fixed _ by_time out).
  - now apply join_adjacent_untouched.
  - exact (join_adjacent_sorted _ _ _ J (by_time_sorted markers)).
Qed.

(** A hairline gap of 0.01 s at 29.97 fps: HOOK is stretched from 2.99 s to
    3 s, where DRAW starts, and the second pass finds no gap. *)
Lemma butt_join_fixed_point_witness :
  let pack := [ _mm (Sec.dec 0 1) "Red" "HOOK" (Sec.dec 299 100) "";
                _mm (Sec.dec 3 1) "Orange" "DRAW" (Sec.dec 5 1) "" ] in
  exists out,
    _butt_join_markers pack (Numeric (Sec.dec 2997 100)) = Ok out
    /\ map (fun m => this (dur m)) out = [(3 # 1)%Q; (5 # 1)%Q]
    /\ _butt_join_markers out (Numeric (Sec.dec 2997 100)) = Ok out.
Proof.
  intro pack. eexists.
  split; [vm_compute; reflexivity|]. split; [reflexivity|].
  apply (butt_join_fixed_point_when_gaps_closed pack
           (Numeric (Sec.dec 2997 100))).
  - vm_compute. reflexivity.
  - split; [|exact I]. right. vm_compute. discriminate.
Defined.

(** C2, counterexamples.  At the module's frame rate a gap of two seconds
    stays positive: the second pass stretches HOOK again, from
    1.0333667000333666 s to 1.0667334000667332 s.  And a gap of less than a
    frame need not close either, because the stretched duration is rounded:
    with offsets 0.1 and 0.31 the duration 0.2 becomes 0.20999999999999996
    in the first pass and 0.21000000000000002 in the second. *)
Lemma butt_join_not_idempotent :
  (exists once twice,
     _butt_join_markers
       [ _mm (Sec.dec 0 1) "Red" "HOOK" (Sec.dec 1 1) "";
         _mm (Sec.dec 3 1) "Yellow" "LOOP / CTA" (Sec.dec 1 1) "" ]
       (Numeric (Sec.dec 2997 100)) = Ok once
     /\ _butt_join_markers once (Numeric (Sec.dec 2997 100)) = Ok twice
     /\ map (fun m => this (dur m)) once
        = [(4653869885207349 # 4503599627370496)%Q; (1 # 1)%Q]
     /\ map (fun m => this (dur m)) twice
        = [(2402070071522101 # 2251799813685248)%Q; (1 # 1)%Q]
     /\ twice <> once)
  /\ (let pack := [ _mm (Sec.dec 1 10) "Red" "HOOK" (Sec.dec 2 10) "";
                    _mm (Sec.dec 31 100) "Orange" "DRAW" (Sec.dec 5 10) "" ] in
      exists once twice,
        gaps_within_one_frame (Sec.float_of (Sec.dec 2997 100)) pack
        /\ _butt_join_markers pack (Numeric (Sec.dec 2997 100)) = Ok once
        /\ _butt_join_markers once (Numeric (Sec.dec 2997 100)) = Ok twice
        /\ map (fun m => this (dur m)) once
           = [(236438980436951 # 1125899906842624)%Q; (1 # 2)%Q]
        /\ map (fun m => this (dur m)) twice
           = [(3783023686991217 # 18014398509481984)%Q; (1 # 2)%Q]
        /\ twice <> once).
Proof.
  split.
  - eexists. eexists.
    split; [vm_compute; reflexivity|].
    split; [vm_compute; reflexivity|].
    split; [reflexivity|].
    split; [reflexivity|].
    intro E. apply (f_equal (map (fun m => this (dur m)))) in E.
    vm_compute in E. discriminate.
  - intro pack. eexists. eexists.
    split; [split; [|exact I]; intros _; vm_compute; discriminate|].
    split; [vm_compute; reflexivity|].
    split; [vm_compute; reflexivity|].
    split; [reflexivity|].
    split; [reflexivity|].
    intro E. apply (f_equal (map (fun m => this (dur m)))) in E.
    vm_compute in E. discriminate.
Qed.

(** C3, as amended.  Butt-join never repairs an overlap.  It returns a pack
    (whenever the frame rate is not zero) with the number and the offsets
    of the time-sorted input, and it treats a time-adjacent pair in one of
    two ways.  A marker of duration zero, or with no positive gap to its
    successor, is returned as it is; so a pair that overlaps in the input
    overlaps in the output, by as much.  A marker of positive duration
    followed by a positive gap gets the duration
    [cur_d + min(gap, 1.0 / fps)], rounded. *)
Theorem butt_join_repairs_no_overlap markers fps_str :
  (Sec.float_of (fps_or_default fps_str) <> 0 ->
   exists out, _butt_join_markers markers fps_str = Ok out)
  /\ forall out, _butt_join_markers markers fps_str = Ok out ->
     length out = length markers
     /\ forall i a b,
        nth_error (py_sorted by_time markers) i = Some a ->
        nth_error (py_sorted by_time markers) (S i) = Some b ->
        exists a' b',
          nth_error out i = Some a' /\ nth_error out (S i) = Some b'
          /\ t a' = t a /\ t b' = t b
          /\ (Sec.float_of (dur a) <= 0 \/ gap_after a b <= 0 -> a' = a)
          /\ (~ no_overlap a b -> a' = a /\ ~ no_overlap a' b')
          /\ (0 < Sec.float_of (dur a) -> 0 < gap_after a b ->
              dur a'
              = Sec.fadd (Sec.float_of (dur a))
                  (Sec.py_min (gap_after a b)
                     (Sec.fdiv 1 (Sec.float_of (fps_or_default fps_str))))).
Proof.
  rewrite butt_join_spec. split.
  - apply join_adjacent_total.
  - intros out J. split.
    + rewrite (join_adjacent_length _ _ _ J). apply py_sorted_length.
    + intros i a b Ha Hb.
      destruct (join_adjacent_nth _ _ _ _ _ _ J Ha Hb)
        as (a' & b' & Ha' & Hb' & S1 & Et).
      exists a', b'.
      split; [exact Ha'|]. split; [exact Hb'|].
      split; [now apply stretch_keeps in S1|]. split; [exact Et|].
      assert (U : Sec.float_of (dur a) <= 0 \/ gap_after a b <= 0 -> a' = a).
      { intro U. rewrite (stretch_untouched _ a b U) in S1. congruence. }
      split; [exact U|]. split.
      * intro O. assert (E : a' = a)
          by (apply U; right; now apply overlap_leaves_no_gap).
        split; [exact E|]. subst a'. unfold no_overlap in *.
        now rewrite Et.
      * intros D G.
        destruct (stretch_cases (Sec.float_of (fps_or_default fps_str)) a b)
          as [[D' _]|[(_ & G' & _)|(_ & _ & E)]].
        -- exfalso. exact (Qcle_not_lt _ _ D' D).
        -- exfalso. exact (Qcle_not_lt _ _ G' G).
        -- rewrite E in S1.
           destruct (Qc_eq_dec (Sec.float_of (fps_or_default fps_str)) 0);
             [discriminate|].
           injection S1 as <-. reflexivity.
Qed.

(** HOOK ends at 2.99 s and DRAW starts at 3 s: HOOK is stretched to 3 s.
    DRAW runs until 8 s and INTERRUPT #1 starts at 4.5 s: DRAW is returned as
    it is, and the pair still overlaps. *)
Lemma butt_join_repairs_no_overlap_witness :
  let pack := [ _mm (Sec.dec 0 1) "Red" "HOOK" (Sec.dec 299 100) "";
                _mm (Sec.dec 3 1) "Orange" "DRAW" (Sec.dec 5 1) "";
                _mm (Sec.dec 45 10) "Pink" "INTERRUPT #1" (Sec.dec 5 10) "" ] in
  exists out hook draw interrupt,
    _butt_join_markers pack (Numeric (Sec.dec 2997 100)) = Ok out
    /\ nth_error out 0 = Some hook /\ nth_error out 1 = Some draw
    /\ nth_error out 2 = Some interrupt
    /\ this (dur hook) = (3 # 1)%Q
    /\ nth_error pack 1 = Some draw
    /\ ~ no_overlap draw interrupt.
Proof.
  intro pack.
  destruct (butt_join_repairs_no_overlap pack (Numeric (Sec.dec 2997 100)))
    as [Total Pairs].
  destruct Total as [out E]; [vm_compute; discriminate|].
  destruct (Pairs out E) as [_ P].
  edestruct (P 0%nat) as (a' & b' & Ha & Hb & _ & _ & _ & _ & St);
    [reflexivity | reflexivity |].
  edestruct (P 1%nat) as (b'' & c' & Hb2 & Hc & _ & _ & _ & Ov & _);
    [reflexivity | reflexivity |].
  destruct Ov as [Eb Ov]; [vm_compute; intro H; apply H; reflexivity|].
  exists out, a', b'', c'.
  split; [exact E|]. split; [exact Ha|]. split; [exact Hb2|].
  split; [exact Hc|]. split.
  - rewrite St; [vm_compute; reflexivity | vm_compute; reflexivity
                | vm_compute; reflexivity].
  - split; [now rewrite Eb | exact Ov].
Defined.

(** C3, counterexamples.  The money-lane 12 s pack at 29.97 fps: DRAW starts
    at 3.0 s and lasts 5.0 s, INTERRUPT #1 starts at 4.5 s; the joined pack
    keeps both, so the adjacent pair overlaps.  And a stretch can itself
    produce an overlap, in the last binary place: a marker at 0.2 s that
    lasts 0.7 s, followed by one at 0.91 s, is stretched to
    0.7100000000000001 s and then ends after its successor starts. *)
Lemma butt_join_output_overlaps :
  (exists out a b,
     _butt_join_markers MARKERS_12 (Numeric (Sec.dec 2997 100)) = Ok out
     /\ nth_error out 1 = Some a /\ nth_error out 2 = Some b
     /\ name a = "DRAW" /\ name b = "INTERRUPT #1"
     /\ t a < t b
     /\ ~ (t a + dur a <= t b))
  /\ (let a := _mm (Sec.dec 2 10) "Red" "HOOK" (Sec.dec 7 10) "" in
      let b := _mm (Sec.dec 91 100) "Orange" "DRAW" (Sec.dec 5 10) "" in
      exists a',
        _butt_join_markers [a; b] (Numeric (Sec.dec 2997 100)) = Ok [a'; b]
        /\ this (dur a') = (6395111470866105 # 9007199254740992)%Q
        /\ no_overlap a b
        /\ ~ no_overlap a' b).
Proof.
  split.
  - eexists. eexists. eexists.
    split; [vm_compute; reflexivity|].
    split; [reflexivity|]. split; [reflexivity|].
    split; [reflexivity|]. split; [reflexivity|].
    split; [reflexivity|].
    intro H. vm_compute in H. apply H. reflexivity.
  - intros a b. eexists.
    split; [vm_compute; reflexivity|].
    split; [reflexivity|].
    split; [vm_compute; discriminate|].
    intro H. vm_compute in H. apply H. reflexivity.
Qed.

End ButtJoinClaims.

(** ** Title classification *)

Section ClassificationClaims.
Open Scope string_scope.

(** C4, as amended.  A title is excluded as a master when, lower-cased and
    with its dashes normalised, it contains [" money master"] or
    [" master -"], or starts with one of the six master prefixes; such a
    title gets the empty pack, and every master timeline the driver creates
    is of that form. *)
Theorem master_titles_get_no_principle_pack :
  (forall title,
     let t := normalize_title title in
     contains t " money master" = true \/ startswith t "money master" = true
     \/ contains t " master -" = true \/ startswith t "mv master" = true
     \/ startswith t "th master" = true \/ startswith t "fashion master" = true
     \/ startswith t "dil master" = true \/ startswith t "cook-up master" = true ->
     get_principle_markers_for_title title = [])
  /\ Forall (fun title => get_principle_markers_for_title (Some title) = [])
            driver_master_titles.
Proof.
  split.
  - intros title t H. unfold get_principle_markers_for_title.
    fold t. replace (is_master_title t) with true; [reflexivity|].
    symmetry. unfold is_master_title.
    repeat rewrite orb_true_iff. tauto.
  - repeat constructor.
Qed.

Lemma master_titles_witness :
  get_principle_markers_for_title
    (Some "MV Master — 12s — 2160×3840 • 29.97p") = [].
Proof.
  apply (proj1 master_titles_get_no_principle_pack).
  right. right. right. left. reflexivity.
Defined.

(** C4, counterexample.  A name that contains "master" outside those
    patterns is classified by its other keywords. *)
Lemma master_substring_not_excluded :
  contains (lower "Segment — Master Shot") "master" = true
  /\ get_principle_markers_for_title (Some "Segment — Master Shot")
     = PRINCIPLE_PACKS "scenes_segments"
  /\ get_principle_markers_for_title (Some "Segment — Master Shot") <> [].
Proof.
  split; [reflexivity|]. split; [reflexivity|].
  vm_compute. discriminate.
Qed.

(** C7, as amended.  Among titles that are not masters, "selects" and
    "stringout" are tested first and "shotfx" / "shot fx" next, before
    "segment", "interview", "look", "chapter" and "section": whatever else
    such a title contains, it gets the Selects pack, respectively the ShotFX
    pack with its variant.  The timeline "ShotFX — Screen Insert (UI)" of the
    Cook-Ups pillar gets the ShotFX principles followed by the screen-insert
    tips, also when "Section" occurs in its name. *)
Theorem shotfx_and_selects_take_precedence :
  (forall title,
     let t := normalize_title title in
     is_master_title t = false ->
     contains t "selects" = true \/ contains t "stringout" = true ->
     get_principle_markers_for_title title
     = with_variant SELECTS_BASE SELECTS_SPECIFIC_items
                    (_selects_variant_for_title t))
  /\ (forall title,
     let t := normalize_title title in
     is_master_title t = false ->
     contains t "selects" = false -> contains t "stringout" = false ->
     contains t "shotfx" = true \/ contains t "shot fx" = true ->
     get_principle_markers_for_title title
     = with_variant (PRINCIPLE_PACKS "shotfx") SHOTFX_SPECIFIC_items
                    (_shotfx_variant_for_title t))
  /\ get_principle_markers_for_title
       (Some "ShotFX — Screen Insert (UI) — ⏱ 29.97p • 📐 2160×3840")
     = (PRINCIPLE_PACKS "shotfx" ++ SHOTFX_SPECIFIC "screen_insert")%list
  /\ get_principle_markers_for_title
       (Some "ShotFX — Section — Screen Insert (UI)")
     = (PRINCIPLE_PACKS "shotfx" ++ SHOTFX_SPECIFIC "screen_insert")%list.
Proof.
  split; [|split; [|split]].
  - intros title t Hm Hs. unfold get_principle_markers_for_title.
    fold t. rewrite Hm.
    replace (contains t "selects" || contains t "stringout") with true;
      [reflexivity|].
    symmetry. apply orb_true_iff. exact Hs.
  - intros title t Hm Hs1 Hs2 Hx. unfold get_principle_markers_for_title.
    fold t. rewrite Hm, Hs1, Hs2. cbn [orb].
    replace (contains t "shotfx" || contains t "shot fx") with true;
      [reflexivity|].
    symmetry. apply orb_true_iff. exact Hx.
  - reflexivity.
  - reflexivity.
Qed.

Lemma shotfx_precedence_witness :
  get_principle_markers_for_title (Some "Shot FX — Look Segment (UI)")
  = with_variant (PRINCIPLE_PACKS "shotfx") SHOTFX_SPECIFIC_items
      (_shotfx_variant_for_title
         (normalize_title (Some "Shot FX — Look Segment (UI)")))
  /\ get_principle_markers_for_title (Some "LOOK Selects — Rooftop")
  = with_variant SELECTS_BASE SELECTS_SPECIFIC_items
      (_selects_variant_for_title
         (normalize_title (Some "LOOK Selects — Rooftop"))).
Proof.
  destruct shotfx_and_selects_take_precedence as (Hsel & Hfx & _).
  split.
  - apply Hfx; try reflexivity. right. reflexivity.
  - apply Hsel; try reflexivity. left. reflexivity.
Defined.

(** C7, counterexample.  The name "Section — Screen Insert (UI)" contains
    neither "shotfx" nor "shot fx": it falls through to the "section" test
    and gets the generic Cook-Ups pack, not the ShotFX screen-insert one. *)
Lemma section_screen_insert_is_cook_ups :
  contains (normalize_title (Some "Section — Screen Insert (UI)")) "shotfx"
  = false
  /\ contains (normalize_title (Some "Section — Screen Insert (UI)")) "shot fx"
     = false
  /\ get_principle_markers_for_title (Some "Section — Screen Insert (UI)")
     = PRINCIPLE_PACKS "cook_ups"
  /\ get_principle_markers_for_title (Some "Section — Screen Insert (UI)")
     <> (PRINCIPLE_PACKS "shotfx" ++ SHOTFX_SPECIFIC "screen_insert")%list.
Proof.
  split; [reflexivity|]. split; [reflexivity|]. split; [reflexivity|].
  intro E. apply (f_equal (@length Marker)) in E. vm_compute in E.
  discriminate.
Qed.

End ClassificationClaims.

(** ** The seeding path on an arbitrary host *)

Section SeedingFacts.
Variable HState : Type.
Variable respond : HState -> call -> reply * HState.

Let World := World HState.
Let M := M HState.

Lemma bind_run {A B} (m : M A) (k : A -> M B) (w : World) :
  bind m k w = k (fst (m w)) (snd (m w)).
Proof. unfold bind. now destruct (m w). Qed.

Lemma host_call_run c (w : World) :
  host_call respond c w
  = (fst (respond (host w) c),
     mkWorld (snd (respond (host w) c)) (calls w ++ [c]) (stats w)).
Proof. unfold host_call. now destruct (respond (host w) c). Qed.

Lemma issues_ret {A} (a : A) (w : World) : issues (ret a) w [].
Proof. split; simpl; [now rewrite app_nil_r | reflexivity]. Qed.

Lemma issues_host_call c (w : World) : issues (host_call respond c) w [c].
Proof. unfold issues. rewrite host_call_run. split; reflexivity. Qed.

Lemma issues_bind {A B} (m : M A) (k : A -> M B) (w : World) cs1 cs2 :
  issues m w cs1 ->
  issues (k (fst (m w))) (snd (m w)) cs2 ->
  issues (bind m k) w (cs1 ++ cs2).
Proof.
  unfold issues. rewrite bind_run. intros [C1 S1] [C2 S2].
  split; [now rewrite C2, C1, app_assoc | now rewrite S2].
Qed.


Lemma ensure_min_duration_fixed d : (1 <= d)%Z -> ensure_min_duration d = d.
Proof.
  intro H. unfold ensure_min_duration.
  destruct (d =? 0)%Z eqn:E; [apply Z.eqb_eq in E; lia|].
  apply Z.max_r, H.
Qed.

Lemma seed_dur_ge m fps : (1 <= seed_dur m fps)%Z.
Proof.
  unfold seed_dur. destruct (_ <? 1)%Z eqn:E; [lia|].
  now apply Z.ltb_ge in E.
Qed.

(** The except branch makes one or two 5-argument attempts. *)
Lemma add_marker_5arg_issues frame color name note d (w : World) :
  exists cs,
    issues (add_marker_5arg respond frame color name note d) w cs
    /\ Forall (attempt_with frame color name note d) cs.
Proof.
  unfold add_marker_5arg.
  pose proof (issues_host_call (AddMarker5 frame color name note d) w) as H1.
  set (c1 := AddMarker5 frame color name note d) in *.
  assert (A1 : attempt_with frame color name note d c1) by (simpl; auto 10).
  destruct (fst (host_call respond c1 w)) as [ok3|msg] eqn:R.
  - destruct (truthy ok3) eqn:T.
    + exists ([c1] ++ []). split; [|simpl; auto].
      apply issues_bind; [exact H1|]. rewrite R, T. apply issues_ret.
    + destruct (_COLOR_FALLBACK color) as [[|a fb]|] eqn:F.
      * exists ([c1] ++ []). split; [|simpl; auto].
        apply issues_bind; [exact H1|]. rewrite R, T; cbv beta iota. apply issues_ret.
      * set (c2 := AddMarker5 frame (String a fb) name note d).
        exists ([c1] ++ ([c2] ++ [])). split.
        -- apply issues_bind; [exact H1|]. rewrite R, T; cbv beta iota.
           apply issues_bind; [apply issues_host_call|].
           destruct (fst (host_call respond c2 (snd (host_call respond c1 w))));
             apply issues_ret.
        -- cbn [app]. constructor; [exact A1|].
           constructor; [|constructor].
           subst c2. simpl. repeat split; auto.
      * exists ([c1] ++ []). split; [|simpl; auto].
        apply issues_bind; [exact H1|]. rewrite R, T; cbv beta iota. apply issues_ret.
  - exists ([c1] ++ []). split; [|simpl; auto].
    apply issues_bind; [exact H1|]. rewrite R. apply issues_ret.
Qed.

(** [_add_marker_safe] starts with the 6-argument call in the colour it was
    given, with the duration floored at one frame; whatever follows is a
    further attempt for the same marker. *)
Lemma add_marker_safe_issues frame color name note d (w : World) :
  exists rest,
    issues (_add_marker_safe respond frame color name note d) w
      (AddMarker6 frame color name note (ensure_min_duration d) "" :: rest)
    /\ Forall (attempt_with frame color name note (ensure_min_duration d)) rest.
Proof.
  unfold _add_marker_safe.
  set (d' := ensure_min_duration d).
  set (c1 := AddMarker6 frame color name note d' "").
  pose proof (issues_host_call c1 w) as H1.
  destruct (fst (host_call respond c1 w)) as [ok|msg] eqn:R.
  - destruct (truthy ok) eqn:T.
    + exists []. split; [|constructor].
      change [c1] with ([c1] ++ []).
      apply issues_bind; [exact H1|]. rewrite R, T. apply issues_ret.
    + destruct (_COLOR_FALLBACK color) as [[|a fb]|] eqn:F.
      * exists []. split; [|constructor].
        change [c1] with ([c1] ++ []).
        apply issues_bind; [exact H1|]. rewrite R, T; cbv beta iota. apply issues_ret.
      * set (c2 := AddMarker6 frame (String a fb) name note d' "").
        assert (A2 : attempt_with frame color name note d' c2)
          by (simpl; auto 10).
        set (w1 := snd (host_call respond c1 w)).
        destruct (fst (host_call respond c2 w1)) as [ok2|msg2] eqn:R2.
        -- exists ([c2] ++ []). split; [|simpl; auto].
           change (c1 :: [c2] ++ []) with ([c1] ++ ([c2] ++ [])).
           apply issues_bind; [exact H1|]. rewrite R, T; cbv beta iota.
           apply issues_bind; [apply issues_host_call|].
           fold w1 c2. rewrite R2. apply issues_ret.
        -- destruct (add_marker_5arg_issues frame color name note d'
                       (snd (host_call respond c2 w1))) as (cs & I5 & F5).
           exists ([c2] ++ cs). split; [|constructor; auto].
           change (c1 :: [c2] ++ cs) with ([c1] ++ ([c2] ++ cs)).
           apply issues_bind; [exact H1|]. rewrite R, T; cbv beta iota.
           apply issues_bind; [apply issues_host_call|].
           fold w1 c2. rewrite R2. exact I5.
      * exists []. split; [|constructor].
        change [c1] with ([c1] ++ []).
        apply issues_bind; [exact H1|]. rewrite R, T; cbv beta iota. apply issues_ret.
  - destruct (add_marker_5arg_issues frame color name note d'
                (snd (host_call respond c1 w))) as (cs & I5 & F5).
    exists cs. split; [|exact F5].
    change (c1 :: cs) with ([c1] ++ cs).
    apply issues_bind; [exact H1|]. rewrite R. exact I5.
Qed.

Lemma seed_one_issues fps m (w : World) :
  exists cs, issues (seed_one respond fps m) w cs /\ block_of fps m cs.
Proof.
  unfold seed_one.
  destruct (add_marker_safe_issues (_sec_to_frames (t m) fps)
              (seed_color (color m)) (name m) (notes m) (seed_dur m fps) w)
    as (rest & I1 & F1).
  eexists. split; [exact I1|]. exists rest. split; [reflexivity|exact F1].
Qed.

(** The loop makes one block of calls per marker, in the order of the list,
    whatever the outcome of each placement, and counts at most one per
    marker. *)
Lemma seed_loop_issues fps ms : forall added (w : World),
  exists blocks,
    issues (seed_loop respond fps ms added) w (concat blocks)
    /\ Forall2 (block_of fps) ms blocks
    /\ (added <= fst (seed_loop respond fps ms added w)
        <= added + Z.of_nat (length ms))%Z.
Proof.
  induction ms as [|m ms IH]; intros added w.
  - exists []. split; [apply issues_ret|]. split; [constructor|].
    simpl. lia.
  - cbn [seed_loop].
    destruct (seed_one_issues fps m w) as (cs & I1 & B1).
    set (ok := fst (seed_one respond fps m w)) in *.
    set (w1 := snd (seed_one respond fps m w)) in *.
    destruct (IH (if ok then added + 1 else added)%Z w1) as (blocks & I2 & F2 & Bd).
    exists (cs :: blocks). split; [|split].
    + cbn [concat]. apply issues_bind; [exact I1|]. exact I2.
    + constructor; assumption.
    + rewrite bind_run. fold ok w1.
      cbn [length]. destruct ok; lia.
Qed.

Lemma count_markers_issues (w : World) :
  issues (_count_markers respond) w [GetMarkers].
Proof.
  unfold _count_markers.
  change [GetMarkers] with ([GetMarkers] ++ []).
  apply issues_bind; [apply issues_host_call|].
  destruct (fst (host_call respond GetMarkers w)) as [[| | | | |l|l]|msg];
    apply issues_ret.
Qed.

Lemma count_markers_host (w : World) :
  host (snd (_count_markers respond w)) = snd (respond (host w) GetMarkers).
Proof.
  unfold _count_markers. rewrite bind_run, host_call_run. cbn [fst snd].
  destruct (fst (respond (host w) GetMarkers)) as [[| | | | |l|l]|msg];
    reflexivity.
Qed.

Lemma count_markers_value (w : World) :
  fst (_count_markers respond w)
  = match fst (respond (host w) GetMarkers) with
    | Returns (VDict mk) => Z.of_nat (length mk)
    | Returns (VList mk) => Z.of_nat (length mk)
    | _ => 0%Z
    end.
Proof.
  unfold _count_markers. rewrite bind_run, host_call_run. cbn [fst snd].
  destruct (fst (respond (host w) GetMarkers)) as [[| | | | |l|l]|msg];
    reflexivity.
Qed.

(** The guard, taken. *)
Lemma seeding_skip fps_str markers force (w : World) :
  ((fst (_count_markers respond w) >? 0)%Z && negb force) = true ->
  add_markers_to_timeline_if_empty respond fps_str markers force w
  = (Ok 0%Z, snd (_count_markers respond w)).
Proof.
  intro G. unfold add_markers_to_timeline_if_empty.
  rewrite bind_run, G. reflexivity.
Qed.

(** The guard, passed: the name is read for the log line and the pack is
    placed furthest marker first. *)
Lemma seeding_pass fps_str markers force (w : World) :
  ((fst (_count_markers respond w) >? 0)%Z && negb force) = false ->
  let run := add_markers_to_timeline_if_empty respond fps_str markers force in
  stats (snd (run w)) = stats w
  /\ ((exists msg,
         fst (run w) = Raised (HostException msg)
         /\ calls (snd (run w)) = calls w ++ [GetMarkers; GetName])
      \/ (exists added blocks,
         fst (run w) = Ok added
         /\ calls (snd (run w))
            = calls w ++ GetMarkers :: GetName :: concat blocks
         /\ Forall2 (block_of (fps_or_default fps_str))
                    (py_sorted by_time_desc markers) blocks
         /\ (0 <= added <= Z.of_nat (length markers))%Z)).
Proof.
  intros G run. subst run. unfold add_markers_to_timeline_if_empty.
  rewrite bind_run, G.
  destruct (count_markers_issues w) as [C0 S0].
  set (w0 := snd (_count_markers respond w)) in *.
  destruct (issues_host_call GetName w0) as [C1 S1].
  set (w1 := snd (host_call respond GetName w0)) in *.
  assert (Cw1 : calls w1 = calls w ++ [GetMarkers; GetName])
    by (rewrite C1, C0, <- app_assoc; reflexivity).
  assert (Sw1 : stats w1 = stats w) by congruence.
  destruct (length markers =? 0)%nat eqn:L.
  - rewrite bind_run. fold w1.
    destruct (fst (host_call respond GetName w0)) as [v|msg].
    + cbn [ret fst snd]. split; [exact Sw1|]. right.
      exists 0%Z, []. apply Nat.eqb_eq in L.
      destruct markers; [|discriminate].
      cbn [concat py_sorted length].
      repeat split; auto; try lia; try constructor.
    + cbn [ret fst snd]. split; [exact Sw1|]. left. eauto.
  - rewrite bind_run. fold w1.
    destruct (fst (host_call respond GetName w0)) as [v|msg].
    + rewrite bind_run. cbn [ret fst snd].
      destruct (seed_loop_issues (fps_or_default fps_str)
                  (py_sorted by_time_desc markers) 0%Z w1)
        as (blocks & [C2 S2] & F2 & Bd).
      split; [congruence|]. right.
      eexists. exists blocks. split; [reflexivity|]. split; [|split].
      * rewrite C2, Cw1, <- app_assoc. reflexivity.
      * exact F2.
      * rewrite py_sorted_length in Bd. lia.
    + cbn [ret fst snd]. split; [exact Sw1|]. left. eauto.
Qed.

(** Every call of a block is an attempt for the block's marker. *)
Lemma block_calls fps m cs c :
  block_of fps m cs -> In c cs -> retry_of fps m c.
Proof.
  intros (rest & -> & F) [<-|Hin].
  - unfold retry_of, first_attempt. simpl. auto 10.
  - rewrite Forall_forall in F. auto.
Qed.

Lemma blocks_calls fps ms blocks c :
  Forall2 (block_of fps) ms blocks -> In c (concat blocks) ->
  exists m, In m ms /\ retry_of fps m c.
Proof.
  induction 1 as [|m cs ms blocks B F IH]; cbn [concat]; [intros []|].
  rewrite in_app_iff. intros [Hc|Hc].
  - exists m. split; [now left|]. eapply block_calls; eauto.
  - destruct (IH Hc) as (m' & Hin & R). exists m'. split; [now right|exact R].
Qed.

Lemma blocks_first fps ms blocks m :
  Forall2 (block_of fps) ms blocks -> In m ms ->
  In (first_attempt fps m) (concat blocks).
Proof.
  induction 1 as [|m' cs ms blocks B F IH]; [intros []|].
  cbn [concat]. rewrite in_app_iff. intros [->|Hin].
  - left. destruct B as (rest & -> & _). now left.
  - right. auto.
Qed.

Lemma retry_is_marker_add fps m c : retry_of fps m c -> is_marker_add c = true.
Proof. destruct c; simpl; auto; intros H; contradiction. Qed.


End SeedingFacts.

(** ** Seeding: the claims *)

Section SeedingClaims.
Variable HState : Type.
Variable respond : HState -> call -> reply * HState.

Let seed := add_markers_to_timeline_if_empty respond.

Lemma marker_adds_app cs1 cs2 :
  marker_adds (cs1 ++ cs2) = marker_adds cs1 ++ marker_adds cs2.
Proof. apply filter_app. Qed.

Lemma guard_of_count fps_str markers (w : World HState) :
  (0 < fst (_count_markers respond w))%Z ->
  seed fps_str markers false w = (Ok 0%Z, snd (_count_markers respond w)).
Proof.
  intro H. apply seeding_skip.
  apply andb_true_iff. split; [now apply Z.gtb_lt | reflexivity].
Qed.

(** C1.  On a timeline that reports at least one marker, seeding without
    [force] returns 0 and sends the host nothing but the enumeration query:
    no marker-add call, no change to the statistics.  Hence, when the first
    seeding leaves a nonzero reported count, seeding twice in succession
    issues the same marker-add calls as seeding once, and the timeline only
    receives one more enumeration query. *)
Theorem seeding_is_idempotent :
  (forall fps_str markers (w : World HState),
     (0 < fst (_count_markers respond w))%Z ->
     fst (seed fps_str markers false w) = Ok 0%Z
     /\ calls (snd (seed fps_str markers false w)) = calls w ++ [GetMarkers]
     /\ marker_adds (calls (snd (seed fps_str markers false w)))
        = marker_adds (calls w)
     /\ host (snd (seed fps_str markers false w))
        = snd (respond (host w) GetMarkers)
     /\ stats (snd (seed fps_str markers false w)) = stats w)
  /\ (forall fps_str markers (w0 : World HState),
     let once := snd (seed fps_str markers false w0) in
     let twice := snd (seed_twice respond fps_str markers w0) in
     (0 < fst (_count_markers respond once))%Z ->
     fst (seed_twice respond fps_str markers w0) = Ok 0%Z
     /\ marker_adds (calls twice) = marker_adds (calls once)
     /\ host twice = snd (respond (host once) GetMarkers)).
Proof.
  assert (One : forall fps_str markers (w : World HState),
     (0 < fst (_count_markers respond w))%Z ->
     fst (seed fps_str markers false w) = Ok 0%Z
     /\ calls (snd (seed fps_str markers false w)) = calls w ++ [GetMarkers]
     /\ marker_adds (calls (snd (seed fps_str markers false w)))
        = marker_adds (calls w)
     /\ host (snd (seed fps_str markers false w))
        = snd (respond (host w) GetMarkers)
     /\ stats (snd (seed fps_str markers false w)) = stats w).
  { intros fps_str markers w H.
    rewrite (guard_of_count fps_str markers w H). cbn [fst snd].
    destruct (count_markers_issues _ respond w) as [C S].
    repeat split; auto.
    - rewrite C, marker_adds_app. cbn. apply app_nil_r.
    - apply count_markers_host. }
  split; [exact One|].
  intros fps_str markers w0 once twice H.
  assert (E : seed_twice respond fps_str markers w0
              = seed fps_str markers false once).
  { unfold seed_twice. rewrite bind_run. reflexivity. }
  subst twice. rewrite E.
  destruct (One fps_str markers once H) as (R & _ & A & Hh & _).
  auto.
Qed.

(** What a seeding run sends to the host, in either case of the guard. *)
Lemma seeding_calls fps_str markers force (w : World HState) :
  stats (snd (seed fps_str markers force w)) = stats w
  /\ exists cs,
       calls (snd (seed fps_str markers force w)) = calls w ++ cs
       /\ forall c, In c cs -> is_marker_add c = true ->
          exists m, In m markers /\ retry_of (fps_or_default fps_str) m c.
Proof.
  destruct ((fst (_count_markers respond w) >? 0)%Z && negb force) eqn:G.
  - unfold seed. rewrite (seeding_skip _ respond fps_str markers force w G).
    cbn [fst snd]. destruct (count_markers_issues _ respond w) as [C S].
    split; [exact S|]. exists [GetMarkers]. split; [exact C|].
    intros c [<-|[]]. discriminate.
  - destruct (seeding_pass _ respond fps_str markers force w G) as [S Hc].
    fold seed in S, Hc. split; [exact S|].
    destruct Hc as [(msg & _ & C)|(added & blocks & _ & C & F & _)].
    + exists [GetMarkers; GetName]. split; [exact C|].
      intros c [<-|[<-|[]]]; discriminate.
    + exists (GetMarkers :: GetName :: concat blocks). split; [exact C|].
      intros c [<-|[<-|Hin]]; try discriminate. intros _.
      destruct (blocks_calls _ _ _ _ F Hin) as (m & Hm & R).
      exists m. split; [|exact R].
      now apply (py_sorted_In _ by_time_desc m markers).
Qed.

(** C5, as amended.  A failed placement is recorded nowhere: the seeding
    path leaves the statistics of the run, hence the error list and its
    count, as they were.  The failure is only left out of the number
    returned, and the loop goes on: once the guard is passed and the name has
    been read, every marker of the pack gets its block of attempts, furthest
    first, whatever the earlier placements returned. *)
Theorem marker_failure_is_not_recorded :
  (forall fps_str markers force (w : World HState),
     stats (snd (seed fps_str markers force w)) = stats w
     /\ error_count (stats (snd (seed fps_str markers force w)))
        = error_count (stats w))
  /\ (forall fps m ms added (w : World HState),
     fst (seed_one respond fps m w) = false ->
     stats (snd (seed_one respond fps m w)) = stats w
     /\ seed_loop respond fps (m :: ms) added w
        = seed_loop respond fps ms added (snd (seed_one respond fps m w)))
  /\ (forall fps_str markers force (w : World HState) added,
     ((fst (_count_markers respond w) >? 0)%Z && negb force) = false ->
     fst (seed fps_str markers force w) = Ok added ->
     (0 <= added <= Z.of_nat (length markers))%Z
     /\ exists blocks,
          calls (snd (seed fps_str markers force w))
          = calls w ++ GetMarkers :: GetName :: concat blocks
          /\ Forall2 (block_of (fps_or_default fps_str))
                     (py_sorted by_time_desc markers) blocks).
Proof.
  split; [|split].
  - intros fps_str markers force w.
    destruct (seeding_calls fps_str markers force w) as [S _].
    split; [exact S | now rewrite S].
  - intros fps m ms added w Hf. split.
    + destruct (seed_one_issues _ respond fps m w) as (cs & [_ S] & _).
      exact S.
    + cbn [seed_loop]. rewrite bind_run, Hf. reflexivity.
  - intros fps_str markers force w added G R.
    destruct (seeding_pass _ respond fps_str markers force w G) as [_ Hc].
    fold seed in Hc.
    destruct Hc as [(msg & R' & _)|(added' & blocks & R' & C & F & Bd)];
      rewrite R' in R; [discriminate|].
    injection R as <-. split; [exact Bd|]. exists blocks. auto.
Qed.


(** C9.  A timeline whose marker enumeration raises, is missing, or answers
    with something that is neither a dict nor a list counts as having no
    marker.  With a count of zero the guard does not apply: seeding without
    [force] is the very run that seeding with [force] is, and once
    [GetName], called for the log line, has answered, it makes the calls of
    a seeding run, a block for every marker of the pack, the furthest
    first, each block starting with the [AddMarker] call for its marker.
    (If [GetName] raises, that exception ends the run before the first
    marker.)  The count is positive only when the host answers with a
    non-empty dict or list. *)
Theorem count_markers_fails_open :
  (forall (w : World HState),
     (forall mk, fst (respond (host w) GetMarkers) <> Returns (VDict mk)) ->
     (forall mk, fst (respond (host w) GetMarkers) <> Returns (VList mk)) ->
     fst (_count_markers respond w) = 0%Z)
  /\ (forall fps_str markers (w : World HState),
     fst (_count_markers respond w) = 0%Z ->
     seed fps_str markers false w = seed fps_str markers true w)
  /\ (forall fps_str markers (w : World HState) v,
     fst (_count_markers respond w) = 0%Z ->
     fst (respond (snd (respond (host w) GetMarkers)) GetName) = Returns v ->
     exists added blocks,
       fst (seed fps_str markers false w) = Ok added
       /\ calls (snd (seed fps_str markers false w))
          = calls w ++ GetMarkers :: GetName :: concat blocks
       /\ Forall2 (block_of (fps_or_default fps_str))
                  (py_sorted by_time_desc markers) blocks)
  /\ (forall fps_str markers (w : World HState) msg,
     fst (_count_markers respond w) = 0%Z ->
     fst (respond (snd (respond (host w) GetMarkers)) GetName) = Raises msg ->
     fst (seed fps_str markers false w) = Raised (HostException msg)
     /\ calls (snd (seed fps_str markers false w))
        = calls w ++ [GetMarkers; GetName])
  /\ (forall (w : World HState),
     (0 < fst (_count_markers respond w))%Z <->
     (exists kv mk,
        fst (respond (host w) GetMarkers) = Returns (VDict (kv :: mk)))
     \/ (exists v mk,
        fst (respond (host w) GetMarkers) = Returns (VList (v :: mk)))).
Proof.
  assert (Name : forall fps_str markers (w : World HState),
            fst (_count_markers respond w) = 0%Z ->
            match fst (respond (snd (respond (host w) GetMarkers)) GetName)
            with
            | Returns _ =>
                exists added blocks,
                  fst (seed fps_str markers false w) = Ok added
                  /\ calls (snd (seed fps_str markers false w))
                     = calls w ++ GetMarkers :: GetName :: concat blocks
                  /\ Forall2 (block_of (fps_or_default fps_str))
                             (py_sorted by_time_desc markers) blocks
            | Raises msg =>
                fst (seed fps_str markers false w)
                = Raised (HostException msg)
                /\ calls (snd (seed fps_str markers false w))
                   = calls w ++ [GetMarkers; GetName]
            end).
  { intros fps_str markers w Z0.
    assert (G : ((fst (_count_markers respond w) >? 0)%Z && negb false)
                = false) by (rewrite Z0; reflexivity).
    destruct (seeding_pass _ respond fps_str markers false w G) as [_ Hc].
    fold seed in Hc.
    assert (R : match fst (respond (snd (respond (host w) GetMarkers))
                             GetName) with
                | Returns _ => exists a, fst (seed fps_str markers false w)
                                         = Ok a
                | Raises msg => fst (seed fps_str markers false w)
                                = Raised (HostException msg)
                end).
    { unfold seed, add_markers_to_timeline_if_empty.
      rewrite bind_run, G.
      rewrite <- (count_markers_host _ respond w).
      set (w0 := snd (_count_markers respond w)).
      destruct (length markers =? 0)%nat.
      - rewrite bind_run, host_call_run. cbn [fst snd].
        destruct (fst (respond (host w0) GetName)); cbn [ret fst]; eauto.
      - rewrite bind_run, host_call_run. cbn [fst snd].
        destruct (fst (respond (host w0) GetName)); [|reflexivity].
        rewrite bind_run. cbn [ret fst]. eauto. }
    destruct (fst (respond (snd (respond (host w) GetMarkers)) GetName))
      as [v|msg].
    - destruct R as [a Ra].
      destruct Hc as [(msg & R' & _)|(added & blocks & R' & C & F & _)];
        [rewrite R' in Ra; discriminate|].
      exists added, blocks. auto.
    - destruct Hc as [(msg' & R' & C)|(added & blocks & R' & _)];
        [|rewrite R' in R; discriminate].
      split; [exact R | exact C]. }
  split; [|split; [|split; [|split]]].
  - intros w Hd Hl. rewrite count_markers_value.
    destruct (fst (respond (host w) GetMarkers)) as [[| | | | |l|l]|msg];
      try reflexivity.
    + exfalso. exact (Hl l eq_refl).
    + exfalso. exact (Hd l eq_refl).
  - intros fps_str markers w Z0.
    unfold seed, add_markers_to_timeline_if_empty.
    rewrite !bind_run, Z0. reflexivity.
  - intros fps_str markers w v Z0 Nm.
    pose proof (Name fps_str markers w Z0) as K. now rewrite Nm in K.
  - intros fps_str markers w msg Z0 Nm.
    pose proof (Name fps_str markers w Z0) as K. now rewrite Nm in K.
  - intro w. rewrite count_markers_value.
    destruct (fst (respond (host w) GetMarkers)) as [[| | | | |l|l]|msg];
      try (split; [intro H; exfalso; lia
                  |intros [(? & ? & E)|(? & ? & E)]; discriminate]).
    + destruct l as [|v l].
      * split; [intro H; exfalso; cbn in H; lia
               |intros [(? & ? & E)|(? & ? & E)]; discriminate].
      * split; [intros _; right; eauto | intros _; cbn [length]; lia].
    + destruct l as [|kv l].
      * split; [intro H; exfalso; cbn in H; lia
               |intros [(? & ? & E)|(? & ? & E)]; discriminate].
      * split; [intros _; left; eauto | intros _; cbn [length]; lia].
Qed.

(** C10.  The colour handed to the host for a marker is the marker's own
    when it is in the supported set; otherwise its declared fallback
    (Magenta becomes Pink), and Red when it has none.  In a seeding run the
    first call made for each marker carries that colour. *)
Theorem seeding_color_is_normalized :
  (forall c, list_mem c _SUPPORTED_MARKER_COLORS = true -> seed_color c = c)
  /\ (forall c fb,
        list_mem c _SUPPORTED_MARKER_COLORS = false ->
        _COLOR_FALLBACK c = Some fb -> seed_color c = fb)
  /\ seed_color "Magenta" = "Pink"
  /\ (forall c,
        list_mem c _SUPPORTED_MARKER_COLORS = false ->
        _COLOR_FALLBACK c = None -> seed_color c = "Red")
  /\ (forall fps_str markers force (w : World HState) added,
     ((fst (_count_markers respond w) >? 0)%Z && negb force) = false ->
     fst (seed fps_str markers force w) = Ok added ->
     exists blocks,
       calls (snd (seed fps_str markers force w))
       = calls w ++ GetMarkers :: GetName :: concat blocks
       /\ Forall2
            (fun m block =>
               exists rest,
                 block
                 = AddMarker6
                     (_sec_to_frames (t m) (fps_or_default fps_str))
                     (seed_color (color m)) (name m) (notes m)
                     (ensure_min_duration
                        (seed_dur m (fps_or_default fps_str))) ""
                   :: rest)
            (py_sorted by_time_desc markers) blocks).
Proof.
  split; [|split; [|split; [|split]]].
  - intros c H. unfold seed_color. now rewrite H.
  - intros c fb H F. unfold seed_color. now rewrite H, F.
  - reflexivity.
  - intros c H F. unfold seed_color. now rewrite H, F.
  - intros fps_str markers force w added G R.
    destruct (seeding_pass _ respond fps_str markers force w G) as [_ Hc].
    fold seed in Hc.
    destruct Hc as [(msg & R' & _)|(added' & blocks & R' & C & F & Bd)];
      rewrite R' in R; [discriminate|].
    exists blocks. split; [exact C|].
    clear - F. induction F as [|m b ms bs B F IH]; constructor; auto.
    destruct B as (rest & -> & _). exists rest. reflexivity.
Qed.

End SeedingClaims.

(** The studio timeline takes the six markers of the 12 s pack; a second
    seeding adds none. *)
Lemma seeding_is_idempotent_witness :
  fst (seed_twice mem_respond FPS MARKERS_12 (mem_world studio_timeline))
  = Ok 0%Z
  /\ marker_adds
       (calls (snd (seed_twice mem_respond FPS MARKERS_12
                      (mem_world studio_timeline))))
     = marker_adds
         (calls (snd (add_markers_to_timeline_if_empty mem_respond FPS
                        MARKERS_12 false (mem_world studio_timeline))))
  /\ host (snd (seed_twice mem_respond FPS MARKERS_12
                  (mem_world studio_timeline)))
     = snd (mem_respond
              (host (snd (add_markers_to_timeline_if_empty mem_respond FPS
                            MARKERS_12 false (mem_world studio_timeline))))
              GetMarkers).
Proof.
  apply (proj2 (seeding_is_idempotent MemTimeline mem_respond)).
  vm_compute. reflexivity.
Defined.


(** On an empty timeline the host refuses all six markers of the 12 s pack
    (seven calls, DRAW being retried in Yellow); the run returns 0. *)
Lemma marker_failure_is_not_recorded_witness :
  (0 <= 0 <= Z.of_nat (length MARKERS_12))%Z
  /\ exists blocks,
       calls (snd (add_markers_to_timeline_if_empty mem_respond FPS
                     MARKERS_12 false (mem_world empty_timeline)))
       = calls (mem_world empty_timeline)
         ++ GetMarkers :: GetName :: concat blocks
       /\ Forall2 (block_of (fps_or_default FPS))
                  (py_sorted by_time_desc MARKERS_12) blocks.
Proof.
  apply (proj2 (proj2 (marker_failure_is_not_recorded MemTimeline mem_respond))
           FPS MARKERS_12 false (mem_world empty_timeline) 0%Z).
  - vm_compute. reflexivity.
  - vm_compute. reflexivity.
Defined.

(** C5, counterexample.  All six placements fail on the empty timeline, and
    the error list of the run is still empty: the final error count is 0. *)
Lemma failed_markers_leave_no_error :
  let w' := snd (add_markers_to_timeline_if_empty mem_respond FPS MARKERS_12
                   false (mem_world empty_timeline)) in
  fst (add_markers_to_timeline_if_empty mem_respond FPS MARKERS_12 false
         (mem_world empty_timeline)) = Ok 0%Z
  /\ length (marker_adds (calls w')) = 7%nat
  /\ mt_markers (host w') = []
  /\ errors (stats w') = []
  /\ error_count (stats w') = 0%Z.
Proof. vm_compute. repeat split. Qed.


(** The opaque timeline carries a marker but cannot enumerate: its count is
    zero and it is seeded again, a block of calls for each of the six
    markers of the pack. *)
Lemma count_markers_fails_open_witness :
  fst (_count_markers mem_respond (mem_world opaque_timeline)) = 0%Z
  /\ exists added blocks,
       fst (add_markers_to_timeline_if_empty mem_respond FPS MARKERS_12 false
              (mem_world opaque_timeline)) = Ok added
       /\ calls (snd (add_markers_to_timeline_if_empty mem_respond FPS
                        MARKERS_12 false (mem_world opaque_timeline)))
          = calls (mem_world opaque_timeline)
            ++ GetMarkers :: GetName :: concat blocks
       /\ Forall2 (block_of (fps_or_default FPS))
                  (py_sorted by_time_desc MARKERS_12) blocks.
Proof.
  destruct (count_markers_fails_open MemTimeline mem_respond)
    as (H1 & _ & H3 & _).
  assert (Z0 : fst (_count_markers mem_respond (mem_world opaque_timeline))
               = 0%Z).
  { apply H1; intros mk; vm_compute; discriminate. }
  split; [exact Z0|].
  apply (H3 FPS MARKERS_12 (mem_world opaque_timeline)
            (VStr (mt_name opaque_timeline)) Z0).
  reflexivity.
Defined.

Lemma seeding_color_witness :
  seed_color "Green" = "Green"
  /\ seed_color "Magenta" = "Pink"
  /\ seed_color "Teal" = "Red"
  /\ exists blocks,
       calls (snd (add_markers_to_timeline_if_empty mem_respond FPS
                     MARKERS_12 false (mem_world studio_timeline)))
       = calls (mem_world studio_timeline)
         ++ GetMarkers :: GetName :: concat blocks
       /\ Forall2
            (fun m block =>
               exists rest,
                 block
                 = AddMarker6 (_sec_to_frames (t m) (fps_or_default FPS))
                     (seed_color (color m)) (name m) (notes m)
                     (ensure_min_duration (seed_dur m (fps_or_default FPS)))
                     ""
                   :: rest)
            (py_sorted by_time_desc MARKERS_12) blocks.
Proof.
  destruct (seeding_color_is_normalized MemTimeline mem_respond)
    as (H1 & H2 & _ & H4 & H5).
  split; [apply H1; reflexivity|].
  split; [apply (H2 "Magenta" "Pink"); reflexivity|].
  split; [apply H4; reflexivity|].
  apply (H5 FPS MARKERS_12 false (mem_world studio_timeline) 6%Z).
  - vm_compute. reflexivity.
  - vm_compute. reflexivity.
Defined.

(** ** Tracks *)

Section TrackFacts.
Variable HState : Type.
Variable respond : HState -> call -> reply * HState.
Variable int_of_text : string -> option Z.

Let World := World HState.
Let M := M HState.

Lemma host_after_app h cs1 cs2 :
  host_after respond h (cs1 ++ cs2)
  = host_after respond (host_after respond h cs1) cs2.
Proof. unfold host_after. apply fold_left_app. Qed.

Lemma drives_ret {A} (a : A) (w : World) : drives respond (ret a) w [].
Proof. split; simpl; [now rewrite app_nil_r | reflexivity]. Qed.

Lemma drives_host_call c (w : World) :
  drives respond (host_call respond c) w [c].
Proof. unfold drives. rewrite host_call_run. split; reflexivity. Qed.

Lemma drives_when_stats b f (w : World) :
  drives respond (when_stats b f) w [].
Proof.
  destruct b; split; simpl; try reflexivity; now rewrite app_nil_r.
Qed.

Lemma drives_bind {A B} (m : M A) (k : A -> M B) (w : World) cs1 cs2 :
  drives respond m w cs1 ->
  drives respond (k (fst (m w))) (snd (m w)) cs2 ->
  drives respond (bind m k) w (cs1 ++ cs2).
Proof.
  unfold drives. rewrite bind_run. intros [C1 H1] [C2 H2].
  split; [now rewrite C2, C1, app_assoc|].
  now rewrite H2, H1, host_after_app.
Qed.

Lemma track_count_or_zero_drives kind (w : World) :
  drives respond (track_count_or_zero respond int_of_text kind) w
         [GetTrackCount kind].
Proof.
  unfold track_count_or_zero.
  change [GetTrackCount kind] with ([GetTrackCount kind] ++ []).
  apply drives_bind; [apply drives_host_call|].
  destruct (fst (host_call respond (GetTrackCount kind) w));
    apply drives_ret.
Qed.

Lemma add_one_track_drives kind stats_ref (w : World) :
  drives respond (add_one_track respond kind stats_ref) w [AddTrack kind].
Proof.
  unfold add_one_track.
  change [AddTrack kind] with ([AddTrack kind] ++ []).
  apply drives_bind; [apply drives_host_call|].
  destruct (fst (host_call respond (AddTrack kind) w));
    apply drives_when_stats.
Qed.

Lemma repeat_add_drives kind stats_ref n : forall (w : World),
  drives respond (repeat_m n (add_one_track respond kind stats_ref)) w
         (repeat (AddTrack kind) n).
Proof.
  induction n as [|n IH]; intro w; [apply drives_ret|].
  cbn [repeat_m repeat].
  change (AddTrack kind :: repeat (AddTrack kind) n)
    with ([AddTrack kind] ++ repeat (AddTrack kind) n).
  apply drives_bind; [apply add_one_track_drives | apply IH].
Qed.

Lemma name_tracks_drives kind target : forall i (w : World),
  drives respond (name_tracks respond kind i target) w
         (rename_calls kind i target).
Proof.
  induction target as [|label target IH]; intros i w; [apply drives_ret|].
  cbn [name_tracks rename_calls].
  change (SetTrackName kind i label :: rename_calls kind (i + 1) target)
    with ([SetTrackName kind i label] ++ rename_calls kind (i + 1) target).
  apply drives_bind; [apply drives_host_call | apply IH].
Qed.

(** The subtitle step asks for the count and, at zero, adds one track and
    names it. *)
Lemma ensure_subtitle_drives stats_ref (w : World) :
  exists cs,
    drives respond (ensure_subtitle_track respond int_of_text stats_ref) w
           (GetTrackCount "subtitle" :: cs)
    /\ (cs = [] \/ cs = [AddTrack "subtitle"]
        \/ cs = [AddTrack "subtitle";
                 SetTrackName "subtitle" 1 "CC | English"])
    /\ (fst (track_count_or_zero respond int_of_text "subtitle" w) <> 0%Z ->
        cs = []).
Proof.
  unfold ensure_subtitle_track.
  pose proof (track_count_or_zero_drives "subtitle" w) as D0.
  set (subcnt := fst (track_count_or_zero respond int_of_text "subtitle" w)).
  set (w0 := snd (track_count_or_zero respond int_of_text "subtitle" w)).
  destruct (subcnt =? 0)%Z eqn:E.
  - set (w1 := snd (host_call respond (AddTrack "subtitle") w0)).
    destruct (fst (host_call respond (AddTrack "subtitle") w0))
      as [v1|msg1] eqn:R1.
    + exists [AddTrack "subtitle"; SetTrackName "subtitle" 1 "CC | English"].
      split; [|split; [auto|]].
      * change (GetTrackCount "subtitle"
                :: [AddTrack "subtitle";
                    SetTrackName "subtitle" 1 "CC | English"])
          with ([GetTrackCount "subtitle"]
                ++ ([AddTrack "subtitle"]
                    ++ ([SetTrackName "subtitle" 1 "CC | English"] ++ []))).
        apply drives_bind; [exact D0|]. fold subcnt w0. rewrite E.
        apply drives_bind; [apply drives_host_call|]. rewrite R1.
        apply drives_bind; [apply drives_host_call|].
        destruct (fst (host_call respond
                         (SetTrackName "subtitle" 1 "CC | English") _));
          [apply drives_when_stats | apply drives_ret].
      * intro N. apply Z.eqb_eq in E. contradiction.
    + exists [AddTrack "subtitle"]. split; [|split; [auto|]].
      * change (GetTrackCount "subtitle" :: [AddTrack "subtitle"])
          with ([GetTrackCount "subtitle"] ++ ([AddTrack "subtitle"] ++ [])).
        apply drives_bind; [exact D0|]. fold subcnt w0. rewrite E.
        apply drives_bind; [apply drives_host_call|]. rewrite R1.
        apply drives_ret.
      * intro N. apply Z.eqb_eq in E. contradiction.
  - exists []. split; [|split; [auto|reflexivity]].
    change [GetTrackCount "subtitle"] with ([GetTrackCount "subtitle"] ++ []).
    apply drives_bind; [exact D0|]. fold subcnt w0. rewrite E.
    apply drives_ret.
Qed.

(** The calls of [ensure_tracks_named]: the count, the missing tracks, the
    names and, for a kind other than video, the subtitle step. *)
Lemma ensure_tracks_named_drives kind tb lr stats_ref (w : World) :
  let target := track_target kind tb lr in
  let have := fst (track_count_or_zero respond int_of_text kind w) in
  let need := (Z.of_nat (length target) - have)%Z in
  exists tail,
    drives respond
      (ensure_tracks_named respond int_of_text kind tb lr stats_ref) w
      (GetTrackCount kind
       :: repeat (AddTrack kind) (Z.to_nat (Z.max 0 need)) ++ tail)
    /\ (if String.eqb kind "video"
        then tail = rename_calls "video" 1 target
        else exists sub,
            tail = rename_calls "audio" 1 target
                   ++ GetTrackCount "subtitle" :: sub
            /\ (sub = [] \/ sub = [AddTrack "subtitle"]
                \/ sub = [AddTrack "subtitle";
                          SetTrackName "subtitle" 1 "CC | English"])).
Proof.
  intros target have need. unfold ensure_tracks_named.
  fold target.
  pose proof (track_count_or_zero_drives kind w) as D0.
  fold have in D0 |- *.
  set (w0 := snd (track_count_or_zero respond int_of_text kind w)).
  set (n := Z.to_nat (Z.max 0 need)).
  pose proof (repeat_add_drives kind stats_ref n w0) as D1.
  set (w1 := snd (repeat_m n (add_one_track respond kind stats_ref) w0)) in *.
  destruct (String.eqb kind "video") eqn:V.
  - exists (rename_calls "video" 1 target). split; [|reflexivity].
    change (GetTrackCount kind :: repeat (AddTrack kind) n
                                  ++ rename_calls "video" 1 target)
      with ([GetTrackCount kind]
            ++ (repeat (AddTrack kind) n ++ rename_calls "video" 1 target)).
    apply drives_bind; [exact D0|]. fold have w0 need n.
    apply drives_bind; [exact D1|]. apply name_tracks_drives.
  - pose proof (name_tracks_drives "audio" target 1 w1) as D2.
    destruct (ensure_subtitle_drives stats_ref
                (snd (name_tracks respond "audio" 1 target w1)))
      as (sub & D3 & Hsub & _).
    exists (rename_calls "audio" 1 target ++ GetTrackCount "subtitle" :: sub).
    split; [|exists sub; auto].
    change (GetTrackCount kind
            :: repeat (AddTrack kind) n
               ++ rename_calls "audio" 1 target
               ++ GetTrackCount "subtitle" :: sub)
      with ([GetTrackCount kind]
            ++ (repeat (AddTrack kind) n
                ++ (rename_calls "audio" 1 target
                    ++ GetTrackCount "subtitle" :: sub))).
    apply drives_bind; [exact D0|]. fold have w0 need n.
    apply drives_bind; [exact D1|]. fold w1.
    apply drives_bind; [exact D2|]. exact D3.
Qed.

Lemma rename_calls_keep kind labels k : forall i,
  Forall (fun c => is_track_removal c = false /\ changes_count c k = false)
         (rename_calls kind i labels).
Proof.
  induction labels as [|l labels IH]; intro i; constructor.
  - split; reflexivity.
  - apply IH.
Qed.

Lemma repeat_add_no_removal kind n :
  Forall (fun c => is_track_removal c = false) (repeat (AddTrack kind) n).
Proof. induction n; constructor; auto. Qed.

(** No call of [ensure_tracks_named] removes a track. *)
Lemma ensure_tracks_named_no_removal kind tb lr stats_ref (w : World) :
  exists cs,
    drives respond
      (ensure_tracks_named respond int_of_text kind tb lr stats_ref) w cs
    /\ Forall (fun c => is_track_removal c = false) cs.
Proof.
  destruct (ensure_tracks_named_drives kind tb lr stats_ref w)
    as (tail & D & Ht).
  eexists. split; [exact D|].
  constructor; [reflexivity|]. apply Forall_app. split.
  - apply repeat_add_no_removal.
  - assert (R : forall kd, Forall (fun c => is_track_removal c = false)
                  (rename_calls kd 1 (track_target kind tb lr))).
    { intro kd. eapply Forall_impl;
        [|apply (rename_calls_keep kd _ kind 1%Z)].
      intros c [H _]. exact H. }
    destruct (String.eqb kind "video").
    + subst tail. apply R.
    + destruct Ht as (sub & -> & Hsub).
      apply Forall_app. split; [apply R|].
      constructor; [reflexivity|].
      destruct Hsub as [ -> | [ -> | -> ] ]; repeat constructor.
Qed.

Section TrackLaws.
(** The number of tracks of each kind on a timeline, and what the host is
    assumed to do to it. *)
Variable track_count : HState -> string -> Z.

(** Only [AddTrack] and [DeleteTrack] of a kind change the number of tracks
    of that kind. *)
Hypothesis count_changes_only_by_add_or_delete : forall h c k,
  changes_count c k = false ->
  track_count (snd (respond h c)) k = track_count h k.

(** [AddTrack] removes nothing. *)
Hypothesis add_track_removes_nothing : forall h k,
  (track_count h k <= track_count (snd (respond h (AddTrack k))) k)%Z.

(** [GetTrackCount] reports the number of tracks. *)
Hypothesis count_is_reported : forall h k,
  fst (respond h (GetTrackCount k)) = Returns (VInt (track_count h k)).

Lemma call_keeps_or_grows h c k :
  is_track_removal c = false ->
  (track_count h k <= track_count (snd (respond h c)) k)%Z.
Proof.
  intro N. destruct (changes_count c k) eqn:E.
  - destruct c; try discriminate.
    cbn in E. apply String.eqb_eq in E. subst. apply add_track_removes_nothing.
  - rewrite count_changes_only_by_add_or_delete by exact E. lia.
Qed.

Lemma host_after_grows cs k : forall h,
  Forall (fun c => is_track_removal c = false) cs ->
  (track_count h k <= track_count (host_after respond h cs) k)%Z.
Proof.
  induction cs as [|c cs IH]; intros h F; [simpl; lia|].
  inversion F as [|? ? Hc Hcs]; subst. cbn [host_after fold_left].
  etransitivity; [apply (call_keeps_or_grows h c k Hc)|].
  apply IH, Hcs.
Qed.

Lemma host_after_keeps cs k : forall h,
  Forall (fun c => changes_count c k = false) cs ->
  track_count (host_after respond h cs) k = track_count h k.
Proof.
  induction cs as [|c cs IH]; intros h F; [reflexivity|].
  inversion F as [|? ? Hc Hcs]; subst. cbn [host_after fold_left].
  etransitivity; [apply IH, Hcs|].
  now apply count_changes_only_by_add_or_delete.
Qed.

Lemma reported_count kind (w : World) :
  fst (track_count_or_zero respond int_of_text kind w)
  = track_count (host w) kind.
Proof.
  unfold track_count_or_zero. rewrite bind_run, host_call_run.
  cbn [fst snd]. rewrite count_is_reported. reflexivity.
Qed.

(** C6.  [ensure_tracks_named] issues no call that removes a track, so on a
    host where only [AddTrack] and [DeleteTrack] change a track count and
    [AddTrack] removes nothing, no kind has fewer tracks afterwards.  When
    the host reports at least as many tracks of the kind as there are
    declared labels, no track of the kind is added either and their number
    stays the same: the only calls are the count query and one renaming per
    declared label, indices 1 to [len(declared)], followed for a kind other
    than video by the subtitle step. *)
Theorem ensure_tracks_never_shrinks kind tb lr stats_ref (w : World) :
  let run := ensure_tracks_named respond int_of_text kind tb lr stats_ref in
  let target := track_target kind tb lr in
  (exists cs,
     drives respond run w cs
     /\ Forall (fun c => is_track_removal c = false) cs)
  /\ (forall k,
        (track_count (host w) k <= track_count (host (snd (run w))) k)%Z)
  /\ ((Z.of_nat (length target) <= track_count (host w) kind)%Z ->
      kind <> "subtitle" ->
      track_count (host (snd (run w))) kind = track_count (host w) kind
      /\ (kind = "video" ->
          calls (snd (run w))
          = calls w ++ GetTrackCount "video" :: rename_calls "video" 1 target)
      /\ (kind <> "video" ->
          exists sub,
            calls (snd (run w))
            = calls w ++ GetTrackCount kind
                         :: rename_calls "audio" 1 target
                            ++ GetTrackCount "subtitle" :: sub
            /\ (sub = [] \/ sub = [AddTrack "subtitle"]
                \/ sub = [AddTrack "subtitle";
                          SetTrackName "subtitle" 1 "CC | English"]))).
Proof.
  intros run target. subst run.
  destruct (ensure_tracks_named_no_removal kind tb lr stats_ref w)
    as (cs & D & F).
  split; [exists cs; auto|]. split.
  - intro k. destruct D as [_ ->]. now apply host_after_grows.
  - intros Hlen Hsub. clear cs D F.
    pose proof (ensure_tracks_named_drives kind tb lr stats_ref w) as P.
    cbv zeta in P. fold target in P.
    destruct P as (tail & [C Hh] & Ht).
    rewrite reported_count in C, Hh.
    replace (Z.to_nat (Z.max 0 (Z.of_nat (length target)
                                 - track_count (host w) kind)))
      with 0%nat in C, Hh by lia.
    cbn [repeat app] in C, Hh.
    split.
    + rewrite Hh. apply host_after_keeps.
      constructor; [reflexivity|].
      assert (R : forall kd, Forall (fun c => changes_count c kind = false)
                    (rename_calls kd 1 target)).
      { intro kd. eapply Forall_impl;
          [|apply (rename_calls_keep kd _ kind 1%Z)].
        intros c [_ H]. exact H. }
      destruct (String.eqb kind "video").
      * subst tail. apply R.
      * destruct Ht as (sub & -> & Hs).
        apply Forall_app. split; [apply R|].
        constructor; [reflexivity|].
        assert (E : String.eqb "subtitle" kind = false).
        { apply String.eqb_neq. congruence. }
        destruct Hs as [ -> | [ -> | -> ] ]; repeat constructor; exact E.
    + split.
      * intro V. subst kind. cbn in Ht. subst tail. exact C.
      * intro V. apply String.eqb_neq in V. rewrite V in Ht.
        destruct Ht as (sub & -> & Hs). exists sub. auto.
Qed.

End TrackLaws.
End TrackFacts.

(** ** The in-memory timeline satisfies the track laws *)

Lemma mem_tracks_set tl k' tracks k :
  mem_tracks (mem_set_tracks tl k' tracks) k
  = if String.eqb k k' && mem_known_kind k then tracks else mem_tracks tl k.
Proof.
  unfold mem_tracks, mem_set_tracks, mem_known_kind.
  destruct (String.eqb_spec k k') as [->|N].
  - destruct (String.eqb_spec k' "video") as [->|Nv]; [reflexivity|].
    destruct (String.eqb_spec k' "audio") as [->|Na]; [reflexivity|].
    destruct (String.eqb_spec k' "subtitle") as [->|Ns]; reflexivity.
  - cbn [andb mt_video mt_audio mt_subtitle].
    destruct (String.eqb_spec k "video") as [->|Nv].
    { apply not_eq_sym, String.eqb_neq in N. now rewrite N. }
    destruct (String.eqb_spec k "audio") as [->|Na].
    { destruct (String.eqb_spec k' "video"); [reflexivity|].
      apply not_eq_sym, String.eqb_neq in N. now rewrite N. }
    destruct (String.eqb_spec k "subtitle") as [->|Ns]; [|reflexivity].
    destruct (String.eqb_spec k' "video"); [reflexivity|].
    destruct (String.eqb_spec k' "audio"); [reflexivity|].
    apply not_eq_sym, String.eqb_neq in N. now rewrite N.
Qed.

Lemma list_set_length {A} (l : list A) : forall i x,
  length (list_set i x l) = length l.
Proof.
  induction l as [|y l IH]; intros [|i] x; simpl; auto.
Qed.

Lemma mem_count_changes_only_by_add_or_delete h c k :
  changes_count c k = false ->
  mem_track_count (snd (mem_respond h c)) k = mem_track_count h k.
Proof.
  unfold mem_track_count. intro E.
  destruct c; cbn [mem_respond]; try reflexivity.
  - destruct (mt_enumerates h); reflexivity.
  - unfold mem_add_marker. destruct (_ && _); reflexivity.
  - unfold mem_add_marker. destruct (_ && _); reflexivity.
  - cbn in E. destruct (mem_known_kind kind); [|reflexivity].
    cbn [snd]. rewrite mem_tracks_set, String.eqb_sym, E. reflexivity.
  - destruct (_ && _); [|reflexivity].
    cbn [snd]. rewrite mem_tracks_set.
    destruct (String.eqb k kind && mem_known_kind k) eqn:B; [|reflexivity].
    apply andb_true_iff in B as [B _]. apply String.eqb_eq in B. subst.
    now rewrite list_set_length.
  - cbn in E. destruct (_ && _); [|reflexivity].
    cbn [snd]. rewrite mem_tracks_set, String.eqb_sym, E. reflexivity.
  - destruct (mem_marker_at h frame); reflexivity.
Qed.

Lemma mem_add_track_removes_nothing h k :
  (mem_track_count h k
   <= mem_track_count (snd (mem_respond h (AddTrack k))) k)%Z.
Proof.
  unfold mem_track_count. cbn [mem_respond].
  destruct (mem_known_kind k) eqn:K; [|cbn [snd]; lia].
  cbn [snd]. rewrite mem_tracks_set, String.eqb_refl, K. cbn [andb].
  rewrite length_app. cbn [length]. lia.
Qed.

Lemma mem_count_is_reported h k :
  fst (mem_respond h (GetTrackCount k)) = Returns (VInt (mem_track_count h k)).
Proof. reflexivity. Qed.

(** Twelve video tracks, ten declared labels: twelve tracks afterwards, the
    first ten renamed bottom to top, the two extra ones as they were. *)
Lemma ensure_tracks_never_shrinks_witness :
  let w' := snd (ensure_tracks_named mem_respond mem_int_of_text "video"
                   (Some VIDEO_TRACKS_TOP_TO_BOTTOM) None true
                   (mem_world twelve_track_timeline)) in
  mem_track_count (host w') "video" = 12%Z
  /\ mt_video (host w')
     = rev VIDEO_TRACKS_TOP_TO_BOTTOM ++ ["My overlay A"; "My overlay B"].
Proof.
  intro w'. split; [|vm_compute; reflexivity].
  destruct (ensure_tracks_never_shrinks MemTimeline mem_respond
              mem_int_of_text mem_track_count
              mem_count_changes_only_by_add_or_delete
              mem_add_track_removes_nothing mem_count_is_reported
              "video" (Some VIDEO_TRACKS_TOP_TO_BOTTOM) None true
              (mem_world twelve_track_timeline))
    as (_ & _ & Keep).
  destruct Keep as [E _].
  - vm_compute. discriminate.
  - discriminate.
  - subst w'. rewrite E. reflexivity.
Defined.

(** * Further properties *)

(** ** Frames: [_sec_to_frames] *)

Section RoundFacts.
Open Scope Z_scope.


(** X1.  At a frame rate that is not negative a later offset never lands on an
    earlier frame. *)
Theorem sec_to_frames_monotone (s1 s2 fps_float : Qc) :
  (0 <= fps_float)%Qc -> (s1 <= s2)%Qc ->
  _sec_to_frames s1 fps_float <= _sec_to_frames s2 fps_float.
Proof.
  intros Hf Hs. unfold _sec_to_frames. apply py_round_monotone.
  now apply Qcmult_le_compat_r.
Qed.

(** COMMIT / PAYOFF at 8 s and LOOP / CTA at 11.6 s, at 29.97 fps: frames
    240 and 348. *)
Lemma sec_to_frames_monotone_witness :
  _sec_to_frames (Sec.dec 8 1) (Sec.dec 2997 100)
  <= _sec_to_frames (Sec.dec 116 10) (Sec.dec 2997 100).
Proof.
  apply sec_to_frames_monotone; vm_compute; discriminate.
Defined.

End RoundFacts.

(** ** Marker placement: what is tried, and when it stops *)

Section PlacementFacts.
Variable HState : Type.
Variable respond : HState -> call -> reply * HState.

Let World := World HState.
Let M := M HState.

Ltac next_reply :=
  cbv beta iota delta [fst snd host calls stats];
  lazymatch goal with
  | |- context [respond ?h ?c] =>
      let r := fresh "r" in
      let h' := fresh "h" in
      let E := fresh "E" in
      destruct (respond h c) as [r h'] eqn:E;
      cbv beta iota delta [fst snd host calls stats]
  end.

Ltac settle :=
  repeat match goal with
         | x := _ : call |- _ => subst x
         end;
  unfold drives, stops_at_first_accept, host_after;
  cbv beta iota delta [fst snd host calls stats];
  cbn [replies accepted_adds fold_left last removelast length is_marker_add
       is_six_arg andb app];
  repeat (match goal with
          | E : respond ?h ?c = _ |- context [respond ?h ?c] => rewrite E
          | T : truthy ?v = _ |- context [truthy ?v] => rewrite T
          | F : _COLOR_FALLBACK ?c = _ |- context [_COLOR_FALLBACK ?c] =>
              rewrite F
          end;
          cbv beta iota delta [fst snd host calls stats accepted raised]);
  repeat split; auto; try lia;
  try (rewrite <- ?app_assoc; reflexivity);
  try (repeat constructor; auto; fail);
  try (intro; repeat constructor; fail);
  try (intro N; repeat match goal with
                       | N' : Forall _ (_ :: _) |- _ =>
                           inversion N'; subst; clear N'
                       end; discriminate).

(** The transcript of the [except] branch. *)
Lemma add_marker_5arg_transcript frame color name note d (w : World) :
  let run := add_marker_5arg respond frame color name note d in
  exists cs,
    drives respond run w cs
    /\ (1 <= length cs <= 2)%nat
    /\ Forall (fun c => is_marker_add c = true) cs
    /\ stops_at_first_accept (replies respond (host w) cs) (fst (run w))
    /\ accepted_adds respond (host w) cs = (if fst (run w) then 1 else 0)%nat.
Proof.
  intro run. subst run. unfold add_marker_5arg, bind, host_call, ret.
  set (c1 := AddMarker5 frame color name note d).
  next_reply. destruct r as [ok3|msg].
  - destruct (truthy ok3) eqn:T3.
    + exists [c1]. settle.
    + destruct (_COLOR_FALLBACK color) as [[|a fb]|] eqn:F.
      * exists [c1]. settle.
      * set (c2 := AddMarker5 frame (String a fb) name note d).
        next_reply. destruct r as [ok4|msg4].
        -- exists [c1; c2]. destruct (truthy ok4) eqn:T4; settle.
        -- exists [c1; c2]. settle.
      * exists [c1]. settle.
  - exists [c1]. settle.
Qed.

(** The transcript of [_add_marker_safe]: between one and four attempts,
    ending with the first one the timeline accepts. *)
Lemma add_marker_safe_transcript frame color name note d (w : World) :
  let run := _add_marker_safe respond frame color name note d in
  exists cs,
    drives respond run w cs
    /\ (1 <= length cs <= 4)%nat
    /\ Forall (fun c => is_marker_add c = true) cs
    /\ stops_at_first_accept (replies respond (host w) cs) (fst (run w))
    /\ accepted_adds respond (host w) cs = (if fst (run w) then 1 else 0)%nat
    /\ (Forall (fun r => raised r = false) (replies respond (host w) cs) ->
        Forall (fun c => is_six_arg c = true) cs).
Proof.
  intro run. subst run.
  unfold _add_marker_safe, add_marker_5arg, bind, host_call, ret.
  set (d' := ensure_min_duration d).
  set (c1 := AddMarker6 frame color name note d' "").
  set (c3 := AddMarker5 frame color name note d').
  destruct (_COLOR_FALLBACK color) as [[|a fb]|] eqn:F.
  - next_reply. destruct r as [ok|msg].
    + exists [c1]. destruct (truthy ok) eqn:T; settle.
    + next_reply. destruct r as [ok3|msg3].
      * exists [c1; c3]. destruct (truthy ok3) eqn:T3; settle.
      * exists [c1; c3]. settle.
  - set (c2 := AddMarker6 frame (String a fb) name note d' "").
    set (c4 := AddMarker5 frame (String a fb) name note d').
    next_reply. destruct r as [ok|msg].
    + destruct (truthy ok) eqn:T; [exists [c1]; settle|].
      next_reply. destruct r as [ok2|msg2].
      * exists [c1; c2]. destruct (truthy ok2) eqn:T2; settle.
      * next_reply. destruct r as [ok3|msg3].
        -- destruct (truthy ok3) eqn:T3; [exists [c1; c2; c3]; settle|].
           next_reply. destruct r as [ok4|msg4].
           ++ exists [c1; c2; c3; c4]. destruct (truthy ok4) eqn:T4; settle.
           ++ exists [c1; c2; c3; c4]. settle.
        -- exists [c1; c2; c3]. settle.
    + next_reply. destruct r as [ok3|msg3].
      * destruct (truthy ok3) eqn:T3; [exists [c1; c3]; settle|].
        next_reply. destruct r as [ok4|msg4].
        -- exists [c1; c3; c4]. destruct (truthy ok4) eqn:T4; settle.
        -- exists [c1; c3; c4]. settle.
      * exists [c1; c3]. settle.
  - next_reply. destruct r as [ok|msg].
    + exists [c1]. destruct (truthy ok) eqn:T; settle.
    + next_reply. destruct r as [ok3|msg3].
      * exists [c1; c3]. destruct (truthy ok3) eqn:T3; settle.
      * exists [c1; c3]. settle.
Qed.

(** X3.  [_add_marker_safe] makes between one and four attempts and stops at the
    first one the timeline accepts: it returns [True] exactly when its last
    call returned a true value, every earlier call raised or returned a
    false one, and a 5-argument call is made only after a 6-argument call
    raised. *)
Theorem add_marker_safe_stops_at_first_accept frame color name note d
    (w : World) :
  let run := _add_marker_safe respond frame color name note d in
  exists cs,
    drives respond run w cs
    /\ (1 <= length cs <= 4)%nat
    /\ fst (run w)
       = accepted (last (replies respond (host w) cs) (Raises "none"))
    /\ Forall (fun r => accepted r = false)
              (removelast (replies respond (host w) cs))
    /\ (Forall (fun r => raised r = false) (replies respond (host w) cs) ->
        Forall (fun c => is_six_arg c = true) cs).
Proof.
  intro run.
  destruct (add_marker_safe_transcript frame color name note d w)
    as (cs & D & L & _ & [R N] & _ & S6).
  exists cs. auto.
Qed.

Lemma accepted_adds_app cs1 cs2 : forall h,
  accepted_adds respond h (cs1 ++ cs2)
  = (accepted_adds respond h cs1
     + accepted_adds respond (host_after respond h cs1) cs2)%nat.
Proof.
  induction cs1 as [|c cs1 IH]; intro h; [reflexivity|].
  cbn [app accepted_adds host_after fold_left].
  rewrite IH. unfold host_after. lia.
Qed.

Lemma seed_one_transcript fps m (w : World) :
  let run := seed_one respond fps m in
  exists cs,
    drives respond run w cs
    /\ Forall (fun c => is_marker_add c = true) cs
    /\ accepted_adds respond (host w) cs
       = (if fst (run w) then 1 else 0)%nat.
Proof.
  intro run. subst run. unfold seed_one.
  destruct (add_marker_safe_transcript (_sec_to_frames (t m) fps)
              (seed_color (color m)) (name m) (notes m) (seed_dur m fps) w)
    as (cs & D & _ & Ma & _ & A & _).
  exists cs. auto.
Qed.

(** The loop counts one for each marker whose placement was accepted. *)
Lemma seed_loop_transcript fps ms : forall added (w : World),
  let run := seed_loop respond fps ms added in
  exists cs,
    drives respond run w cs
    /\ Forall (fun c => is_marker_add c = true) cs
    /\ fst (run w)
       = (added + Z.of_nat (accepted_adds respond (host w) cs))%Z.
Proof.
  induction ms as [|m ms IH]; intros added w run; subst run.
  - exists []. split; [apply drives_ret|]. split; [constructor|]. cbn. lia.
  - cbn [seed_loop].
    destruct (seed_one_transcript fps m w) as (cs1 & D1 & M1 & A1).
    set (ok := fst (seed_one respond fps m w)) in *.
    set (w1 := snd (seed_one respond fps m w)) in *.
    destruct (IH (if ok then added + 1 else added)%Z w1)
      as (cs2 & D2 & M2 & A2).
    exists (cs1 ++ cs2). split; [|split].
    + apply drives_bind; [exact D1|]. exact D2.
    + apply Forall_app. auto.
    + rewrite bind_run. fold ok w1. rewrite A2.
      rewrite accepted_adds_app, A1.
      destruct D1 as [_ H1]. fold w1 in H1. rewrite <- H1.
      destruct ok; lia.
Qed.

Lemma count_markers_drives (w : World) :
  drives respond (_count_markers respond) w [GetMarkers].
Proof.
  split.
  - apply count_markers_issues.
  - rewrite count_markers_host. reflexivity.
Qed.

(** The transcript of a seeding run. *)
Lemma seeding_transcript fps_str markers force (w : World) :
  let run := add_markers_to_timeline_if_empty respond fps_str markers force in
  exists cs,
    drives respond run w cs
    /\ Forall (fun c => is_seeding_call c = true) cs
    /\ forall added,
         fst (run w) = Ok added ->
         added = Z.of_nat (accepted_adds respond (host w) cs).
Proof.
  intro run. subst run. unfold add_markers_to_timeline_if_empty, drives.
  rewrite bind_run.
  destruct (count_markers_drives w) as [C0 H0].
  set (w0 := snd (_count_markers respond w)) in *.
  destruct ((fst (_count_markers respond w) >? 0)%Z && negb force) eqn:G.
  - exists [GetMarkers]. cbn [ret fst snd].
    split; [auto|]. split; [repeat constructor|].
    intros added [= <-]. reflexivity.
  - destruct (drives_host_call _ respond GetName w0) as [C1 H1].
    set (w1 := snd (host_call respond GetName w0)) in *.
    assert (C01 : calls w1 = calls w ++ [GetMarkers; GetName])
      by (rewrite C1, C0, <- app_assoc; reflexivity).
    assert (H01 : host w1
                  = host_after respond (host w) [GetMarkers; GetName])
      by (rewrite H1, H0; reflexivity).
    assert (Short : forall out : outcome Z,
              exists cs,
                (calls w1 = calls w ++ cs
                 /\ host w1 = host_after respond (host w) cs)
                /\ Forall (fun c => is_seeding_call c = true) cs
                /\ forall added,
                     out = Ok added ->
                     out = Ok 0%Z \/ (exists msg,
                                        out = Raised (HostException msg)) ->
                     added = Z.of_nat (accepted_adds respond (host w) cs)).
    { intro out. exists [GetMarkers; GetName].
      split; [auto|]. split; [repeat constructor|].
      intros added E [Z0|(msg & Em)]; [|congruence].
      rewrite Z0 in E. injection E as <-. reflexivity. }
    destruct (length markers =? 0)%nat eqn:L.
    + rewrite bind_run. fold w1.
      destruct (fst (host_call respond GetName w0)) as [v|msg];
        cbn [ret fst snd].
      * destruct (Short (Ok 0%Z)) as (cs & D & F & A).
        exists cs. split; [exact D|]. split; [exact F|].
        intros added E. apply A; auto.
      * destruct (Short (Raised (HostException msg))) as (cs & D & F & A).
        exists cs. split; [exact D|]. split; [exact F|].
        intros added E. discriminate.
    + rewrite bind_run. fold w1.
      destruct (fst (host_call respond GetName w0)) as [v|msg].
      * rewrite bind_run. cbn [ret fst snd].
        destruct (seed_loop_transcript (fps_or_default fps_str)
                    (py_sorted by_time_desc markers) 0%Z w1)
          as (cs & [C2 H2] & M2 & A2).
        exists ([GetMarkers; GetName] ++ cs).
        split; [split|split].
        -- rewrite C2, C01, <- app_assoc. reflexivity.
        -- rewrite H2, H01, host_after_app. reflexivity.
        -- apply Forall_app. split; [repeat constructor|].
           eapply Forall_impl; [|exact M2].
           intros c Hc. destruct c; try discriminate; reflexivity.
        -- intros added [= <-].
           rewrite A2, accepted_adds_app, <- H01. cbn. lia.
      * cbn [ret fst snd].
        destruct (Short (Raised (HostException msg))) as (cs & D & F & A).
        exists cs. split; [exact D|]. split; [exact F|].
        intros added E. discriminate.
Qed.

(** X4.  The number [add_markers_to_timeline_if_empty] returns is the number of
    [AddMarker] calls of the run that the timeline accepted: a marker is
    counted exactly when one of its attempts returned a true value, and no
    marker is accepted twice. *)
Theorem seeding_returns_accepted_count fps_str markers force (w : World)
    added :
  let run := add_markers_to_timeline_if_empty respond fps_str markers force in
  fst (run w) = Ok added ->
  exists cs,
    drives respond run w cs
    /\ added = Z.of_nat (accepted_adds respond (host w) cs).
Proof.
  intros run E.
  destruct (seeding_transcript fps_str markers force w) as (cs & D & _ & A).
  exists cs. split; [exact D|]. now apply A.
Qed.

(** X6.  Seeding and track setup keep to their own calls: a seeding run issues
    nothing but [GetMarkers], [GetName] and [AddMarker], and
    [ensure_tracks_named] nothing but [GetTrackCount], [AddTrack] and
    [SetTrackName]; neither deletes anything. *)
Theorem seeding_and_track_setup_keep_apart fps_str markers force
    int_of_text kind tb lr stats_ref (w : World) :
  (exists cs,
     drives respond
       (add_markers_to_timeline_if_empty respond fps_str markers force) w cs
     /\ Forall (fun c => is_seeding_call c = true) cs)
  /\ (exists cs,
        drives respond
          (ensure_tracks_named respond int_of_text kind tb lr stats_ref) w cs
        /\ Forall (fun c => is_track_call c = true) cs).
Proof.
  split.
  - destruct (seeding_transcript fps_str markers force w) as (cs & D & F & _).
    exists cs. auto.
  - destruct (ensure_tracks_named_drives _ respond int_of_text kind tb lr
                stats_ref w) as (tail & D & Ht).
    eexists. split; [exact D|].
    assert (R : forall kd i labels,
              Forall (fun c => is_track_call c = true)
                     (rename_calls kd i labels)).
    { intros kd i labels. revert i.
      induction labels as [|l labels IH]; intro i; constructor; auto. }
    constructor; [reflexivity|]. apply Forall_app. split.
    + clear. induction (Z.to_nat _) as [|n IH]; constructor; auto.
    + destruct (String.eqb kind "video").
      * subst tail. apply R.
      * destruct Ht as (sub & -> & Hs).
        apply Forall_app. split; [apply R|].
        constructor; [reflexivity|].
        destruct Hs as [ -> | [ -> | -> ] ]; repeat constructor.
Qed.

End PlacementFacts.

(** On a timeline with content all six markers of [MARKERS_12] are accepted
    at their first attempt, and the run returns 6. *)
Lemma seeding_returns_accepted_count_witness :
  exists cs,
    drives mem_respond
      (add_markers_to_timeline_if_empty mem_respond FPS MARKERS_12 false)
      (mem_world studio_timeline) cs
    /\ 6%Z = Z.of_nat (accepted_adds mem_respond studio_timeline cs).
Proof.
  apply (seeding_returns_accepted_count MemTimeline mem_respond FPS
           MARKERS_12 false (mem_world studio_timeline) 6%Z).
  vm_compute. reflexivity.
Defined.

(** ** The order of placement *)

Section SortedPermutation.
Variable A : Type.
Variable le : A -> A -> bool.

Lemma insert_sorted_perm x l : Permutation (insert_sorted le x l) (x :: l).
Proof.
  induction l as [|y l IH]; simpl; [apply Permutation_refl|].
  destruct (le x y); [apply Permutation_refl|].
  eapply perm_trans; [apply perm_skip, IH | apply perm_swap].
Qed.

(** [sorted] rearranges its argument and nothing more. *)
Lemma py_sorted_perm l : Permutation (py_sorted le l) l.
Proof.
  induction l as [|x l IH]; simpl; [constructor|].
  eapply perm_trans; [apply insert_sorted_perm | now apply perm_skip].
Qed.

End SortedPermutation.

Section PlacementOrder.
Variable HState : Type.
Variable respond : HState -> call -> reply * HState.

Lemma marker_frames_app cs1 cs2 :
  marker_frames (cs1 ++ cs2) = marker_frames cs1 ++ marker_frames cs2.
Proof.
  induction cs1 as [|c cs1 IH]; [reflexivity|].
  cbn [app marker_frames]. destruct (marker_add_frame c); cbn [app];
    now rewrite IH.
Qed.

Lemma retry_frame fps m c :
  retry_of fps m c -> marker_add_frame c = Some (_sec_to_frames (t m) fps).
Proof.
  destruct c; simpl; try (intros H; contradiction).
  - intros (-> & _). reflexivity.
  - intros (-> & _). reflexivity.
Qed.

Lemma retries_frames fps m cs :
  Forall (retry_of fps m) cs ->
  marker_frames cs = repeat (_sec_to_frames (t m) fps) (length cs).
Proof.
  induction 1 as [|c cs R F IH]; [reflexivity|].
  cbn [marker_frames length repeat]. now rewrite (retry_frame _ _ _ R), IH.
Qed.

(** All calls of a block are on the frame of its marker. *)
Lemma block_frames fps m cs :
  block_of fps m cs ->
  exists n, marker_frames cs = repeat (_sec_to_frames (t m) fps) (S n).
Proof.
  intros (rest & -> & F). exists (length rest).
  cbn [marker_frames first_attempt marker_add_frame repeat].
  now rewrite (retries_frames _ _ _ F).
Qed.

Lemma non_increasing_repeat_app f n l :
  match l with
  | [] => True
  | y :: _ => (y <= f)%Z
  end ->
  non_increasing l -> non_increasing (repeat f (S n) ++ l).
Proof.
  intros Hh Hl. induction n as [|n IH].
  - cbn [repeat app]. destruct l; simpl; auto.
  - change (repeat f (S (S n)) ++ l) with (f :: (repeat f (S n) ++ l)).
    cbn [repeat app] in IH |- *. split; [lia|exact IH].
Qed.

(** Blocks of a pack that is in descending time order: the frames of the
    calls never increase. *)
Lemma blocks_frames fps ms : forall blocks,
  (0 <= fps)%Qc ->
  locally_sorted by_time_desc ms ->
  Forall2 (block_of fps) ms blocks ->
  non_increasing (marker_frames (concat blocks))
  /\ match ms with
     | [] => concat blocks = []
     | m :: _ =>
         exists rest,
           marker_frames (concat blocks) = _sec_to_frames (t m) fps :: rest
     end.
Proof.
  induction ms as [|m ms IH]; intros blocks Hf Hs F.
  - inversion F; subst. simpl. auto.
  - inversion F as [|? cs ? bl B F']; subst.
    assert (Hs' : locally_sorted by_time_desc ms)
      by (destruct ms; [exact I|apply Hs]).
    destruct (IH bl Hf Hs' F') as [N Hd].
    destruct (block_frames _ _ _ B) as [n E].
    cbn [concat]. rewrite marker_frames_app, E. split.
    + apply non_increasing_repeat_app; [|exact N].
      destruct ms as [|m' ms'].
      * rewrite Hd. exact I.
      * destruct Hd as (rest & ->).
        destruct Hs as [Hmm' _]. unfold by_time_desc in Hmm'.
        apply SecFacts.leb_le in Hmm'.
        unfold _sec_to_frames. apply py_round_monotone.
        now apply Qcmult_le_compat_r.
    + cbn [repeat app]. eauto.
Qed.

Lemma by_time_desc_sorted markers :
  locally_sorted by_time_desc (py_sorted by_time_desc markers).
Proof.
  apply py_sorted_sorted. intros a b. unfold by_time_desc.
  apply SecFacts.leb_total.
Qed.

(** X5.  Furthest first: at a frame rate that is not negative, the frames of the
    [AddMarker] calls of a seeding run never increase from one call to the
    next, retries included; the markers placed are those of the pack, each
    in one block of calls. *)
Theorem seeding_places_furthest_first fps_str markers force
    (w : World HState) :
  (0 <= fps_or_default fps_str)%Qc ->
  let run := add_markers_to_timeline_if_empty respond fps_str markers force in
  exists cs,
    calls (snd (run w)) = calls w ++ cs
    /\ non_increasing (marker_frames cs)
    /\ forall c, In c cs -> is_marker_add c = true ->
       exists m, In m markers /\ retry_of (fps_or_default fps_str) m c.
Proof.
  intros Hf run. subst run.
  destruct ((fst (_count_markers respond w) >? 0)%Z && negb force) eqn:G.
  - rewrite (seeding_skip _ respond fps_str markers force w G). cbn [snd].
    exists [GetMarkers]. split; [apply count_markers_issues|].
    split; [exact I|].
    intros c [<-|[]]. discriminate.
  - destruct (seeding_pass _ respond fps_str markers force w G)
      as (_ & [(msg & _ & C)|(added & blocks & _ & C & F & _)]).
    + exists [GetMarkers; GetName]. split; [exact C|]. split; [exact I|].
      intros c [<-|[<-|[]]]; discriminate.
    + exists (GetMarkers :: GetName :: concat blocks).
      split; [exact C|]. split.
      * cbn [marker_frames marker_add_frame].
        apply (blocks_frames _ _ _ Hf (by_time_desc_sorted markers) F).
      * intros c [<-|[<-|Hin]]; try discriminate. intros _.
        destruct (blocks_calls _ _ _ _ F Hin) as (m & Hm & R).
        exists m. split; [|exact R].
        exact (proj1 (py_sorted_In _ by_time_desc m markers) Hm).
Qed.

End PlacementOrder.

(** [MARKERS_12] on a timeline with content: LOOP / CTA on frame 348 first,
    HOOK on frame 0 last. *)
Lemma seeding_places_furthest_first_witness :
  exists cs,
    calls (snd (add_markers_to_timeline_if_empty mem_respond FPS MARKERS_12
                  false (mem_world studio_timeline))) = [] ++ cs
    /\ non_increasing (marker_frames cs)
    /\ forall c, In c cs -> is_marker_add c = true ->
       exists m, In m MARKERS_12
                 /\ retry_of (fps_or_default FPS) m c.
Proof.
  apply (seeding_places_furthest_first MemTimeline mem_respond FPS
           MARKERS_12 false (mem_world studio_timeline)).
  vm_compute. discriminate.
Defined.

(** ** Butt-join: what it changes, and when it fails *)

Section ButtJoinShape.
Import SecFacts.
Open Scope Qc_scope.

Lemma inv_pos (f : Qc) : 0 < f -> 0 < 1 / f.
Proof.
  intro H. unfold Qclt in *.
  assert (E : (this (1 / f) == / this f)%Q).
  { unfold Qcdiv, Qcmult, Qcinv. cbn [this Q2Qc].
    rewrite !Qred_correct. apply Qmult_1_l. }
  rewrite E. apply Qinv_lt_0_compat. exact H.
Qed.

Lemma py_min_le_r a b : Sec.py_min a b <= b.
Proof.
  unfold Sec.py_min. destruct (Sec.ltb b a) eqn:E.
  - apply Qcle_refl.
  - now apply ltb_ge.
Qed.

Lemma le_plus_nonneg a m : 0 <= m -> a <= a + m.
Proof.
  intro H. apply Qcle_trans with (y := a + 0).
  - rewrite Qcplus_0_r. apply Qcle_refl.
  - apply Qcplus_le_compat; [apply Qcle_refl | exact H].
Qed.

(** The float of one frame is not negative. *)
Lemma frame_nonneg (f : Qc) : 0 < f -> 0 <= Sec.fdiv 1 f.
Proof.
  intro H. unfold Sec.fdiv. apply float_of_nonneg.
  apply Qclt_le_weak. now apply inv_pos.
Qed.

Lemma py_min_nonneg a b : 0 <= a -> 0 <= b -> 0 <= Sec.py_min a b.
Proof. intros Ha Hb. unfold Sec.py_min. now destruct (Sec.ltb b a). Qed.

(** A marker that keeps its duration satisfies both bounds. *)
Lemma kept_dur_bounds fps a :
  0 < fps ->
  Sec.float_of (dur a) <= Sec.float_of (dur a)
  <= Sec.fadd (Sec.float_of (dur a)) (Sec.fdiv 1 fps).
Proof.
  intro Hf. split; [apply Qcle_refl|].
  rewrite <- (float_of_idempotent (dur a)) at 1.
  unfold Sec.fadd. apply float_of_monotone, le_plus_nonneg.
  now apply frame_nonneg.
Qed.

(** A stretch never shortens, and lengthens to the float sum of the
    duration and one frame at most. *)
Lemma stretch_dur_bounds fps a b a' :
  0 < fps -> stretch fps a b = Ok a' ->
  Sec.float_of (dur a) <= Sec.float_of (dur a')
  <= Sec.fadd (Sec.float_of (dur a)) (Sec.fdiv 1 fps).
Proof.
  intros Hf H.
  destruct (stretch_cases fps a b) as [[_ E]|[(_ & _ & E)|(D & G & E)]];
    rewrite E in H.
  - injection H as <-. now apply kept_dur_bounds.
  - injection H as <-. now apply kept_dur_bounds.
  - destruct (Qc_eq_dec fps 0); [discriminate|].
    injection H as <-. cbn [dur set_dur].
    unfold Sec.fadd. rewrite float_of_idempotent. split.
    + rewrite <- (float_of_idempotent (dur a)) at 1.
      apply float_of_monotone, le_plus_nonneg, py_min_nonneg.
      * now apply Qclt_le_weak.
      * now apply frame_nonneg.
    + apply float_of_monotone.
      apply Qcplus_le_compat; [apply Qcle_refl | apply py_min_le_r].
Qed.

Lemma join_adjacent_same_but_dur fps l : forall out,
  join_adjacent fps l = Ok out -> Forall2 same_but_dur l out.
Proof.
  induction l as [|a l IH]; intros out H.
  - injection H as <-. constructor.
  - apply join_adjacent_cons in H as (a' & l' & -> & Ha & J & S1).
    constructor; [|now apply IH].
    destruct l as [|b rest].
    + subst a'. unfold same_but_dur. auto.
    + apply stretch_keeps in S1. exact S1.
Qed.

Lemma join_adjacent_dur_bounds fps l : forall out,
  0 < fps -> join_adjacent fps l = Ok out ->
  Forall2 (fun a a' =>
             Sec.float_of (dur a) <= Sec.float_of (dur a')
             <= Sec.fadd (Sec.float_of (dur a)) (Sec.fdiv 1 fps)) l out.
Proof.
  induction l as [|a l IH]; intros out Hf H.
  - injection H as <-. constructor.
  - apply join_adjacent_cons in H as (a' & l' & -> & Ha & J & S1).
    constructor; [|now apply IH].
    destruct l as [|b rest].
    + subst a'. now apply kept_dur_bounds.
    + now apply (stretch_dur_bounds fps a b).
Qed.

(** X7.  Butt-join returns the markers of its argument in time order (equal
    offsets in the order given) and changes nothing but durations: offset,
    colour, name and notes of every marker are kept.  At a positive frame
    rate no duration is shortened, and none grows beyond the float sum of
    the duration and one frame, [cur_d + 1.0 / fps]. *)
Theorem butt_join_changes_only_durations markers fps_str out :
  _butt_join_markers markers fps_str = Ok out ->
  Permutation (py_sorted by_time markers) markers
  /\ locally_sorted by_time out
  /\ Forall2 same_but_dur (py_sorted by_time markers) out
  /\ (0 < Sec.float_of (fps_or_default fps_str) ->
      Forall2 (fun a a' =>
                 Sec.float_of (dur a) <= Sec.float_of (dur a')
                 <= Sec.fadd (Sec.float_of (dur a))
                      (Sec.fdiv 1 (Sec.float_of (fps_or_default fps_str))))
              (py_sorted by_time markers) out).
Proof.
  rewrite butt_join_spec. intro J.
  split; [apply py_sorted_perm|].
  split; [exact (join_adjacent_sorted _ _ _ J (by_time_sorted markers))|].
  split; [now apply (join_adjacent_same_but_dur
                       (Sec.float_of (fps_or_default fps_str)))|].
  intro Hf. now apply join_adjacent_dur_bounds.
Qed.

(** HOOK ends at 2.99 s, DRAW starts at 3 s: the pack comes back in time
    order, HOOK stretched to 3 s. *)
Lemma butt_join_changes_only_durations_witness :
  let pack := [ _mm (Sec.dec 3 1) "Orange" "DRAW" (Sec.dec 5 1) "";
                _mm (Sec.dec 0 1) "Red" "HOOK" (Sec.dec 299 100) "" ] in
  exists out,
    map (fun m => (name m, this (dur m))) out
    = [("HOOK", (3 # 1)%Q); ("DRAW", (5 # 1)%Q)]
    /\ Permutation (py_sorted by_time pack) pack
    /\ locally_sorted by_time out
    /\ Forall2 same_but_dur (py_sorted by_time pack) out
    /\ (0 < Sec.float_of (fps_or_default FPS) ->
        Forall2 (fun a a' =>
                   Sec.float_of (dur a) <= Sec.float_of (dur a')
                   <= Sec.fadd (Sec.float_of (dur a))
                        (Sec.fdiv 1 (Sec.float_of (fps_or_default FPS))))
                (py_sorted by_time pack) out).
Proof.
  intro pack. eexists. split; [|
    apply (butt_join_changes_only_durations pack FPS);
    vm_compute; reflexivity].
  reflexivity.
Defined.

(** ** Division by zero *)

Lemma no_positive_gaps_dec l : {no_positive_gaps l} + {~ no_positive_gaps l}.
Proof.
  induction l as [|a l IH]; [left; exact I|].
  destruct l as [|b rest]; [left; exact I|].
  destruct IH as [Y|N].
  - destruct (Sec.leb (Sec.float_of (dur a)) 0) eqn:D.
    + left. split; [left; now apply leb_le | exact Y].
    + destruct (Sec.ltb 0 (gap_after a b)) eqn:G.
      * right. intros [[H|H] _].
        -- apply leb_le in H. congruence.
        -- apply ltb_ge in H. congruence.
      * left. split; [right; now apply ltb_ge | exact Y].
  - right. intros [_ H]. exact (N H).
Qed.

(** At a frame rate of zero the first positive gap after a marker of
    positive duration stops the pass. *)
Lemma join_adjacent_zero_raises l :
  ~ no_positive_gaps l -> join_adjacent 0 l = Raised ZeroDivisionError.
Proof.
  induction l as [|a l IH]; [intro N; exfalso; exact (N I)|].
  destruct l as [|b rest]; [intro N; exfalso; exact (N I)|].
  intro N. rewrite join_adjacent_step.
  destruct (stretch_cases 0 a b) as [[D E]|[(_ & G & E)|(_ & _ & E)]];
    rewrite E.
  - cbn [obind]. rewrite IH; [reflexivity|].
    intro Y. apply N. split; [now left | exact Y].
  - cbn [obind]. rewrite IH; [reflexivity|].
    intro Y. apply N. split; [now right | exact Y].
  - destruct (Qc_eq_dec 0 0) as [_|Z]; [reflexivity|].
    exfalso. now apply Z.
Qed.

(** X8.  [_butt_join_markers] raises in one case only, and then it is the
    division [1.0 / fps]: the float of the frame rate is zero and, in time
    order, some marker of positive duration is followed by a positive gap.
    At a zero frame rate a pack without such a gap is returned sorted and
    otherwise unchanged; at any other frame rate a pack is returned. *)
Theorem butt_join_raises_only_at_zero_fps markers fps_str :
  match _butt_join_markers markers fps_str with
  | Ok out =>
      Sec.float_of (fps_or_default fps_str) <> 0
      \/ (no_positive_gaps (py_sorted by_time markers)
          /\ out = py_sorted by_time markers)
  | Raised e =>
      e = ZeroDivisionError
      /\ Sec.float_of (fps_or_default fps_str) = 0
      /\ ~ no_positive_gaps (py_sorted by_time markers)
  end.
Proof.
  rewrite butt_join_spec.
  destruct (Qc_eq_dec (Sec.float_of (fps_or_default fps_str)) 0) as [Z|NZ].
  - rewrite Z.
    destruct (no_positive_gaps_dec (py_sorted by_time markers)) as [Y|N].
    + rewrite (join_adjacent_untouched 0 _ Y). right. auto.
    + rewrite (join_adjacent_zero_raises _ N). auto.
  - destruct (join_adjacent_total _ (py_sorted by_time markers) NZ)
      as [out ->].
    left. exact NZ.
Qed.

End ButtJoinShape.

(** ** Pacing enrichment *)

Section EnrichFacts.
Open Scope string_scope.

Lemma string_of_list_ascii_app l1 l2 :
  string_of_list_ascii (l1 ++ l2)
  = string_of_list_ascii l1 ++ string_of_list_ascii l2.
Proof.
  induction l1 as [|c l1 IH]; [reflexivity|].
  cbn [app string_of_list_ascii String.append]. now rewrite IH.
Qed.

Lemma prefix_nil b : String.prefix "" b = true.
Proof. destruct b; reflexivity. Qed.

Lemma prefix_app a b : String.prefix a (a ++ b) = true.
Proof.
  induction a as [|c a IH]; [apply prefix_nil|].
  cbn [String.append String.prefix].
  destruct (ascii_dec c c) as [_|N]; [exact IH|now elim N].
Qed.

(** [strip_rev] drops a prefix of its argument. *)
Lemma strip_rev_suffix n : forall l,
  (length l <= n)%nat -> exists dropped, l = (dropped ++ strip_rev l)%list.
Proof.
  induction n as [|n IH]; intros l Hn.
  - destruct l; [|simpl in Hn; lia]. exists []. reflexivity.
  - destruct l as [|c rest]; [exists []; reflexivity|].
    cbn [length] in Hn.
    assert (R1 : exists d, rest = (d ++ strip_rev rest)%list)
      by (apply IH; lia).
    cbn [strip_rev].
    destruct (is_space_byte c).
    { destruct R1 as [d E]. exists (c :: d). cbn [app]. now rewrite <- E. }
    destruct rest as [|b rest2]; [exists []; reflexivity|].
    cbn [length] in Hn.
    assert (R2 : exists d, rest2 = (d ++ strip_rev rest2)%list)
      by (apply IH; lia).
    match goal with
    | |- context [if ?x then _ else _] => destruct x
    end.
    { destruct R2 as [d E]. exists (c :: b :: d). cbn [app]. now rewrite <- E. }
    destruct rest2 as [|a rest3]; [exists []; reflexivity|].
    cbn [length] in Hn.
    assert (R3 : exists d, rest3 = (d ++ strip_rev rest3)%list)
      by (apply IH; lia).
    match goal with
    | |- context [if ?x then _ else _] => destruct x
    end.
    { destruct R3 as [d E]. exists (c :: b :: a :: d). cbn [app].
      now rewrite <- E. }
    exists []. reflexivity.
Qed.

(** [s.rstrip()] is the start of [s]. *)
Lemma rstrip_prefix s : String.prefix (rstrip s) s = true.
Proof.
  unfold rstrip.
  destruct (strip_rev_suffix (length (rev (list_ascii_of_string s)))
              (rev (list_ascii_of_string s)) (le_n _)) as [d E].
  assert (S : s = string_of_list_ascii
                    (rev (strip_rev (rev (list_ascii_of_string s))))
                  ++ string_of_list_ascii (rev d)).
  { rewrite <- string_of_list_ascii_app, <- rev_app_distr, <- E.
    now rewrite rev_involutive, string_of_list_ascii_of_string. }
  rewrite S at 2. apply prefix_app.
Qed.

(** What the loop body does to one marker. *)
Lemma enrich_one_spec rules m :
  same_but_notes m (enrich_one rules m)
  /\ String.prefix (rstrip (notes m)) (notes (enrich_one rules m)) = true
  /\ (dict_get rules (name m) = None -> enrich_one rules m = m).
Proof.
  unfold enrich_one, pacing_tip.
  destruct (dict_get rules (name m)) as [[|c tip]|] eqn:G.
  - repeat split. apply rstrip_prefix.
  - destruct (rstrip (notes m)) as [|b base] eqn:B.
    + repeat split. discriminate.
    + repeat split; [|discriminate]. cbn [notes set_notes].
      apply prefix_app.
  - repeat split. apply rstrip_prefix.
Qed.

Lemma enrich_as_map markers lane tier :
  falsy_text lane || falsy_text tier = false ->
  _enrich_marker_notes markers lane tier
  = map (enrich_one (pacing_rules (text_or_empty lane) (text_or_empty tier)))
        markers.
Proof.
  intro F. unfold _enrich_marker_notes. rewrite F.
  destruct markers; reflexivity.
Qed.

Lemma enrich_falsy markers lane tier :
  falsy_text lane || falsy_text tier = true ->
  _enrich_marker_notes markers lane tier = markers.
Proof.
  intro F. unfold _enrich_marker_notes. rewrite F.
  destruct markers; reflexivity.
Qed.

(** X9.  Enrichment returns the markers in the order given and changes nothing
    but notes.  The old notes, without their trailing white space, stay at
    the start of the new ones, and a marker whose name has no entry in the
    table of the lane and tier is returned as it is. *)
Theorem enrich_changes_only_notes markers lane tier :
  Forall2
    (fun m m' =>
       same_but_notes m m'
       /\ String.prefix (rstrip (notes m)) (notes m') = true
       /\ (dict_get (pacing_rules (text_or_empty lane) (text_or_empty tier))
                    (name m) = None -> m' = m))
    markers (_enrich_marker_notes markers lane tier).
Proof.
  destruct (falsy_text lane || falsy_text tier) eqn:F.
  - rewrite (enrich_falsy _ _ _ F).
    induction markers as [|m ms IH]; constructor; [|exact IH].
    unfold same_but_notes. repeat split. apply rstrip_prefix.
  - rewrite (enrich_as_map _ _ _ F).
    induction markers as [|m ms IH]; constructor; [|exact IH].
    apply enrich_one_spec.
Qed.

End EnrichFacts.

(** ** Enrichment and butt-join *)

Section SortedMap.
Variable A : Type.
Variable le : A -> A -> bool.
Variable f : A -> A.
Hypothesis f_keeps_order : forall a b, le (f a) (f b) = le a b.

Lemma insert_sorted_map x l :
  insert_sorted le (f x) (map f l) = map f (insert_sorted le x l).
Proof.
  induction l as [|y l IH]; [reflexivity|].
  cbn [map insert_sorted]. rewrite f_keeps_order.
  destruct (le x y); cbn [map]; [reflexivity|now rewrite IH].
Qed.

(** Sorting commutes with a map that leaves the sort key alone. *)
Lemma py_sorted_map l : py_sorted le (map f l) = map f (py_sorted le l).
Proof.
  induction l as [|x l IH]; [reflexivity|].
  cbn [map py_sorted]. now rewrite IH, insert_sorted_map.
Qed.

End SortedMap.

Section EnrichJoin.
Open Scope Qc_scope.

Lemma enrich_one_keeps rules m :
  t (enrich_one rules m) = t m /\ dur (enrich_one rules m) = dur m.
Proof.
  destruct (enrich_one_spec rules m) as [(Ht & _ & _ & Hd) _]. auto.
Qed.

Lemma enrich_one_set_dur rules m d :
  enrich_one rules (set_dur m d) = set_dur (enrich_one rules m) d.
Proof.
  unfold enrich_one. cbn [name notes set_dur].
  destruct (pacing_tip rules (name m)); [reflexivity|].
  destruct (rstrip (notes m)); reflexivity.
Qed.

Lemma stretch_enrich rules fps a b :
  stretch fps (enrich_one rules a) (enrich_one rules b)
  = obind (stretch fps a b) (fun a' => Ok (enrich_one rules a')).
Proof.
  unfold stretch.
  destruct (enrich_one_keeps rules a) as [-> ->].
  destruct (enrich_one_keeps rules b) as [-> _].
  destruct (Sec.leb (Sec.float_of (dur a)) 0); [reflexivity|].
  destruct (Sec.ltb 0 _); [|reflexivity].
  destruct (Qc_eq_dec fps 0); [reflexivity|].
  cbn [obind]. now rewrite enrich_one_set_dur.
Qed.

Lemma join_adjacent_enrich rules fps l :
  join_adjacent fps (map (enrich_one rules) l)
  = obind (join_adjacent fps l) (fun out => Ok (map (enrich_one rules) out)).
Proof.
  induction l as [|a l IH]; [reflexivity|].
  destruct l as [|b rest]; [reflexivity|].
  change (map (enrich_one rules) (a :: b :: rest))
    with (enrich_one rules a
          :: enrich_one rules b :: map (enrich_one rules) rest).
  rewrite !join_adjacent_step, stretch_enrich.
  destruct (stretch fps a b) as [a'|e]; [|reflexivity].
  cbn [obind].
  change (enrich_one rules b :: map (enrich_one rules) rest)
    with (map (enrich_one rules) (b :: rest)).
  rewrite IH.
  destruct (join_adjacent fps (b :: rest)) as [rest'|e]; reflexivity.
Qed.

(** X10.  The driver enriches a pack and then butt-joins it; the other order
    gives the same pack, and fails in the same cases. *)
Theorem enrich_commutes_with_butt_join markers lane tier fps_str :
  _butt_join_markers (_enrich_marker_notes markers lane tier) fps_str
  = obind (_butt_join_markers markers fps_str)
          (fun out => Ok (_enrich_marker_notes out lane tier)).
Proof.
  destruct (falsy_text lane || falsy_text tier) eqn:F.
  - rewrite (enrich_falsy _ _ _ F).
    destruct (_butt_join_markers markers fps_str) as [out|e];
      [|reflexivity].
    cbn [obind]. now rewrite (enrich_falsy _ _ _ F).
  - rewrite (enrich_as_map _ _ _ F), !butt_join_spec.
    rewrite py_sorted_map.
    + rewrite join_adjacent_enrich.
      destruct (join_adjacent _ _) as [out|e]; [|reflexivity].
      cbn [obind]. now rewrite (enrich_as_map _ _ _ F).
    + intros a b. unfold by_time.
      destruct (enrich_one_keeps
                  (pacing_rules (text_or_empty lane) (text_or_empty tier)) a)
        as [-> _].
      destruct (enrich_one_keeps
                  (pacing_rules (text_or_empty lane) (text_or_empty tier)) b)
        as [-> _].
      reflexivity.
Qed.

End EnrichJoin.

(** ** Principle packs through the pipeline *)

Section Ranges.
Open Scope string_scope.

Lemma dict_get_In {V} (d : list (string * V)) k v :
  dict_get d k = Some v -> In (k, v) d.
Proof.
  induction d as [|[k' v'] d IH]; [discriminate|].
  cbn [dict_get]. destruct (String.eqb_spec k k') as [->|N].
  - intros [= ->]. now left.
  - intro H. right. now apply IH.
Qed.

Lemma with_variant_In base specific v :
  In (with_variant base specific v) (variant_packs base specific).
Proof.
  unfold with_variant, variant_packs.
  destruct v as [[|c k]|]; [now left| |now left].
  destruct (dict_get specific (String c k)) as [extra|] eqn:G; [|now left].
  right. apply in_map_iff. exists (String c k, extra).
  split; [reflexivity|]. now apply dict_get_In.
Qed.

(** [get_principle_markers_for_title] returns one of 26 packs. *)
Lemma principle_pack_in_range title :
  In (get_principle_markers_for_title title) principle_pack_range.
Proof.
  unfold get_principle_markers_for_title, principle_pack_range.
  set (nt := normalize_title title).
  destruct (is_master_title nt); [now left|].
  destruct (contains nt "selects" || contains nt "stringout").
  { right. rewrite !in_app_iff. left. apply with_variant_In. }
  destruct (contains nt "shotfx" || contains nt "shot fx").
  { right. rewrite !in_app_iff. right. left. apply with_variant_In. }
  assert (Named : forall key,
            In key ["scenes_segments"; "talking_head"; "fashion";
                    "day_in_the_life"; "cook_ups"] ->
            In (PRINCIPLE_PACKS key)
               ([] :: variant_packs SELECTS_BASE SELECTS_SPECIFIC_items
                ++ variant_packs (PRINCIPLE_PACKS "shotfx")
                                 SHOTFX_SPECIFIC_items
                ++ [ PRINCIPLE_PACKS "scenes_segments";
                     PRINCIPLE_PACKS "talking_head";
                     PRINCIPLE_PACKS "fashion";
                     PRINCIPLE_PACKS "day_in_the_life";
                     PRINCIPLE_PACKS "cook_ups" ])).
  { intros key Hk. right. rewrite !in_app_iff. right. right.
    cbn [In] in Hk |- *.
    destruct Hk as [<-|[<-|[<-|[<-|[<-|[]]]]]]; auto 6. }
  destruct (contains nt "segment"); [apply Named; cbn [In]; auto|].
  destruct (contains nt "interview"); [apply Named; cbn [In]; auto|].
  destruct (contains nt "look"); [apply Named; cbn [In]; auto|].
  destruct (contains nt "chapter"); [apply Named; cbn [In]; auto|].
  destruct (contains nt "section"); [apply Named; cbn [In]; auto 6|].
  now left.
Qed.

Lemma pacing_rules_in_range lane tier :
  In (pacing_rules lane tier) ([] :: all_pacing_tables).
Proof.
  unfold pacing_rules, all_pacing_tables.
  destruct (dict_get PACING_S_items lane) as [tiers|] eqn:G1; [|now left].
  destruct (dict_get tiers tier) as [rules|] eqn:G2; [|now left].
  right. apply in_concat. exists (map snd tiers). split.
  - apply in_map_iff. exists (lane, tiers).
    split; [reflexivity|]. now apply dict_get_In.
  - apply in_map_iff. exists (tier, rules).
    split; [reflexivity|]. now apply dict_get_In.
Qed.

Lemma no_rule_enrich rules pack :
  no_rule_for rules pack = true -> map (enrich_one rules) pack = pack.
Proof.
  unfold no_rule_for. induction pack as [|m pack IH]; [reflexivity|].
  cbn [forallb map]. intro H. apply andb_true_iff in H as [Hm Hp].
  rewrite (IH Hp). f_equal.
  apply enrich_one_spec. unfold dict_mem in Hm.
  destruct (dict_get rules (name m)); [discriminate|reflexivity].
Qed.

Lemma principle_packs_have_no_rule :
  forallb (fun pack =>
             forallb (fun rules => no_rule_for rules pack)
                     ([] :: all_pacing_tables))
          principle_pack_range = true.
Proof. vm_compute. reflexivity. Qed.

Lemma principle_pack_has_no_rule title lane tier :
  no_rule_for (pacing_rules lane tier) (get_principle_markers_for_title title)
  = true.
Proof.
  pose proof principle_packs_have_no_rule as K.
  rewrite forallb_forall in K.
  specialize (K _ (principle_pack_in_range title)).
  rewrite forallb_forall in K.
  apply K, pacing_rules_in_range.
Qed.

Lemma enrich_of_principle_pack title lane tier :
  _enrich_marker_notes (get_principle_markers_for_title title) lane tier
  = get_principle_markers_for_title title.
Proof.
  destruct (falsy_text lane || falsy_text tier) eqn:F.
  - now apply enrich_falsy.
  - rewrite (enrich_as_map _ _ _ F). apply no_rule_enrich.
    apply principle_pack_has_no_rule.
Qed.

(** X11.  No name of a principle, Selects or ShotFX marker is a key of a pacing
    table, so enriching a principle pack returns it unchanged, whatever the
    title, the lane and the tier. *)
Theorem principle_packs_are_never_enriched title lane tier :
  (forall m, In m (get_principle_markers_for_title title) ->
             forall ln tr, dict_get (pacing_rules ln tr) (name m) = None)
  /\ _enrich_marker_notes (get_principle_markers_for_title title) lane tier
     = get_principle_markers_for_title title.
Proof.
  split; [|apply enrich_of_principle_pack].
  intros m Hm ln tr.
  pose proof (principle_pack_has_no_rule title ln tr) as K.
  unfold no_rule_for in K. rewrite forallb_forall in K.
  specialize (K m Hm). unfold dict_mem in K.
  destruct (dict_get (pacing_rules ln tr) (name m)); [discriminate|reflexivity].
Qed.

(** ** Variant keys *)

(** X12.  Every key the two variant functions can return is a key of its table,
    so the membership test that guards the lookup never fails and a title
    with a variant always gets the base pack followed by the variant's.
    The entry [th_broll] of [SELECTS_SPECIFIC] is returned for no title. *)
Theorem variant_keys_are_table_keys norm_title :
  match _selects_variant_for_title norm_title with
  | Some k => dict_mem SELECTS_SPECIFIC_items k = true /\ k <> "th_broll"
  | None => True
  end
  /\ match _shotfx_variant_for_title norm_title with
     | Some k => dict_mem SHOTFX_SPECIFIC_items k = true
     | None => True
     end.
Proof.
  split.
  - unfold _selects_variant_for_title.
    repeat match goal with
           | |- context [if ?b then _ else _] => destruct b
           end;
      try exact I; (split; [reflexivity|discriminate]).
  - unfold _shotfx_variant_for_title.
    repeat match goal with
           | |- context [if ?b then _ else _] => destruct b
           end;
      try exact I; reflexivity.
Qed.

(** ** Lanes and tiers *)

Lemma lane_tier_from_title_ok title :
  lane_tier_ok (_lane_tier_from_title title) = true.
Proof.
  unfold _lane_tier_from_title, tier_in_title.
  repeat match goal with
         | |- context [if ?b then _ else _] => destruct b
         end; reflexivity.
Qed.

Lemma inferred_lane_ok pillar_name title :
  dict_mem PACING_S_items (_infer_lane_from_pillar_or_title pillar_name title)
  = true.
Proof.
  unfold _infer_lane_from_pillar_or_title.
  repeat match goal with
         | |- context [if ?b then _ else _] => destruct b
         end; reflexivity.
Qed.

Lemma dict_mem_keys {V} (d : list (string * V)) k :
  dict_mem d k = list_mem k (map fst d).
Proof.
  unfold dict_mem, list_mem. induction d as [|[k' v] d IH]; [reflexivity|].
  cbn [dict_get map fst existsb].
  destruct (k =? k'); [reflexivity|exact IH].
Qed.

(** Every lane of [PACING_S] has the tiers 12s, 22s and 30s and no other. *)
Lemma pacing_tiers_of_lane lane tiers :
  dict_get PACING_S_items lane = Some tiers ->
  forall tier, dict_mem tiers tier = list_mem tier ["12s"; "22s"; "30s"].
Proof.
  intros G tier. apply dict_get_In in G.
  assert (A : forallb (fun lt =>
                         if list_eq_dec string_dec (map fst (snd lt))
                                        ["12s"; "22s"; "30s"]
                         then true else false) PACING_S_items = true)
    by (vm_compute; reflexivity).
  rewrite forallb_forall in A. specialize (A _ G). cbn [snd] in A.
  destruct (list_eq_dec string_dec (map fst tiers) ["12s"; "22s"; "30s"])
    as [E|]; [|discriminate].
  now rewrite dict_mem_keys, E.
Qed.

(** X13.  The title functions and the pacing table agree: a title either has no
    lane and no tier, or a lane and a tier for which [PACING_S] has a
    table; the lane inferred from the pillar is always a lane of
    [PACING_S]; and the lane and tier the driver enriches with have a table
    unless the tier is ["selects"], which no lane has. *)
Theorem title_lanes_have_pacing_tables pillar_name title :
  lane_tier_ok (_lane_tier_from_title title) = true
  /\ dict_mem PACING_S_items
              (_infer_lane_from_pillar_or_title pillar_name title) = true
  /\ forall pillar ttl,
       dict_mem PACING_S_items (fst (driver_lane_tier pillar ttl)) = true
       /\ has_pacing_table (fst (driver_lane_tier pillar ttl))
                           (snd (driver_lane_tier pillar ttl))
          = negb (String.eqb (snd (driver_lane_tier pillar ttl)) "selects").
Proof.
  split; [apply lane_tier_from_title_ok|].
  split; [apply inferred_lane_ok|].
  intros pillar ttl.
  assert (Shape : forall lane tier,
            dict_mem PACING_S_items lane = true ->
            list_mem tier ["12s"; "22s"; "30s"; "selects"] = true ->
            dict_mem PACING_S_items lane = true
            /\ has_pacing_table lane tier = negb (String.eqb tier "selects")).
  { intros lane tier Hl Ht. split; [exact Hl|].
    unfold has_pacing_table. unfold dict_mem in Hl.
    destruct (dict_get PACING_S_items lane) as [tiers|] eqn:G;
      [|discriminate].
    rewrite (pacing_tiers_of_lane _ _ G).
    unfold list_mem in *. cbn [existsb] in *.
    destruct (String.eqb_spec tier "12s") as [->|]; [reflexivity|].
    destruct (String.eqb_spec tier "22s") as [->|]; [reflexivity|].
    destruct (String.eqb_spec tier "30s") as [->|]; [reflexivity|].
    destruct (String.eqb_spec tier "selects") as [->|]; [reflexivity|].
    discriminate. }
  apply Shape.
  - unfold driver_lane_tier. cbn [fst].
    pose proof (lane_tier_from_title_ok (Some ttl)) as K.
    destruct (_lane_tier_from_title (Some ttl)) as [[[|c lane]|] tier];
      cbn [fst falsy_text text_or_empty]; try apply inferred_lane_ok.
    destruct tier as [tier|]; [|discriminate].
    cbn [lane_tier_ok] in K. unfold has_pacing_table in K.
    unfold dict_mem.
    destruct (dict_get PACING_S_items (String c lane)); [reflexivity|].
    discriminate.
  - unfold driver_lane_tier. cbn [snd].
    pose proof (lane_tier_from_title_ok (Some ttl)) as K.
    destruct (_lane_tier_from_title (Some ttl)) as [lane [[|c tier]|]];
      cbn [snd falsy_text text_or_empty].
    + destruct (contains (lower ttl) "selects"
                || contains (lower ttl) "stringouts"); reflexivity.
    + destruct lane as [lane|]; [|discriminate].
      cbn [lane_tier_ok] in K. unfold has_pacing_table in K.
      destruct (dict_get PACING_S_items lane) as [tiers|] eqn:G;
        [|discriminate].
      rewrite (pacing_tiers_of_lane _ _ G) in K.
      unfold list_mem in *. cbn [existsb] in *.
      destruct (String c tier =? "12s"); [reflexivity|].
      destruct (String c tier =? "22s"); [reflexivity|].
      destruct (String c tier =? "30s"); [reflexivity|discriminate].
    + destruct (contains (lower ttl) "selects"
                || contains (lower ttl) "stringouts"); reflexivity.
Qed.

End Ranges.

(** ** The anchor goes first *)

Section AnchorFirst.
Variable HState : Type.
Variable respond : HState -> call -> reply * HState.

Lemma principle_packs_lead_with_anchor :
  forallb anchor_leads principle_pack_range = true.
Proof. vm_compute. reflexivity. Qed.

Lemma marker_adds_block fps m cs rest :
  block_of fps m cs ->
  exists more, marker_adds (cs ++ rest) = first_attempt fps m :: more.
Proof.
  intros (tail & -> & _). cbn [app marker_adds filter first_attempt
                                is_marker_add]. eauto.
Qed.

(** X14.  For every timeline title, the principle pack of the title, enriched for
    any lane and tier and butt-joined at the module's frame rate, is a pack
    whose seeding starts with the five-minute anchor: whenever a run makes
    an [AddMarker] call at all, its first one puts [⏱ 5min anchor], Blue,
    one frame long, on frame 8961. *)
Theorem principle_seeding_starts_with_anchor title lane tier :
  exists paced,
    _butt_join_markers
      (_enrich_marker_notes (get_principle_markers_for_title title) lane tier)
      FPS = Ok paced
    /\ forall force (w : World HState),
       let run := add_markers_to_timeline_if_empty respond FPS paced force in
       exists cs,
         calls (snd (run w)) = calls w ++ cs
         /\ match marker_adds cs with
            | [] => True
            | c :: _ =>
                exists note,
                  c = AddMarker6 8961 "Blue" "⏱ 5min anchor" note 1 ""
            end.
Proof.
  rewrite enrich_of_principle_pack.
  pose proof principle_packs_lead_with_anchor as K.
  rewrite forallb_forall in K.
  specialize (K _ (principle_pack_in_range title)).
  set (pack := get_principle_markers_for_title title) in *.
  assert (J : exists paced,
            _butt_join_markers pack FPS = Ok paced
            /\ match placed_first paced with
               | Some m =>
                   first_attempt (fps_or_default FPS) m
                   = AddMarker6 8961 "Blue" "⏱ 5min anchor" (notes m) 1 ""
               | None => True
               end).
  { unfold anchor_leads in K. destruct pack as [|m0 pack0].
    - exists []. split; [reflexivity|exact I].
    - destruct (_butt_join_markers (m0 :: pack0) FPS) as [paced|e];
        [|discriminate].
      exists paced. split; [reflexivity|].
      destruct (placed_first paced) as [m|]; [|exact I].
      apply andb_true_iff in K as [K Kd].
      apply andb_true_iff in K as [K Kf].
      apply andb_true_iff in K as [Kn Kc].
      apply String.eqb_eq in Kn, Kc. apply Z.eqb_eq in Kf, Kd.
      unfold first_attempt. rewrite Kn, Kc, Kf, Kd. reflexivity. }
  destruct J as (paced & J & First). exists paced. split; [exact J|].
  intros force w run. subst run.
  destruct ((fst (_count_markers respond w) >? 0)%Z && negb force) eqn:G.
  - rewrite (seeding_skip _ respond FPS paced force w G). cbn [snd].
    exists [GetMarkers]. split; [apply count_markers_issues|exact I].
  - destruct (seeding_pass _ respond FPS paced force w G)
      as (_ & [(msg & _ & C)|(added & blocks & _ & C & F & _)]).
    + exists [GetMarkers; GetName]. split; [exact C|exact I].
    + exists (GetMarkers :: GetName :: concat blocks).
      split; [exact C|].
      cbn [marker_adds filter is_marker_add]. fold (marker_adds (concat blocks)).
      unfold placed_first in First.
      destruct F as [|m cs ms bl B F]; [exact I|].
      cbn [hd_error] in First. cbn [concat].
      destruct (marker_adds_block _ _ _ (concat bl) B) as (more & ->).
      rewrite First. eauto.
Qed.

End AnchorFirst.

(** ** Project settings: save, set, restore *)

Lemma In_firstn {A} (x : A) l : forall n, In x (firstn n l) -> In x l.
Proof.
  induction l as [|y l IH]; intros [|n] H; try contradiction.
  cbn [firstn In] in *. destruct H as [H|H]; [now left|right; eauto].
Qed.

Section ProjectFacts.
Variable PState : Type.
Variable presp : PState -> pcall -> reply * PState.

Let PWorld := PWorld PState.
Let PM := PM PState.

Lemma pbind_run {A B} (m : PM A) (k : A -> PM B) (w : PWorld) :
  pbind m k w = k (fst (m w)) (snd (m w)).
Proof. unfold pbind. now destruct (m w). Qed.

Lemma project_call_run c (w : PWorld) :
  project_call presp c w
  = (fst (presp (project w) c),
     mkPWorld (snd (presp (project w) c)) (pcalls w ++ [c])).
Proof. unfold project_call. now destruct (presp (project w) c). Qed.

Lemma project_after_app p cs1 cs2 :
  project_after presp p (cs1 ++ cs2)
  = project_after presp (project_after presp p cs1) cs2.
Proof. unfold project_after. apply fold_left_app. Qed.

Lemma project_after_cons p c cs :
  project_after presp p (c :: cs)
  = project_after presp (snd (presp p c)) cs.
Proof. reflexivity. Qed.

Lemma preplies_app cs1 cs2 : forall p,
  preplies presp p (cs1 ++ cs2)
  = preplies presp p cs1
    ++ preplies presp (project_after presp p cs1) cs2.
Proof.
  induction cs1 as [|c cs1 IH]; intro p; [reflexivity|].
  cbn [app preplies]. rewrite IH. reflexivity.
Qed.

Lemma pdrives_ret {A} (a : A) (w : PWorld) : pdrives presp (pret a) w [].
Proof. split; simpl; [now rewrite app_nil_r | reflexivity]. Qed.

Lemma pdrives_call c (w : PWorld) :
  pdrives presp (project_call presp c) w [c].
Proof. unfold pdrives. rewrite project_call_run. split; reflexivity. Qed.

Lemma pdrives_bind {A B} (m : PM A) (k : A -> PM B) (w : PWorld) cs1 cs2 :
  pdrives presp m w cs1 ->
  pdrives presp (k (fst (m w))) (snd (m w)) cs2 ->
  pdrives presp (pbind m k) w (cs1 ++ cs2).
Proof.
  unfold pdrives. rewrite pbind_run. intros [C1 H1] [C2 H2].
  split; [now rewrite C2, C1, app_assoc|].
  now rewrite H2, H1, project_after_app.
Qed.

(** Saving reads every key once, in order, and keeps what was read. *)
Lemma save_settings_spec keys : forall (w : PWorld),
  pdrives presp (save_settings presp keys) w (map GetSetting keys)
  /\ fst (save_settings presp keys w)
     = combine keys
         (map saved_value
              (preplies presp (project w) (map GetSetting keys))).
Proof.
  induction keys as [|k keys IH]; intro w.
  - split; [apply pdrives_ret|reflexivity].
  - cbn [save_settings map].
    set (w1 := snd (project_call presp (GetSetting k) w)).
    destruct (IH w1) as [D V]. split.
    + replace (GetSetting k :: map GetSetting keys)
        with ([GetSetting k] ++ (map GetSetting keys ++ []))
        by (now rewrite app_nil_r).
      apply pdrives_bind; [apply pdrives_call|]. fold w1.
      apply pdrives_bind; [exact D|]. apply pdrives_ret.
    + rewrite pbind_run. fold w1. rewrite pbind_run. cbn [pret fst].
      rewrite V. unfold w1. rewrite project_call_run. cbn [fst snd project].
      cbn [preplies map combine]. unfold saved_value at 2.
      destruct (fst (presp (project w) (GetSetting k))); reflexivity.
Qed.

(** The [try] block makes the assignments in order and ends with the first
    one that raises. *)
Lemma set_until_raise_spec kvs : forall (w : PWorld),
  exists n,
    (n <= length kvs)%nat
    /\ pdrives presp (set_until_raise presp kvs) w
               (map set_call (firstn n kvs))
    /\ Forall (fun r => raised r = false)
              (removelast (preplies presp (project w)
                                    (map set_call (firstn n kvs))))
    /\ ((n < length kvs)%nat ->
        raised (last (preplies presp (project w)
                               (map set_call (firstn n kvs)))
                     (Returns VNone)) = true).
Proof.
  induction kvs as [|[k v] kvs IH]; intro w.
  - exists 0%nat. cbn. repeat split; auto using pdrives_ret; try lia.
    apply pdrives_ret.
  - cbn [set_until_raise].
    set (c := SetSetting k v).
    set (w1 := snd (project_call presp c w)).
    assert (P1 : project w1 = snd (presp (project w) c))
      by (unfold w1; rewrite project_call_run; reflexivity).
    assert (F1 : fst (project_call presp c w) = fst (presp (project w) c))
      by (rewrite project_call_run; reflexivity).
    destruct (fst (presp (project w) c)) as [val|msg] eqn:R.
    + destruct (IH w1) as (n & Ln & D & Fr & La).
      exists (S n). cbn [firstn map length]. fold (set_call (k, v)).
      change (set_call (k, v)) with c.
      split; [lia|]. split; [|split].
      * change (c :: map set_call (firstn n kvs))
          with ([c] ++ map set_call (firstn n kvs)).
        apply pdrives_bind; [apply pdrives_call|].
        rewrite F1. exact D.
      * cbn [preplies]. rewrite R, <- P1.
        destruct (preplies presp (project w1)
                           (map set_call (firstn n kvs))) eqn:E.
        -- constructor.
        -- cbn [removelast]. constructor; [reflexivity|exact Fr].
      * intro Hn. cbn [preplies]. rewrite <- P1.
        destruct (preplies presp (project w1)
                           (map set_call (firstn n kvs))) eqn:E.
        -- destruct n as [|n'].
           ++ assert (L0 : (0 < length kvs)%nat) by lia.
              specialize (La L0). cbn in La. discriminate.
           ++ destruct kvs; [simpl in Ln; lia|discriminate].
        -- cbn [last]. apply La. lia.
    + exists 1%nat. cbn [firstn map length]. fold (set_call (k, v)).
      change (set_call (k, v)) with c.
      split; [lia|]. split; [|split].
      * change [c] with ([c] ++ []).
        apply pdrives_bind; [apply pdrives_call|].
        rewrite F1. apply pdrives_ret.
      * cbn. constructor.
      * intros _. cbn [preplies last]. rewrite R. reflexivity.
Qed.

(** X15.  [set_project_defaults] reads the six keys, whatever the reads answer,
    and then makes the six assignments in order, up to and including the
    first that raises: a failed assignment leaves the ones after it
    unmade.  It returns what it read, with [None] for a read that raised. *)
Theorem set_project_defaults_stops_at_first_raise w h fps (pw : PWorld) :
  let run := set_project_defaults presp w h fps in
  let reads := map GetSetting setting_keys in
  exists n,
    (n <= 6)%nat
    /\ pdrives presp run pw
               (reads ++ map set_call (firstn n (default_settings w h fps)))
    /\ fst (run pw)
       = combine setting_keys
           (map saved_value (preplies presp (project pw) reads))
    /\ Forall (fun r => raised r = false)
              (removelast
                 (preplies presp (project_after presp (project pw) reads)
                    (map set_call (firstn n (default_settings w h fps)))))
    /\ ((n < 6)%nat ->
        raised
          (last (preplies presp (project_after presp (project pw) reads)
                   (map set_call (firstn n (default_settings w h fps))))
                (Returns VNone)) = true).
Proof.
  intros run reads. subst run. unfold set_project_defaults.
  destruct (save_settings_spec setting_keys pw) as [D0 V0].
  fold reads in D0, V0.
  set (w1 := snd (save_settings presp setting_keys pw)) in *.
  destruct (set_until_raise_spec (default_settings w h fps) w1)
    as (n & Ln & D1 & Fr & La).
  assert (P1 : project w1 = project_after presp (project pw) reads)
    by apply D0.
  rewrite P1 in Fr, La.
  exists n. split; [exact Ln|]. split; [|split; [|split]].
  - apply pdrives_bind; [exact D0|]. fold w1.
    replace (map set_call (firstn n (default_settings w h fps)))
      with (map set_call (firstn n (default_settings w h fps)) ++ [])
      by apply app_nil_r.
    apply pdrives_bind; [exact D1|]. apply pdrives_ret.
  - rewrite pbind_run, pbind_run. cbn [pret fst]. exact V0.
  - exact Fr.
  - exact La.
Qed.

Lemma set_project_defaults_drives w h fps (pw : PWorld) :
  exists n,
    pdrives presp (set_project_defaults presp w h fps) pw
            (map GetSetting setting_keys
             ++ map set_call (firstn n (default_settings w h fps)))
    /\ fst (set_project_defaults presp w h fps pw)
       = combine setting_keys
           (map saved_value
                (preplies presp (project pw) (map GetSetting setting_keys))).
Proof.
  unfold set_project_defaults.
  destruct (save_settings_spec setting_keys pw) as [D0 V0].
  set (w1 := snd (save_settings presp setting_keys pw)) in *.
  destruct (set_until_raise_spec (default_settings w h fps) w1)
    as (n & _ & D1 & _).
  exists n. split.
  - apply pdrives_bind; [exact D0|]. fold w1.
    replace (map set_call (firstn n (default_settings w h fps)))
      with (map set_call (firstn n (default_settings w h fps)) ++ [])
      by apply app_nil_r.
    apply pdrives_bind; [exact D1|]. apply pdrives_ret.
  - rewrite pbind_run, pbind_run. cbn [pret fst]. exact V0.
Qed.

(** Restoring writes back every saved entry that is not [None], in the
    order saved, and reads nothing. *)
Lemma restore_project_defaults_spec prev : forall (w : PWorld),
  pdrives presp (restore_project_defaults presp prev) w
          (map set_call (restorable prev)).
Proof.
  induction prev as [|[k v] prev IH]; intro w; [apply pdrives_ret|].
  cbn [restore_project_defaults restorable filter snd].
  destruct (is_none v); cbn [negb]; [apply IH|].
  cbn [map]. fold (restorable prev).
  change (set_call (k, v) :: map set_call (restorable prev))
    with ([SetSetting k v] ++ map set_call (restorable prev)).
  apply pdrives_bind; [apply pdrives_call | apply IH].
Qed.

Section SettingLaws.
(** The value of each setting of a project, and what the project is assumed
    to do to it: a key-value store. *)
Variable setting : PState -> string -> pyval.

(** [GetSetting] reports the value and changes none. *)
Hypothesis get_reports : forall p k,
  fst (presp p (GetSetting k)) = Returns (setting p k).
Hypothesis get_keeps : forall p k k',
  setting (snd (presp p (GetSetting k))) k' = setting p k'.

(** [SetSetting] stores the value under its key and changes no other. *)
Hypothesis set_stores : forall p k v k',
  setting (snd (presp p (SetSetting k v))) k'
  = if String.eqb k' k then v else setting p k'.

Lemma reads_keep keys k : forall p,
  setting (project_after presp p (map GetSetting keys)) k = setting p k.
Proof.
  induction keys as [|k0 keys IH]; intro p; [reflexivity|].
  cbn [map]. rewrite project_after_cons.
  now rewrite IH, get_keeps.
Qed.

Lemma reads_saved keys : forall p,
  combine keys (map saved_value (preplies presp p (map GetSetting keys)))
  = map (fun k => (k, setting p k)) keys.
Proof.
  induction keys as [|k0 keys IH]; intro p; [reflexivity|].
  cbn [map preplies combine]. rewrite get_reports. cbn [saved_value].
  f_equal. rewrite IH. apply map_ext. intro k. now rewrite get_keeps.
Qed.

Lemma sets_keep_others kvs k : forall p,
  ~ In k (map fst kvs) ->
  setting (project_after presp p (map set_call kvs)) k = setting p k.
Proof.
  induction kvs as [|[k0 v0] kvs IH]; intros p N; [reflexivity|].
  cbn [map]. unfold set_call at 1. cbn [fst snd].
  rewrite project_after_cons.
  rewrite IH by (intro H; apply N; now right).
  rewrite set_stores.
  destruct (String.eqb_spec k k0) as [->|]; [|reflexivity].
  exfalso. apply N. now left.
Qed.

(** After the writes of a restore, each key holds its saved value if that
    is not [None], and what it held before otherwise. *)
Lemma restored_setting prev k : forall p,
  NoDup (map fst prev) ->
  setting (project_after presp p (map set_call (restorable prev))) k
  = match dict_get prev k with
    | Some v => if is_none v then setting p k else v
    | None => setting p k
    end.
Proof.
  induction prev as [|[k0 v0] prev IH]; intros p ND; [reflexivity|].
  cbn [map fst] in ND. inversion ND as [|? ? Nin ND']; subst.
  assert (Absent : k = k0 -> dict_get prev k = None).
  { intros ->. destruct (dict_get prev k0) as [v|] eqn:G; [|reflexivity].
    exfalso. apply Nin. apply in_map_iff. exists (k0, v).
    split; [reflexivity|].
    clear - G. induction prev as [|[k' v'] prev IH]; [discriminate|].
    cbn [dict_get] in G. destruct (String.eqb_spec k0 k') as [->|].
    - injection G as ->. now left.
    - right. now apply IH. }
  cbn [restorable filter snd dict_get].
  destruct (is_none v0) eqn:Nn; cbn [negb].
  - fold (restorable prev). rewrite (IH p ND').
    destruct (String.eqb_spec k k0) as [E|]; [|reflexivity].
    now rewrite (Absent E), Nn.
  - fold (restorable prev).
    cbn [map]. unfold set_call at 1. cbn [fst snd].
    rewrite project_after_cons.
    rewrite (IH _ ND'), set_stores.
    destruct (String.eqb_spec k k0) as [E|]; [|reflexivity].
    now rewrite (Absent E), Nn.
Qed.

(** X16.  Round trip.  On a project that behaves as a key-value store, saving and
    setting the defaults and then restoring what was saved leaves every
    setting as it was, with one exception: a key of the six whose value
    was [None] is not written back and keeps what [set_project_defaults]
    left in it. *)
Theorem settings_round_trip w h fps (pw : PWorld) :
  let after_set := project (snd (set_project_defaults presp w h fps pw)) in
  let final := project (snd (set_then_restore presp w h fps pw)) in
  forall k,
    setting final k
    = if list_mem k setting_keys && is_none (setting (project pw) k)
      then setting after_set k
      else setting (project pw) k.
Proof.
  intros after_set final k. subst after_set final. unfold set_then_restore.
  rewrite pbind_run.
  destruct (set_project_defaults_drives w h fps pw) as (n & [_ P1] & V).
  set (w1 := snd (set_project_defaults presp w h fps pw)) in *.
  rewrite V, reads_saved.
  set (prev := map (fun k0 => (k0, setting (project pw) k0)) setting_keys).
  destruct (restore_project_defaults_spec prev w1) as [_ P2].
  rewrite P2.
  assert (ND : NoDup (map fst prev)).
  { unfold prev. rewrite map_map. cbn [fst]. rewrite map_id.
    unfold setting_keys.
    repeat (constructor;
            [cbn [In]; intros H;
             repeat (destruct H as [H|H]; [discriminate H|]); exact H|]).
    constructor. }
  rewrite (restored_setting prev k _ ND).
  assert (G : dict_get prev k
              = if list_mem k setting_keys
                then Some (setting (project pw) k) else None).
  { unfold prev, list_mem. clear.
    induction setting_keys as [|k0 keys IH]; [reflexivity|].
    cbn [map dict_get existsb].
    destruct (String.eqb_spec k k0) as [->|]; [reflexivity|exact IH]. }
  rewrite G.
  destruct (list_mem k setting_keys) eqn:Mem; cbn [andb].
  - destruct (is_none (setting (project pw) k)); reflexivity.
  - rewrite P1, project_after_app.
    rewrite sets_keep_others, reads_keep; [reflexivity|].
    intro H. apply in_map_iff in H as ([k' v'] & E & Hin).
    cbn [fst] in E. subst k'.
    apply In_firstn in Hin.
    assert (Hk : In k setting_keys).
    { unfold default_settings in Hin. unfold setting_keys. cbn [In] in *.
      repeat (destruct Hin as [Hin|Hin];
              [injection Hin as <- _; auto 10|]).
      contradiction. }
    unfold list_mem in Mem.
    assert (T : existsb (String.eqb k) setting_keys = true).
    { apply existsb_exists. exists k. split; [exact Hk|apply String.eqb_refl]. }
    congruence.
Qed.

End SettingLaws.
End ProjectFacts.

(** The in-memory project is a key-value store. *)
Lemma mem_get_reports p k :
  fst (mem_presp p (GetSetting k)) = Returns (mem_setting p k).
Proof. reflexivity. Qed.

Lemma mem_get_keeps p k k' :
  mem_setting (snd (mem_presp p (GetSetting k))) k' = mem_setting p k'.
Proof. reflexivity. Qed.

Lemma mem_set_stores p k v k' :
  mem_setting (snd (mem_presp p (SetSetting k v))) k'
  = if String.eqb k' k then v else mem_setting p k'.
Proof.
  unfold mem_setting. cbn [mem_presp snd dict_get].
  destruct (String.eqb k' k); reflexivity.
Qed.

(** A 1080p project at 24 fps without an interlace setting: after the round
    trip the width is 1920 again, and the interlace setting, which had no
    value to restore, is ["0"]. *)
Lemma settings_round_trip_witness :
  let final := project (snd (set_then_restore mem_presp "2160" "3840" "29.97"
                               (mkPWorld hd_project []))) in
  mem_setting final "timelineResolutionWidth" = VStr "1920"
  /\ mem_setting final "timelineInterlaceProcessing" = VStr "0".
Proof.
  intro final. subst final.
  pose proof (settings_round_trip MemProject mem_presp mem_setting
                mem_get_reports mem_get_keeps mem_set_stores
                "2160" "3840" "29.97" (mkPWorld hd_project [])) as R.
  cbv zeta in R. split.
  - rewrite (R "timelineResolutionWidth"). reflexivity.
  - rewrite (R "timelineInterlaceProcessing"). reflexivity.
Defined.


(** ** Tracks: reaching the declared layout *)

Section TrackTarget.
Variable HState : Type.
Variable respond : HState -> call -> reply * HState.
Variable int_of_text : string -> option Z.
Variable track_count : HState -> string -> Z.
Variable kind : string.

(** The host keeps a count per kind, changed only by [AddTrack] and
    [DeleteTrack] of that kind, reported by [GetTrackCount], and raised by
    one by each [AddTrack] of the kind at hand. *)
Hypothesis count_changes_only_by_add_or_delete : forall h c k,
  changes_count c k = false ->
  track_count (snd (respond h c)) k = track_count h k.
Hypothesis add_track_adds_one : forall h,
  track_count (snd (respond h (AddTrack kind))) kind
  = (track_count h kind + 1)%Z.
Hypothesis count_is_reported : forall h k,
  fst (respond h (GetTrackCount k)) = Returns (VInt (track_count h k)).

Lemma adds_raise_count n : forall h,
  track_count (host_after respond h (repeat (AddTrack kind) n)) kind
  = (track_count h kind + Z.of_nat n)%Z.
Proof.
  induction n as [|n IH]; intro h; [cbn; lia|].
  cbn [repeat host_after fold_left].
  fold (host_after respond (snd (respond h (AddTrack kind)))
                   (repeat (AddTrack kind) n)).
  rewrite IH, add_track_adds_one. lia.
Qed.

(** Renaming and the subtitle step leave the count of any other kind
    alone. *)
Lemma tail_keeps_count tb lr tail :
  kind <> "subtitle" ->
  (if String.eqb kind "video"
   then tail = rename_calls "video" 1 (track_target kind tb lr)
   else exists sub,
       tail = rename_calls "audio" 1 (track_target kind tb lr)
              ++ GetTrackCount "subtitle" :: sub
       /\ (sub = [] \/ sub = [AddTrack "subtitle"]
           \/ sub = [AddTrack "subtitle";
                     SetTrackName "subtitle" 1 "CC | English"])) ->
  Forall (fun c => changes_count c kind = false) tail.
Proof.
  intros Ns Ht.
  assert (R : forall kd, Forall (fun c => changes_count c kind = false)
                (rename_calls kd 1 (track_target kind tb lr))).
  { intro kd. eapply Forall_impl; [|apply (rename_calls_keep kd _ kind 1%Z)].
    intros c [_ H]. exact H. }
  destruct (String.eqb kind "video").
  - subst tail. apply R.
  - destruct Ht as (sub & -> & Hs).
    apply Forall_app. split; [apply R|].
    constructor; [reflexivity|].
    assert (E : String.eqb "subtitle" kind = false).
    { apply String.eqb_neq. congruence. }
    destruct Hs as [ -> | [ -> | -> ] ]; repeat constructor; exact E.
Qed.

(** X17.  On such a host [ensure_tracks_named] does what its name says: afterwards
    the timeline has the declared number of tracks of the kind, or the
    number it had if that was larger; and a second run on the result issues
    no call that adds or deletes a track of the kind. *)
Theorem ensure_tracks_reaches_target tb lr stats_ref (w : World HState) :
  kind <> "subtitle" ->
  let run := ensure_tracks_named respond int_of_text kind tb lr stats_ref in
  let target := track_target kind tb lr in
  track_count (host (snd (run w))) kind
  = Z.max (track_count (host w) kind) (Z.of_nat (length target))
  /\ exists cs2,
       drives respond run (snd (run w)) cs2
       /\ Forall (fun c => changes_count c kind = false) cs2.
Proof.
  intros Ns run target. subst run.
  assert (Reach : forall w0 : World HState,
            track_count
              (host (snd (ensure_tracks_named respond int_of_text kind tb lr
                            stats_ref w0))) kind
            = Z.max (track_count (host w0) kind)
                    (Z.of_nat (length target))).
  { intro w0.
    pose proof (ensure_tracks_named_drives _ respond int_of_text kind tb lr
                  stats_ref w0) as P.
    cbv zeta in P. fold target in P.
    destruct P as (tail & [_ Hh] & Ht).
    rewrite (reported_count _ respond int_of_text track_count
               count_is_reported) in Hh.
    rewrite Hh.
    change (GetTrackCount kind
            :: repeat (AddTrack kind)
                 (Z.to_nat (Z.max 0 (Z.of_nat (length target)
                                     - track_count (host w0) kind)))
               ++ tail)
      with ([GetTrackCount kind]
            ++ (repeat (AddTrack kind)
                  (Z.to_nat (Z.max 0 (Z.of_nat (length target)
                                      - track_count (host w0) kind)))
                ++ tail)).
    rewrite !host_after_app.
    rewrite (host_after_keeps _ respond track_count
               count_changes_only_by_add_or_delete tail kind)
      by (now apply (tail_keeps_count tb lr)).
    rewrite adds_raise_count.
    rewrite (host_after_keeps _ respond track_count
               count_changes_only_by_add_or_delete [GetTrackCount kind] kind)
      by (repeat constructor).
    lia. }
  split; [apply Reach|].
  set (w1 := snd (ensure_tracks_named respond int_of_text kind tb lr
                    stats_ref w)).
  pose proof (ensure_tracks_named_drives _ respond int_of_text kind tb lr
                stats_ref w1) as P.
  cbv zeta in P. fold target in P.
  destruct P as (tail & D & Ht).
  rewrite (reported_count _ respond int_of_text track_count
             count_is_reported) in D.
  unfold w1 in D at 2. rewrite Reach in D. fold w1 in D.
  replace (Z.to_nat
             (Z.max 0
                (Z.of_nat (length target)
                 - Z.max (track_count (host w) kind)
                         (Z.of_nat (length target)))))
    with 0%nat in D by lia.
  cbn [repeat app] in D.
  exists (GetTrackCount kind :: tail). split; [exact D|].
  constructor; [reflexivity|]. now apply (tail_keeps_count tb lr).
Qed.

End TrackTarget.

Lemma mem_add_track_adds_one k h :
  mem_known_kind k = true ->
  mem_track_count (snd (mem_respond h (AddTrack k))) k
  = (mem_track_count h k + 1)%Z.
Proof.
  intro K. unfold mem_track_count. cbn [mem_respond]. rewrite K.
  cbn [snd]. rewrite mem_tracks_set, String.eqb_refl, K. cbn [andb].
  rewrite length_app. cbn [length]. lia.
Qed.

(** A timeline with one video track gets the ten of the catalog, and a
    second run adds none. *)
Lemma ensure_tracks_reaches_target_witness :
  let run := ensure_tracks_named mem_respond mem_int_of_text "video"
               (Some VIDEO_TRACKS_TOP_TO_BOTTOM) None true in
  mem_track_count (host (snd (run (mem_world studio_timeline)))) "video"
  = 10%Z
  /\ exists cs2,
       drives mem_respond run (snd (run (mem_world studio_timeline))) cs2
       /\ Forall (fun c => changes_count c "video" = false) cs2.
Proof.
  intro run.
  apply (ensure_tracks_reaches_target MemTimeline mem_respond
           mem_int_of_text mem_track_count "video"
           mem_count_changes_only_by_add_or_delete
           (fun h => mem_add_track_adds_one "video" h eq_refl)
           mem_count_is_reported
           (Some VIDEO_TRACKS_TOP_TO_BOTTOM) None true
           (mem_world studio_timeline)).
  discriminate.
Defined.

(** ** Tracks: what the statistics record *)

Section TrackAccounting.
Variable HState : Type.
Variable respond : HState -> call -> reply * HState.
Variable int_of_text : string -> option Z.

Let World := World HState.

Lemma host_call_stats c (w : World) :
  stats (snd (host_call respond c w)) = stats w.
Proof. rewrite host_call_run. reflexivity. Qed.

Lemma track_count_or_zero_world kind (w : World) :
  stats (snd (track_count_or_zero respond int_of_text kind w)) = stats w
  /\ host (snd (track_count_or_zero respond int_of_text kind w))
     = snd (respond (host w) (GetTrackCount kind)).
Proof.
  unfold track_count_or_zero. rewrite bind_run, host_call_run.
  cbn [fst snd].
  destruct (fst (respond (host w) (GetTrackCount kind))); split; reflexivity.
Qed.

Lemma name_tracks_stats kind target : forall i (w : World),
  stats (snd (name_tracks respond kind i target w)) = stats w.
Proof.
  induction target as [|label target IH]; intros i w; [reflexivity|].
  cbn [name_tracks]. rewrite bind_run, IH. apply host_call_stats.
Qed.

Lemma when_stats_off f (w : World) : snd (when_stats false f w) = w.
Proof. reflexivity. Qed.

Lemma repeat_add_without_stats kind n : forall (w : World),
  stats (snd (repeat_m n (add_one_track respond kind false) w)) = stats w.
Proof.
  induction n as [|n IH]; intro w; [reflexivity|].
  cbn [repeat_m]. rewrite bind_run, IH.
  unfold add_one_track. rewrite bind_run.
  destruct (fst (host_call respond (AddTrack kind) w));
    cbn [when_stats ret snd]; apply host_call_stats.
Qed.

(** Each addition is recorded once: as a created track if [AddTrack]
    returned, as an error if it raised. *)
Lemma repeat_add_with_stats kind n : forall (w : World),
  let s' := stats (snd (repeat_m n (add_one_track respond kind true) w)) in
  let adds := repeat (AddTrack kind) n in
  other_counters s' = other_counters (stats w)
  /\ error_count s'
     = (error_count (stats w)
        + Z.of_nat (raised_count respond (host w) adds))%Z
  /\ tracks_created s'
     = (tracks_created (stats w)
        + Z.of_nat (returned_count respond (host w) adds))%Z.
Proof.
  induction n as [|n IH]; intros w s' adds; subst s' adds.
  - cbn. repeat split; lia.
  - cbn [repeat_m repeat]. rewrite bind_run.
    set (w1 := snd (add_one_track respond kind true w)).
    destruct (IH w1) as (O1 & E1 & T1). cbv zeta in O1, E1, T1.
    rewrite O1, E1, T1.
    unfold raised_count, returned_count. cbn [replies filter].
    assert (H1 : host w1 = snd (respond (host w) (AddTrack kind))).
    { unfold w1, add_one_track. rewrite bind_run, host_call_run.
      cbn [fst snd].
      destruct (fst (respond (host w) (AddTrack kind))); reflexivity. }
    rewrite H1.
    assert (S1 : stats w1
                 = match fst (respond (host w) (AddTrack kind)) with
                   | Returns _ => incr_tracks_created (stats w)
                   | Raises msg =>
                       log_error ("Track creation: " ++ kind)%string msg
                                 (stats w)
                   end).
    { unfold w1, add_one_track. rewrite bind_run, host_call_run.
      cbn [fst snd].
      destruct (fst (respond (host w) (AddTrack kind))); reflexivity. }
    rewrite S1.
    destruct (fst (respond (host w) (AddTrack kind))) as [v|msg];
      cbn [raised negb length]; unfold error_count;
      cbn [other_counters incr_tracks_created log_error errors
           tracks_created folders_created folders_found timelines_created
           timelines_failed timelines_skipped];
      rewrite ?length_app; cbn [length]; repeat split; lia.
Qed.

Lemma ensure_subtitle_stats stats_ref (w : World) :
  let s' := stats (snd (ensure_subtitle_track respond int_of_text stats_ref
                          w)) in
  s' = stats w \/ (stats_ref = true /\ s' = incr_tracks_created (stats w)).
Proof.
  intro s'. subst s'. unfold ensure_subtitle_track. rewrite bind_run.
  destruct (track_count_or_zero_world "subtitle" w) as [S0 _].
  set (w0 := snd (track_count_or_zero respond int_of_text "subtitle" w)) in *.
  destruct (fst (track_count_or_zero respond int_of_text "subtitle" w) =? 0)%Z;
    [|left; exact S0].
  rewrite bind_run.
  pose proof (host_call_stats (AddTrack "subtitle") w0) as S1.
  set (w1 := snd (host_call respond (AddTrack "subtitle") w0)) in *.
  destruct (fst (host_call respond (AddTrack "subtitle") w0));
    [|left; cbn [ret snd]; congruence].
  rewrite bind_run.
  pose proof (host_call_stats (SetTrackName "subtitle" 1 "CC | English") w1)
    as S2.
  set (w2 := snd (host_call respond
                    (SetTrackName "subtitle" 1 "CC | English") w1)) in *.
  destruct (fst (host_call respond
                   (SetTrackName "subtitle" 1 "CC | English") w1));
    [|left; cbn [ret snd]; congruence].
  destruct stats_ref.
  - right. split; [reflexivity|]. cbn [when_stats update_stats snd stats].
    congruence.
  - left. cbn [when_stats ret snd]. congruence.
Qed.

(** Track setup moves no counter of folders or timelines. *)
Lemma ensure_tracks_named_other_counters kind tb lr stats_ref (w : World) :
  other_counters
    (stats (snd (ensure_tracks_named respond int_of_text kind tb lr stats_ref
                   w)))
  = other_counters (stats w).
Proof.
  unfold ensure_tracks_named. rewrite bind_run.
  destruct (track_count_or_zero_world kind w) as [S0 _].
  set (w0 := snd (track_count_or_zero respond int_of_text kind w)) in *.
  set (n := Z.to_nat _).
  rewrite bind_run.
  assert (S1 : other_counters
                 (stats (snd (repeat_m n (add_one_track respond kind
                                            stats_ref) w0)))
               = other_counters (stats w)).
  { destruct stats_ref.
    - destruct (repeat_add_with_stats kind n w0) as (O1 & _).
      cbv zeta in O1. now rewrite O1, S0.
    - now rewrite repeat_add_without_stats, S0. }
  set (w1 := snd (repeat_m n (add_one_track respond kind stats_ref) w0)) in *.
  destruct (String.eqb kind "video").
  - now rewrite name_tracks_stats.
  - rewrite bind_run.
    pose proof (name_tracks_stats "audio" (track_target kind tb lr) 1 w1)
      as S2.
    set (w2 := snd (name_tracks respond "audio" 1
                      (track_target kind tb lr) w1)) in *.
    destruct (ensure_subtitle_stats stats_ref w2) as [S3|[_ S3]];
      cbv zeta in S3; rewrite S3, S2; [exact S1|].
    rewrite <- S1. reflexivity.
Qed.

(** X18.  What [ensure_tracks_named] records.  Without a [stats] object it
    records nothing.  With one, every track it asks for is recorded exactly
    once, as created when [AddTrack] returned (whatever it returned) and as
    an error when it raised; the subtitle step of a kind other than video
    may count one more track; no other counter moves. *)
Theorem ensure_tracks_named_accounting kind tb lr stats_ref (w : World) :
  let run := ensure_tracks_named respond int_of_text kind tb lr stats_ref in
  let s' := stats (snd (run w)) in
  let have := fst (track_count_or_zero respond int_of_text kind w) in
  let adds :=
    repeat (AddTrack kind)
           (Z.to_nat (Z.max 0 (Z.of_nat (length (track_target kind tb lr))
                               - have))) in
  let h1 := snd (respond (host w) (GetTrackCount kind)) in
  if stats_ref then
    other_counters s' = other_counters (stats w)
    /\ error_count s'
       = (error_count (stats w) + Z.of_nat (raised_count respond h1 adds))%Z
    /\ exists sub,
         (sub = 0%Z \/ (sub = 1%Z /\ kind <> "video"))
         /\ tracks_created s'
            = (tracks_created (stats w)
               + Z.of_nat (returned_count respond h1 adds) + sub)%Z
  else s' = stats w.
Proof.
  intros run s' have adds h1. subst run s' adds h1.
  unfold ensure_tracks_named. rewrite bind_run. fold have.
  destruct (track_count_or_zero_world kind w) as [S0 H0].
  set (w0 := snd (track_count_or_zero respond int_of_text kind w)) in *.
  set (n := Z.to_nat (Z.max 0 (Z.of_nat (length (track_target kind tb lr))
                               - have))).
  rewrite bind_run.
  destruct stats_ref.
  - destruct (repeat_add_with_stats kind n w0) as (O1 & E1 & T1).
    cbv zeta in O1, E1, T1. rewrite S0 in O1, E1, T1.
    rewrite H0 in E1, T1.
    set (w1 := snd (repeat_m n (add_one_track respond kind true) w0)) in *.
    destruct (String.eqb_spec kind "video") as [V|NV].
    + rewrite name_tracks_stats.
      split; [exact O1|]. split; [exact E1|].
      exists 0%Z. split; [now left|lia].
    + rewrite bind_run.
      pose proof (name_tracks_stats "audio" (track_target kind tb lr) 1 w1)
        as S2.
      set (w2 := snd (name_tracks respond "audio" 1
                        (track_target kind tb lr) w1)) in *.
      destruct (ensure_subtitle_stats true w2) as [S3|[_ S3]];
        cbv zeta in S3; rewrite S3, S2.
      * split; [exact O1|]. split; [exact E1|].
        exists 0%Z. split; [now left|lia].
      * split; [exact O1|]. split; [exact E1|].
        exists 1%Z. split; [right; auto|].
        cbn [incr_tracks_created tracks_created]. lia.
  - pose proof (repeat_add_without_stats kind n w0) as S1.
    set (w1 := snd (repeat_m n (add_one_track respond kind false) w0)) in *.
    destruct (String.eqb kind "video").
    + rewrite name_tracks_stats. congruence.
    + rewrite bind_run.
      pose proof (name_tracks_stats "audio" (track_target kind tb lr) 1 w1)
        as S2.
      set (w2 := snd (name_tracks respond "audio" 1
                        (track_target kind tb lr) w1)) in *.
      destruct (ensure_subtitle_stats false w2) as [S3|[F _]];
        [|discriminate].
      cbv zeta in S3. congruence.
Qed.

End TrackAccounting.

(** ** Folders: found, created or failed *)

Section FolderFacts.
Variable OState : Type.
Variable orespond : OState -> ocall -> oreply * OState.
Variable join_error : list oval -> string.

Let FWorld := FWorld OState.
Let FM := FM OState.

Lemma fbind_run {A B} (m : FM A) (k : A -> FM B) (w : FWorld) :
  fbind m k w = k (fst (m w)) (snd (m w)).
Proof. unfold fbind. now destruct (m w). Qed.

Lemma pool_call_run c (w : FWorld) :
  pool_call orespond c w
  = (fst (orespond (pool w) c),
     mkFWorld (snd (orespond (pool w) c)) (ocalls w ++ [c]) (fstats w)).
Proof. unfold pool_call. now destruct (orespond (pool w) c). Qed.

(** From [w] to [w'] the pool was only read: the statistics are as before
    and no call added a folder. *)
Let reads (w w' : FWorld) : Prop :=
  fstats w' = fstats w
  /\ exists cs, ocalls w' = ocalls w ++ cs
                /\ Forall (fun c => is_folder_add c = false) cs.

Lemma reads_refl (w : FWorld) : reads w w.
Proof.
  split; [reflexivity|]. exists []. split; [|constructor].
  now rewrite app_nil_r.
Qed.

Lemma reads_trans (w1 w2 w3 : FWorld) :
  reads w1 w2 -> reads w2 w3 -> reads w1 w3.
Proof.
  intros [S1 (cs1 & C1 & F1)] [S2 (cs2 & C2 & F2)].
  split; [congruence|]. exists (cs1 ++ cs2). split.
  - now rewrite C2, C1, app_assoc.
  - apply Forall_app. auto.
Qed.

Lemma reads_call c (w : FWorld) :
  is_folder_add c = false -> reads w (snd (pool_call orespond c w)).
Proof.
  intro N. unfold reads. rewrite pool_call_run. cbn [snd fstats ocalls].
  split; [reflexivity|]. exists [c]. split; [reflexivity|]. now constructor.
Qed.

Lemma iter_accessors_reads accessors folder : forall (w : FWorld),
  reads w (snd (iter_accessors orespond accessors folder w)).
Proof.
  induction accessors as [|a rest IH]; intro w; [apply reads_refl|].
  cbn [iter_accessors].
  destruct folder as [| | | |id| | |]; try apply IH.
  rewrite fbind_run.
  pose proof (reads_call (SubFolders a id) w eq_refl) as R1.
  destruct (fst (pool_call orespond (SubFolders a id) w))
    as [[| | | | | |items|items]| |];
    try (eapply reads_trans; [exact R1|apply IH]); exact R1.
Qed.

Section NamesAreText.
(** A folder's [GetName] returns text, if it returns. *)
Hypothesis names_are_text : forall h id v,
  fst (orespond h (FolderName id)) = OReturns v -> is_text v = true.

Lemma path_names_reads fuel : forall cur (w : FWorld),
  reads w (snd (path_names orespond fuel cur w))
  /\ forallb is_text (fst (path_names orespond fuel cur w)) = true.
Proof.
  induction fuel as [|fuel IH]; intros cur w.
  - split; [apply reads_refl|reflexivity].
  - cbn [path_names].
    destruct cur as [| | | |id| | |];
      try (split; [apply reads_refl|reflexivity]).
    rewrite fbind_run.
    pose proof (reads_call (FolderName id) w eq_refl) as R1.
    assert (T1 : forall nm,
              fst (pool_call orespond (FolderName id) w) = OReturns nm ->
              is_text nm = true).
    { intros nm E. rewrite pool_call_run in E. cbn [fst] in E.
      eapply names_are_text, E. }
    set (w1 := snd (pool_call orespond (FolderName id) w)) in *.
    destruct (fst (pool_call orespond (FolderName id) w)) as [nm| |] eqn:E1.
    + specialize (T1 nm eq_refl).
      rewrite fbind_run.
      pose proof (reads_trans _ _ _ R1
                    (reads_call (FolderParent id) w1 eq_refl)) as R2.
      set (w2 := snd (pool_call orespond (FolderParent id) w1)) in *.
      assert (Stop : reads w w2 /\ forallb is_text [nm] = true).
      { split; [exact R2|]. cbn. now rewrite T1. }
      destruct (fst (pool_call orespond (FolderParent id) w1))
        as [parent| |]; cbn [fret fst snd]; try exact Stop.
      destruct (o_truthy parent); [|exact Stop].
      rewrite fbind_run. cbn [fret fst snd].
      destruct (IH parent w2) as [R3 T3].
      split; [exact (reads_trans _ _ _ R2 R3)|].
      cbn [forallb]. now rewrite T1, T3.
    + split; [exact R1|reflexivity].
    + split; [exact R1|reflexivity].
Qed.

Lemma all_text_of_texts names :
  forallb is_text names = true -> exists texts, all_text names = Some texts.
Proof.
  induction names as [|v names IH]; [now exists []|].
  cbn [forallb]. intro H. apply andb_true_iff in H as [Hv Hn].
  destruct (IH Hn) as [texts E].
  destruct v; try discriminate. cbn [all_text]. rewrite E. eauto.
Qed.

(** With names that are text [get_folder_path] returns a path. *)
Lemma get_folder_path_text folder (w : FWorld) :
  reads w (snd (get_folder_path orespond folder w))
  /\ exists s, fst (get_folder_path orespond folder w) = PathText s.
Proof.
  unfold get_folder_path.
  destruct (path_names_reads 10 folder w) as [R T].
  assert (Tr : forallb is_text
                 (rev (fst (path_names orespond 10 folder w))) = true).
  { rewrite forallb_forall in *. intros v Hv. apply T. now apply in_rev. }
  destruct (all_text_of_texts _ Tr) as [texts E].
  rewrite fbind_run, E. cbn [fret fst snd].
  split; [exact R|]. eauto.
Qed.

(** The search either finds nothing and changes nothing, or returns a
    folder object and counts it as found; either way it adds no folder. *)
Lemma find_subfolder_spec parent name subs : forall (w0 w : FWorld),
  reads w0 w ->
  let r := find_subfolder orespond subs parent name w in
  (fst r = None /\ reads w0 (snd r))
  \/ (exists id w',
        fst r = Some (OObj id) /\ reads w0 w'
        /\ snd r = mkFWorld (pool w') (ocalls w')
                            (incr_folders_found (fstats w'))).
Proof.
  induction subs as [|sub rest IH]; intros w0 w R r; subst r.
  - cbn [find_subfolder fret fst snd]. now left.
  - cbn [find_subfolder].
    destruct sub as [| | | |id| | |]; try (apply IH; exact R).
    rewrite fbind_run.
    pose proof (reads_trans _ _ _ R (reads_call (FolderName id) w eq_refl))
      as R1.
    set (w1 := snd (pool_call orespond (FolderName id) w)) in *.
    destruct (fst (pool_call orespond (FolderName id) w))
      as [[| | |s| | | |]| |]; try (apply IH; exact R1).
    destruct (String.eqb s name); [|apply IH; exact R1].
    rewrite fbind_run.
    destruct (get_folder_path_text parent w1) as [R2 (path & E)].
    set (w2 := snd (get_folder_path orespond parent w1)) in *.
    rewrite E. rewrite fbind_run.
    cbn [fret fupdate_stats fst snd].
    right. exists id, w2. split; [reflexivity|].
    split; [exact (reads_trans _ _ _ R1 R2)|reflexivity].
Qed.

(** A folder returned by a creation call is counted when it is true. *)
Lemma count_created_spec folder parent (w : FWorld) :
  let r := count_created orespond join_error folder parent w in
  fst r = None
  /\ fstats (snd r)
     = if o_truthy folder then incr_folders_created (fstats w)
       else fstats w.
Proof.
  intro r. subst r. unfold count_created.
  destruct (o_truthy folder); [|split; reflexivity].
  rewrite fbind_run.
  destruct (get_folder_path_text parent w) as [[S1 _] (path & E)].
  rewrite E, fbind_run. cbn [fret fupdate_stats fst snd fstats].
  split; [reflexivity|]. now rewrite S1.
Qed.

(** The fallback, entered with nothing in hand: it ends with a folder that
    is counted, or with nothing and at most one error. *)
Lemma try_parent_add_spec parent name folder (w : FWorld) :
  o_truthy folder = false ->
  let r := try_parent_add orespond join_error parent name folder w in
  let op := ("Folder creation: " ++ name)%string in
  (o_truthy (fst r) = true
   /\ fstats (snd r) = incr_folders_created (fstats w))
  \/ (o_truthy (fst r) = false
      /\ (fstats (snd r) = fstats w
          \/ exists msg, fstats (snd r) = log_error op msg (fstats w))).
Proof.
  intros Hf r op. subst r op. unfold try_parent_add.
  destruct parent as [| | | |id| | |];
    try (right; split; [exact Hf|now left]).
  rewrite fbind_run, pool_call_run. cbn [fst snd].
  set (w1 := mkFWorld _ _ _).
  assert (S1 : fstats w1 = fstats w) by reflexivity.
  destruct (fst (orespond (pool w) (FolderAddSubFolder id name)))
    as [v|msg|].
  - rewrite fbind_run.
    destruct (count_created_spec v (OObj id) w1) as [E S2].
    cbv zeta in E, S2. rewrite E. cbn [fret fst snd]. rewrite S2, S1.
    destruct (o_truthy v); [left|right]; auto.
  - rewrite fbind_run. cbn [fret fupdate_stats fst snd fstats].
    right. split; [exact Hf|]. right. exists msg. now rewrite S1.
  - cbn [fret fst snd]. right. split; [exact Hf|now left].
Qed.

(** X19.  [get_or_create_folder] ends in one of three ways.  It finds a
    subfolder of that name, counts it as found and has asked for no
    folder to be added; or a creation call returned a folder, which it
    counts as created and returns; or it returns nothing and records the
    failure, once, or twice when [parent.AddSubFolder] raised.  A folder is
    returned exactly when no error is recorded. *)
Theorem get_or_create_folder_accounting parent name (w : FWorld) :
  let run := get_or_create_folder orespond join_error parent name in
  let res := fst (run w) in
  let s' := fstats (snd (run w)) in
  let op := ("Folder creation: " ++ name)%string in
  (o_truthy res = true
   /\ s' = incr_folders_found (fstats w)
   /\ exists cs, ocalls (snd (run w)) = ocalls w ++ cs
                 /\ Forall (fun c => is_folder_add c = false) cs)
  \/ (o_truthy res = true /\ s' = incr_folders_created (fstats w))
  \/ (o_truthy res = false
      /\ (s' = log_error op "All methods failed" (fstats w)
          \/ exists msg,
               s' = log_error op "All methods failed"
                              (log_error op msg (fstats w)))).
Proof.
  intros run res s' op. subst run res s'.
  unfold get_or_create_folder. rewrite fbind_run.
  pose proof (iter_accessors_reads ["GetSubFolders"; "GetSubFolderList"]
                parent w) as R0.
  fold (_iter_subfolders orespond parent) in *.
  set (w0 := snd (_iter_subfolders orespond parent w)) in *.
  rewrite fbind_run.
  destruct (find_subfolder_spec parent name
              (fst (_iter_subfolders orespond parent w)) w w0 R0)
    as [[E1 R1]|(id & w' & E1 & R1 & W1)]; rewrite E1.
  2:{ left. cbn [fret fst snd]. rewrite W1. cbn [fstats ocalls].
      destruct R1 as [S1 C1]. split; [reflexivity|].
      split; [now rewrite S1|exact C1]. }
  set (w1 := snd (find_subfolder orespond
                    (fst (_iter_subfolders orespond parent w))
                    parent name w0)) in *.
  right. rewrite fbind_run.
  assert (SW : fstats w1 = fstats w) by apply R1.
  (* the creation attempts *)
  set (create := fbind (pool_call orespond (PoolAddSubFolder parent name)) _).
  assert (Created :
            (o_truthy (fst (create w1)) = true
             /\ fstats (snd (create w1)) = incr_folders_created (fstats w))
            \/ (o_truthy (fst (create w1)) = false
                /\ (fstats (snd (create w1)) = fstats w
                    \/ exists msg,
                         fstats (snd (create w1))
                         = log_error op msg (fstats w)))).
  { subst create. rewrite fbind_run, pool_call_run. cbn [fst snd].
    set (w2 := mkFWorld _ _ _).
    assert (S2 : fstats w2 = fstats w) by (cbn; exact SW).
    assert (Fallback : forall folder, o_truthy folder = false ->
              let r := try_parent_add orespond join_error parent name
                                      folder w2 in
              (o_truthy (fst r) = true
               /\ fstats (snd r) = incr_folders_created (fstats w))
              \/ (o_truthy (fst r) = false
                  /\ (fstats (snd r) = fstats w
                      \/ exists msg,
                           fstats (snd r) = log_error op msg (fstats w)))).
    { intros folder Hf r.
      pose proof (try_parent_add_spec parent name folder w2 Hf) as T.
      cbv zeta in T. fold r in T. rewrite S2 in T. exact T. }
    assert (Direct : forall folder,
              let r := fbind (count_created orespond join_error folder
                                            parent)
                             (fun e => match e with
                                       | None => fret folder
                                       | Some _ =>
                                           try_parent_add orespond join_error
                                             parent name folder
                                       end) w2 in
              (o_truthy (fst r) = true
               /\ fstats (snd r) = incr_folders_created (fstats w))
              \/ (o_truthy (fst r) = false
                  /\ (fstats (snd r) = fstats w
                      \/ exists msg,
                           fstats (snd r) = log_error op msg (fstats w)))).
    { intros folder r. subst r. rewrite fbind_run.
      destruct (count_created_spec folder parent w2) as [E S3].
      cbv zeta in E, S3. rewrite E. cbn [fret fst snd]. rewrite S3, S2.
      destruct (o_truthy folder); [left|right]; auto. }
    destruct (fst (orespond (pool w1) (PoolAddSubFolder parent name)))
      as [v|msg|]; [|now apply Fallback|now apply Fallback].
    destruct v as [| | | | |[|first items]| |];
      try apply Direct. now apply Fallback. }
  set (w3 := snd (create w1)) in *.
  destruct Created as [[T S3]|[T S3]]; rewrite T.
  - left. cbn [fret fst snd]. auto.
  - right. rewrite fbind_run. cbn [fret fupdate_stats fst snd fstats].
    split; [exact T|]. fold op.
    destruct S3 as [->|(msg & ->)]; [now left|right; eauto].
Qed.

End NamesAreText.
End FolderFacts.

Lemma mem_names_are_text h id v :
  fst (mem_orespond h (FolderName id)) = OReturns v -> is_text v = true.
Proof.
  cbn [mem_orespond]. destruct (mem_folder h id); cbn [fst]; [|discriminate].
  intros [= <-]. reflexivity.
Qed.

(** The Formula bin has no pillar folder yet: one is created through the
    media pool and counted. *)
Lemma get_or_create_folder_accounting_witness :
  let run := get_or_create_folder mem_orespond mem_join_error (OObj 2)
               "🎵 Music-Video" in
  let w := mkFWorld formula_pool [] new_stats in
  fst (run w) = OObj 3
  /\ folders_created (fstats (snd (run w))) = 1%Z
  /\ errors (fstats (snd (run w))) = [].
Proof.
  intros run w.
  destruct (get_or_create_folder_accounting MemPool mem_orespond
              mem_join_error mem_names_are_text (OObj 2) "🎵 Music-Video" w)
    as [(_ & S & _)|[(_ & S)|(T & _)]].
  - exfalso. apply (f_equal folders_found) in S. vm_compute in S.
    discriminate.
  - split; [vm_compute; reflexivity|]. fold run in S. rewrite S.
    split; reflexivity.
  - exfalso. vm_compute in T. discriminate.
Defined.

(** ** Butt-join on the packs of the catalog *)

Section CatalogPacks.
Import SecFacts.
Open Scope Qc_scope.

(** A pack of point markers has nothing to stretch. *)
Lemma point_markers_have_no_gap l :
  Forall (fun m => dur m = 0) l -> no_positive_gaps l.
Proof.
  induction 1 as [|a l Ha F IH]; [exact I|].
  destruct l as [|b rest]; [exact I|].
  split; [|exact IH]. left. rewrite Ha. apply Qcle_refl.
Qed.

Lemma sorted_keeps_Forall {A} (le : A -> A -> bool) (P : A -> Prop) l :
  Forall P l -> Forall P (py_sorted le l).
Proof.
  rewrite !Forall_forall. intros H x Hx. apply H.
  exact (proj1 (py_sorted_In _ le x l) Hx).
Qed.

Lemma principle_packs_are_point_markers :
  forallb (forallb (fun m => if Qc_eq_dec (dur m) 0 then true else false))
          principle_pack_range = true.
Proof. vm_compute. reflexivity. Qed.

Lemma principle_pack_points title :
  Forall (fun m => dur m = 0) (get_principle_markers_for_title title).
Proof.
  pose proof principle_packs_are_point_markers as K.
  rewrite forallb_forall in K.
  specialize (K _ (principle_pack_in_range title)).
  rewrite forallb_forall in K. apply Forall_forall. intros m Hm.
  specialize (K m Hm). now destruct (Qc_eq_dec (dur m) 0).
Qed.

(** X20.  Every marker of a principle, Selects or ShotFX pack has duration zero,
    so butt-join has nothing to stretch: at any frame rate, zero included,
    the pack comes back in time order and otherwise unchanged, enriched or
    not. *)
Theorem butt_join_only_sorts_principle_packs title lane tier fps_str :
  _butt_join_markers
    (_enrich_marker_notes (get_principle_markers_for_title title) lane tier)
    fps_str
  = Ok (py_sorted by_time (get_principle_markers_for_title title)).
Proof.
  rewrite enrich_of_principle_pack, butt_join_spec.
  apply join_adjacent_untouched, point_markers_have_no_gap.
  apply sorted_keeps_Forall, principle_pack_points.
Qed.

(** ** Master templates *)

Lemma master_template_in_range lane tier pack :
  LANE_MARKERS lane tier = Some pack -> In pack all_master_templates.
Proof.
  unfold LANE_MARKERS, all_master_templates.
  destruct (dict_get LANE_MARKERS_items lane) as [tiers|] eqn:G1;
    [|discriminate].
  intro G2. apply in_concat. exists (map snd tiers). split.
  - apply in_map_iff. exists (lane, tiers).
    split; [reflexivity|]. now apply dict_get_In.
  - apply in_map_iff. exists (tier, pack).
    split; [reflexivity|]. now apply dict_get_In.
Qed.

(** At a frame rate of zero every template comes back as it is. *)
Lemma master_templates_pass_at_zero :
  Forall (fun pack => _butt_join_markers pack (Numeric 0) = Ok pack)
         all_master_templates.
Proof.
  unfold all_master_templates, LANE_MARKERS_items.
  cbn [map concat app snd].
  repeat constructor; vm_compute; reflexivity.
Qed.

(** A pack that passes at a frame rate of zero is in time order and has no
    positive gap, so it passes at every frame rate. *)
Lemma passes_at_zero pack fps_str :
  _butt_join_markers pack (Numeric 0) = Ok pack ->
  _butt_join_markers pack fps_str = Ok pack.
Proof.
  rewrite !butt_join_spec. cbn [fps_or_default py_float].
  rewrite float_of_0. intro Z.
  destruct (no_positive_gaps_dec (py_sorted by_time pack)) as [Y|N].
  - rewrite (join_adjacent_untouched 0 _ Y) in Z.
    rewrite (join_adjacent_untouched
               (Sec.float_of (fps_or_default fps_str)) _ Y). exact Z.
  - rewrite (join_adjacent_zero_raises _ N) in Z. discriminate.
Qed.

(** X21.  The master templates are listed in time order and leave no positive gap
    after a marker of positive duration, so butt-join changes none of
    them: for every lane and tier of [LANE_MARKERS] and at every frame
    rate, the pack [main()] seeds a master timeline with is the enriched
    template itself. *)
Theorem butt_join_keeps_master_templates lane tier pack fps_str :
  LANE_MARKERS lane tier = Some pack ->
  _butt_join_markers pack fps_str = Ok pack
  /\ _butt_join_markers (_enrich_marker_notes pack (Some lane) (Some tier))
                        fps_str
     = Ok (_enrich_marker_notes pack (Some lane) (Some tier)).
Proof.
  intro L.
  assert (P : _butt_join_markers pack fps_str = Ok pack).
  { apply passes_at_zero.
    pose proof master_templates_pass_at_zero as K.
    rewrite Forall_forall in K.
    apply K, (master_template_in_range lane tier), L. }
  split; [exact P|].
  destruct (falsy_text (Some lane) || falsy_text (Some tier)) eqn:F.
  - now rewrite (enrich_falsy _ _ _ F).
  - rewrite (enrich_as_map _ _ _ F), butt_join_spec, py_sorted_map.
    + rewrite join_adjacent_enrich, <- butt_join_spec, P. reflexivity.
    + intros a b. unfold by_time.
      destruct (enrich_one_keeps
                  (pacing_rules (text_or_empty (Some lane))
                                (text_or_empty (Some tier))) a) as [-> _].
      destruct (enrich_one_keeps
                  (pacing_rules (text_or_empty (Some lane))
                                (text_or_empty (Some tier))) b) as [-> _].
      reflexivity.
Qed.

End CatalogPacks.

(** The fashion template of the 22 s tier. *)
Lemma butt_join_keeps_master_templates_witness :
  exists pack,
    LANE_MARKERS "fashion" "22s" = Some pack
    /\ _butt_join_markers pack FPS = Ok pack
    /\ _butt_join_markers
         (_enrich_marker_notes pack (Some "fashion") (Some "22s")) FPS
       = Ok (_enrich_marker_notes pack (Some "fashion") (Some "22s")).
Proof.
  eexists. split; [reflexivity|].
  apply (butt_join_keeps_master_templates "fashion" "22s"). reflexivity.
Defined.

(** ** Pacing rules and the templates they are written for *)

Section PacingRules.
Open Scope string_scope.

Lemma pacing_matches : pacing_matches_templates = true.
Proof. vm_compute. reflexivity. Qed.

(** X22.  No pacing rule is dead: every entry of the table of a lane and tier
    carries a tip that is not empty and names a marker of the master
    template of that lane and tier, which therefore gets the cut note. *)
Theorem pacing_rules_reach_their_template lane tier section tip :
  In (section, tip) (pacing_rules lane tier) ->
  tip <> ""
  /\ exists pack m,
       LANE_MARKERS lane tier = Some pack /\ In m pack /\ name m = section.
Proof.
  unfold pacing_rules.
  destruct (dict_get PACING_S_items lane) as [tiers|] eqn:G1;
    [|intros []].
  destruct (dict_get tiers tier) as [rules|] eqn:G2; [|intros []].
  intro Hin.
  pose proof pacing_matches as K. unfold pacing_matches_templates in K.
  rewrite forallb_forall in K.
  specialize (K _ (dict_get_In _ _ _ G1)). cbn [fst snd] in K.
  rewrite forallb_forall in K.
  specialize (K _ (dict_get_In _ _ _ G2)). cbn [fst snd] in K.
  destruct (LANE_MARKERS lane tier) as [pack|]; [|discriminate].
  unfold rules_reach in K. rewrite forallb_forall in K.
  specialize (K _ Hin). cbn [fst snd] in K.
  apply andb_true_iff in K as [K1 K2].
  split.
  - intros ->. discriminate.
  - apply existsb_exists in K2 as (m & Hm & E).
    apply String.eqb_eq in E. exists pack, m. auto.
Qed.

End PacingRules.

(** The DRAW rule of the money lane, 12 s tier. *)
Lemma pacing_rules_reach_their_template_witness :
  exists tip,
    tip <> ""%string
    /\ exists pack m,
         LANE_MARKERS "money" "12s" = Some pack /\ In m pack
         /\ name m = "DRAW"%string.
Proof.
  eexists.
  apply (pacing_rules_reach_their_template "money" "12s" "DRAW").
  unfold pacing_rules. cbn. right. left. reflexivity.
Defined.

(** ** One marker per frame *)

Section FilterFacts.
Variable A : Type.

Lemma filter_length_mono (p q : A -> bool) l :
  (forall x, In x l -> q x = true -> p x = true) ->
  (length (filter q l) <= length (filter p l))%nat.
Proof.
  induction l as [|x l IH]; intro H; [apply le_n|].
  cbn [filter].
  assert (IH' : (length (filter q l) <= length (filter p l))%nat).
  { apply IH. intros y Hy. apply H. now right. }
  destruct (q x) eqn:Q.
  - rewrite (H x (or_introl eq_refl) Q). cbn [length]. lia.
  - destruct (p x); cbn [length]; lia.
Qed.

Lemma filter_length_drop (p q : A -> bool) l x0 :
  (forall x, In x l -> q x = true -> p x = true) ->
  In x0 l -> p x0 = true -> q x0 = false ->
  (S (length (filter q l)) <= length (filter p l))%nat.
Proof.
  induction l as [|x l IH]; intros H Hin P0 Q0; [contradiction|].
  cbn [filter].
  assert (Hl : forall y, In y l -> q y = true -> p y = true).
  { intros y Hy. apply H. now right. }
  destruct Hin as [->|Hin].
  - rewrite P0, Q0. cbn [length].
    pose proof (filter_length_mono p q l Hl). lia.
  - specialize (IH Hl Hin P0 Q0).
    destruct (q x) eqn:Q.
    + rewrite (H x (or_introl eq_refl) Q). cbn [length]. lia.
    + destruct (p x); cbn [length]; lia.
Qed.

End FilterFacts.

Section OnePerFrame.
Variable HState : Type.
Variable respond : HState -> call -> reply * HState.

(** Which frames of the timeline hold a marker.  The timeline accepts a
    marker only on a frame that holds none, holds one there afterwards, and
    loses none to a call of the seeding path. *)
Variable marked : HState -> Z -> bool.

Hypothesis accepted_marker_takes_a_free_frame : forall h c f,
  marker_add_frame c = Some f ->
  accepted (fst (respond h c)) = true ->
  marked h f = false /\ marked (snd (respond h c)) f = true.

Hypothesis seeding_removes_no_marker : forall h c f,
  is_seeding_call c = true ->
  marked h f = true -> marked (snd (respond h c)) f = true.

Lemma add_has_frame c :
  is_marker_add c = true -> exists f, marker_add_frame c = Some f.
Proof. destruct c; try discriminate; cbn; eauto. Qed.

(** Every accepted call uses up one of the free frames. *)
Lemma accepted_adds_use_free_frames frames cs : forall h,
  Forall (fun c => is_seeding_call c = true) cs ->
  Forall (fun c => forall f, marker_add_frame c = Some f -> In f frames) cs ->
  (accepted_adds respond h cs
   + length (free_frames marked (host_after respond h cs) frames)
   <= length (free_frames marked h frames))%nat.
Proof.
  induction cs as [|c cs IH]; intros h Fs Ff; [cbn; lia|].
  inversion Fs as [|? ? Sc Fs']; subst.
  inversion Ff as [|? ? Fc Ff']; subst.
  cbn [accepted_adds host_after fold_left].
  fold (host_after respond (snd (respond h c)) cs).
  specialize (IH (snd (respond h c)) Fs' Ff').
  assert (Mono : forall f, In f frames ->
            negb (marked (snd (respond h c)) f) = true ->
            negb (marked h f) = true).
  { intros f _ N. apply negb_true_iff in N. apply negb_true_iff.
    destruct (marked h f) eqn:M; [|reflexivity].
    rewrite (seeding_removes_no_marker h c f Sc M) in N. discriminate. }
  unfold free_frames in *.
  destruct (is_marker_add c && accepted (fst (respond h c))) eqn:Acc.
  - apply andb_true_iff in Acc as [Ma Ac].
    destruct (add_has_frame c Ma) as [f Ef].
    destruct (accepted_marker_takes_a_free_frame h c f Ef Ac) as [Free Taken].
    pose proof (filter_length_drop Z
                  (fun f => negb (marked h f))
                  (fun f => negb (marked (snd (respond h c)) f))
                  frames f Mono (Fc f Ef)) as Lt.
    cbv beta in Lt. rewrite Free, Taken in Lt.
    specialize (Lt eq_refl eq_refl). lia.
  - pose proof (filter_length_mono Z
                  (fun f => negb (marked h f))
                  (fun f => negb (marked (snd (respond h c)) f))
                  frames Mono). lia.
Qed.

(** The calls of a seeding run that add a marker are attempts for markers
    of the pack. *)
Lemma seeding_attempts_are_for_pack fps_str markers force
    (w : World HState) :
  exists cs,
    calls (snd (add_markers_to_timeline_if_empty respond fps_str markers
                  force w)) = calls w ++ cs
    /\ forall c, In c cs -> is_marker_add c = true ->
       exists m, In m markers /\ retry_of (fps_or_default fps_str) m c.
Proof.
  destruct ((fst (_count_markers respond w) >? 0)%Z && negb force) eqn:G.
  - rewrite (seeding_skip _ respond fps_str markers force w G). cbn [snd].
    exists [GetMarkers]. split; [apply count_markers_issues|].
    intros c [<-|[]]. discriminate.
  - destruct (seeding_pass _ respond fps_str markers force w G)
      as (_ & [(msg & _ & C)|(added & blocks & _ & C & F & _)]).
    + exists [GetMarkers; GetName]. split; [exact C|].
      intros c [<-|[<-|[]]]; discriminate.
    + exists (GetMarkers :: GetName :: concat blocks).
      split; [exact C|].
      intros c [<-|[<-|Hin]]; try discriminate. intros _.
      destruct (blocks_calls _ _ _ _ F Hin) as (m & Hm & R).
      exists m. split; [|exact R].
      exact (proj1 (py_sorted_In _ by_time_desc m markers) Hm).
Qed.

(** X23.  On a timeline that holds one marker per frame a seeding run places at
    most as many markers as the pack has distinct frames: of the markers
    that round to the same frame, at most one is counted. *)
Theorem seeding_accepts_one_marker_per_frame fps_str markers force
    (w : World HState) added :
  fst (add_markers_to_timeline_if_empty respond fps_str markers force w)
  = Ok added ->
  (added <= Z.of_nat (distinct_frames (fps_or_default fps_str) markers))%Z.
Proof.
  intro E.
  destruct (seeding_transcript _ respond fps_str markers force w)
    as (cs & [C _] & Fs & A).
  rewrite (A added E).
  destruct (seeding_attempts_are_for_pack fps_str markers force w)
    as (cs' & C' & R).
  rewrite C in C'. apply app_inv_head in C'. subst cs'.
  set (frames := nodup Z.eq_dec
                   (pack_frames (fps_or_default fps_str) markers)).
  assert (Ff : Forall (fun c => forall f, marker_add_frame c = Some f ->
                                 In f frames) cs).
  { apply Forall_forall. intros c Hc f Ef.
    assert (Ma : is_marker_add c = true)
      by (destruct c; try discriminate; reflexivity).
    destruct (R c Hc Ma) as (m & Hm & Rm).
    apply nodup_In. unfold pack_frames. apply in_map_iff.
    exists m. split; [|exact Hm].
    rewrite (retry_frame _ _ _ Rm) in Ef. now injection Ef. }
  pose proof (accepted_adds_use_free_frames frames cs (host w) Fs Ff) as B.
  assert (L : (length (free_frames marked (host w) frames)
               <= length frames)%nat).
  { unfold free_frames. apply List.filter_length_le. }
  unfold distinct_frames. fold frames. lia.
Qed.

End OnePerFrame.

(** The in-memory timeline holds one marker per frame. *)
Lemma mem_marker_at_add tl fm f :
  mem_marker_at (mem_set_markers tl (mt_markers tl ++ [fm])) f
  = mem_marker_at tl f || (fst fm =? f)%Z.
Proof.
  unfold mem_marker_at. cbn [mem_set_markers mt_markers].
  rewrite existsb_app. cbn [existsb]. now rewrite orb_false_r.
Qed.

Lemma mem_add_marker_marks tl frame c n note d custom f :
  (accepted (fst (mem_add_marker tl frame c n note d custom)) = true ->
   mem_marker_at tl frame = false
   /\ mem_marker_at (snd (mem_add_marker tl frame c n note d custom)) frame
      = true)
  /\ (mem_marker_at tl f = true ->
      mem_marker_at (snd (mem_add_marker tl frame c n note d custom)) f
      = true).
Proof.
  unfold mem_add_marker.
  destruct ((0 <? mt_frames tl)%Z && (0 <=? frame)%Z && (1 <=? d)%Z
            && list_mem c (mt_colors tl) && negb (mem_marker_at tl frame))
    eqn:Ok; cbn [fst snd accepted truthy].
  - apply andb_true_iff in Ok as [_ Free]. apply negb_true_iff in Free.
    split.
    + intros _. split; [exact Free|].
      rewrite mem_marker_at_add. cbn [fst]. rewrite Z.eqb_refl.
      apply orb_true_r.
    + intro M. rewrite mem_marker_at_add, M. reflexivity.
  - split; [discriminate|auto].
Qed.

Lemma mem_accepted_marker_takes_a_free_frame h c f :
  marker_add_frame c = Some f ->
  accepted (fst (mem_respond h c)) = true ->
  mem_marker_at h f = false /\ mem_marker_at (snd (mem_respond h c)) f = true.
Proof.
  destruct c; try discriminate; cbn [marker_add_frame mem_respond];
    intros [= ->]; apply mem_add_marker_marks; exact 0%Z.
Qed.

Lemma mem_seeding_removes_no_marker h c f :
  is_seeding_call c = true ->
  mem_marker_at h f = true -> mem_marker_at (snd (mem_respond h c)) f = true.
Proof.
  destruct c; try discriminate; cbn [mem_respond]; intros _ M.
  - exact M.
  - destruct (mt_enumerates h); exact M.
  - now apply mem_add_marker_marks.
  - now apply mem_add_marker_marks.
Qed.

(** The pack of the timeline [ShotFX — Screen Insert (UI)] has eleven
    markers on seven frames; seven are placed. *)
Lemma seeding_accepts_one_marker_per_frame_witness :
  let pack := get_principle_markers_for_title
                (Some "ShotFX — Screen Insert (UI)") in
  length pack = 11%nat
  /\ fst (add_markers_to_timeline_if_empty mem_respond FPS pack false
            (mem_world studio_timeline)) = Ok 7%Z
  /\ (7 <= Z.of_nat (distinct_frames (fps_or_default FPS) pack))%Z.
Proof.
  intro pack.
  assert (E : fst (add_markers_to_timeline_if_empty mem_respond FPS pack
                     false (mem_world studio_timeline)) = Ok 7%Z)
    by (vm_compute; reflexivity).
  split; [reflexivity|]. split; [exact E|].
  exact (seeding_accepts_one_marker_per_frame MemTimeline mem_respond
           mem_marker_at mem_accepted_marker_takes_a_free_frame
           mem_seeding_removes_no_marker FPS pack false
           (mem_world studio_timeline) 7%Z E).
Defined.

(** ** Offsets that collide *)

Lemma shotfx_variants_collide :
  forallb (fun kv =>
             (distinct_frames (fps_or_default FPS)
                              (PRINCIPLE_PACKS "shotfx" ++ snd kv) + 4
              =? length (PRINCIPLE_PACKS "shotfx" ++ snd kv))%nat)
          SHOTFX_SPECIFIC_items = true.
Proof. vm_compute. reflexivity. Qed.

(** X24.  A ShotFX variant pack is the base pack followed by the variant's tips,
    and both start at 0 s and end with the anchor at 299 s: at the module's
    frame rate four markers of the variant land on frames of base markers,
    so the pack has four frames fewer than markers. *)
Theorem shotfx_variant_offsets_collide title k extra :
  dict_get SHOTFX_SPECIFIC_items k = Some extra ->
  get_principle_markers_for_title title = PRINCIPLE_PACKS "shotfx" ++ extra ->
  (distinct_frames (fps_or_default FPS)
                   (get_principle_markers_for_title title) + 4
   = length (get_principle_markers_for_title title))%nat.
Proof.
  intros G ->. pose proof shotfx_variants_collide as K.
  rewrite forallb_forall in K.
  specialize (K _ (dict_get_In _ _ _ G)). cbn [snd] in K.
  now apply Nat.eqb_eq in K.
Qed.

Lemma shotfx_variant_offsets_collide_witness :
  (distinct_frames (fps_or_default FPS)
     (get_principle_markers_for_title (Some "ShotFX — Screen Insert (UI)"))
   + 4
   = length (get_principle_markers_for_title
               (Some "ShotFX — Screen Insert (UI)")))%nat.
Proof.
  eapply (shotfx_variant_offsets_collide _ "screen_insert").
  - vm_compute. reflexivity.
  - vm_compute. reflexivity.
Defined.

(** ** Building a timeline: what is counted, and in which order *)

Section BuildFacts.
Variable G : Type.
Variable gproject : G -> pcall -> reply * G.
Variable gpool : G -> poolcall -> greply * G.
Variable gtimeline : oval -> G -> call -> reply * G.
Variable int_of_text : string -> option Z.

Let GWorld := GWorld G.
Let GM := GM G.

Lemma gbind_run {A B} (m : GM A) (k : A -> GM B) (w : GWorld) :
  gbind m k w = k (fst (m w)) (snd (m w)).
Proof. unfold gbind. now destruct (m w). Qed.

Lemma on_pool_run c (w : GWorld) :
  on_pool gpool c w
  = (fst (gpool (gstate w) c),
     mkGWorld (snd (gpool (gstate w) c)) (gtrace w ++ [OnPool c])
              (gstats w)).
Proof. unfold on_pool. now destruct (gpool (gstate w) c). Qed.

Lemma on_project_run {A} (m : PM G A) (w : GWorld) :
  on_project m w
  = (fst (m (mkPWorld (gstate w) [])),
     mkGWorld (project (snd (m (mkPWorld (gstate w) []))))
              (gtrace w
               ++ map OnProject (pcalls (snd (m (mkPWorld (gstate w) [])))))
              (gstats w)).
Proof. unfold on_project. now destruct (m (mkPWorld (gstate w) [])). Qed.

Lemma on_timeline_run {A} tl (m : M G A) (w : GWorld) :
  on_timeline tl m w
  = (fst (m (mkWorld (gstate w) [] (gstats w))),
     mkGWorld (host (snd (m (mkWorld (gstate w) [] (gstats w)))))
              (gtrace w
               ++ map (OnTimeline tl)
                      (calls (snd (m (mkWorld (gstate w) [] (gstats w))))))
              (stats (snd (m (mkWorld (gstate w) [] (gstats w)))))).
Proof.
  unfold on_timeline. now destruct (m (mkWorld (gstate w) [] (gstats w))).
Qed.

(** From [w] to [w'] the run has added calls of the kind [kind] to the
    trace and has left the counters of folders and timelines alone. *)
Let extends (kind : gcall -> bool) (w w' : GWorld) : Prop :=
  other_counters (gstats w') = other_counters (gstats w)
  /\ exists cs, gtrace w' = gtrace w ++ cs
                /\ Forall (fun c => kind c = true) cs.

Lemma extends_refl kind (w : GWorld) : extends kind w w.
Proof.
  split; [reflexivity|]. exists []. split; [|constructor].
  now rewrite app_nil_r.
Qed.

Lemma extends_trans kind (w1 w2 w3 : GWorld) :
  extends kind w1 w2 -> extends kind w2 w3 -> extends kind w1 w3.
Proof.
  intros [S1 (cs1 & C1 & F1)] [S2 (cs2 & C2 & F2)].
  split; [congruence|]. exists (cs1 ++ cs2). split.
  - now rewrite C2, C1, app_assoc.
  - apply Forall_app. auto.
Qed.

Lemma extends_on_pool kind c (w : GWorld) :
  kind (OnPool c) = true -> extends kind w (snd (on_pool gpool c w)).
Proof.
  intro K. rewrite on_pool_run. cbn [snd]. split; [reflexivity|].
  exists [OnPool c]. split; [reflexivity|]. now constructor.
Qed.

Lemma extends_on_timeline {A} kind tl (m : M G A) (w : GWorld) :
  (forall c, kind (OnTimeline tl c) = true) ->
  other_counters (stats (snd (m (mkWorld (gstate w) [] (gstats w)))))
  = other_counters (gstats w) ->
  extends kind w (snd (on_timeline tl m w)).
Proof.
  intros K S. rewrite on_timeline_run. cbn [snd]. split; [exact S|].
  eexists. split; [reflexivity|].
  apply Forall_forall. intros c Hc. apply in_map_iff in Hc as (c' & <- & _).
  apply K.
Qed.

Lemma extends_on_project {A} kind (m : PM G A) (w : GWorld) :
  (forall c, kind (OnProject c) = true) ->
  extends kind w (snd (on_project m w)).
Proof.
  intros K. rewrite on_project_run. cbn [snd]. split; [reflexivity|].
  eexists. split; [reflexivity|].
  apply Forall_forall. intros c Hc. apply in_map_iff in Hc as (c' & <- & _).
  apply K.
Qed.

(** Seeding leaves the statistics alone. *)
Lemma seeding_keeps_stats {H} (respond : H -> call -> reply * H) fps_str
    markers force (w : World H) :
  stats (snd (add_markers_to_timeline_if_empty respond fps_str markers force
                w)) = stats w.
Proof.
  destruct ((fst (_count_markers respond w) >? 0)%Z && negb force) eqn:Gd.
  - rewrite (seeding_skip _ respond fps_str markers force w Gd). cbn [snd].
    apply count_markers_issues.
  - apply (seeding_pass _ respond fps_str markers force w Gd).
Qed.

Lemma seed_if_any_extends kind tl markers (w : GWorld) :
  (forall c, kind (OnTimeline tl c) = true) ->
  extends kind w (snd (seed_if_any gtimeline tl markers w)).
Proof.
  intro K. unfold seed_if_any.
  destruct markers as [|m ms]; [apply extends_refl|].
  rewrite gbind_run. cbn [gret snd].
  apply extends_on_timeline; [exact K|].
  now rewrite seeding_keeps_stats.
Qed.

Lemma get_name_extends kind tl (w : GWorld) :
  (forall c, kind (OnTimeline tl c) = true) ->
  extends kind w
    (snd (on_timeline tl (host_call (gtimeline tl) GetName) w)).
Proof.
  intro K. apply extends_on_timeline; [exact K|].
  now rewrite host_call_stats.
Qed.

Lemma tracks_extend kind tl k tb lr stats_ref (w : GWorld) :
  (forall c, kind (OnTimeline tl c) = true) ->
  extends kind w
    (snd (on_timeline tl
            (ensure_tracks_named (gtimeline tl) int_of_text k tb lr
                                 stats_ref) w)).
Proof.
  intro K. apply extends_on_timeline; [exact K|].
  apply ensure_tracks_named_other_counters.
Qed.

Lemma counted_of_counters (s s' : BuildStats) :
  other_counters s' = other_counters s ->
  timelines_counted s' = timelines_counted s
  /\ timelines_created s' = timelines_created s.
Proof.
  unfold other_counters, timelines_counted. intros [= _ _ -> -> ->]. auto.
Qed.

(** The two ends of [create_vertical_timeline]: a timeline, counted as
    created, or [None], with the failure and its reason recorded. *)
Lemma create_vertical_timeline_outcome folder title w h fps markers
    (gw : GWorld) :
  let run := create_vertical_timeline gproject gpool gtimeline int_of_text
               folder title w h fps markers in
  (o_truthy (fst (run gw)) = true
   /\ other_counters (gstats (snd (run gw)))
      = other_counters (incr_timelines_created (gstats gw)))
  \/ (fst (run gw) = ONone
      /\ exists reason,
           gstats (snd (run gw)) = record_failure title reason (gstats gw)).
Proof.
  intro run. subst run. unfold create_vertical_timeline.
  destruct (o_truthy folder); cbn [negb].
  2:{ right. rewrite gbind_run. cbn [gret gupdate_stats fst snd gstats]. eauto. }
  rewrite gbind_run, on_project_run. cbn [fst snd].
  set (prev := fst (set_project_defaults gproject w h fps _)).
  set (w1 := mkGWorld _ _ _).
  rewrite gbind_run, on_pool_run. cbn [fst snd].
  set (w2 := mkGWorld _ _ _).
  rewrite gbind_run, on_pool_run. cbn [fst snd].
  set (w3 := mkGWorld _ _ _).
  assert (S3 : gstats w3 = gstats gw) by reflexivity.
  assert (Give : forall reason,
            fst (record_and_restore gproject title reason prev w3) = ONone
            /\ gstats (snd (record_and_restore gproject title reason prev w3))
               = record_failure title reason (gstats gw)).
  { intro reason. unfold record_and_restore.
    rewrite gbind_run. cbn [gupdate_stats fst snd].
    rewrite gbind_run, on_project_run. cbn [gret fst snd gstats]. auto. }
  destruct (fst (gpool (gstate w2) (CreateEmptyTimeline title)))
    as [tl|msg].
  2:{ right. destruct (Give msg) as [E S]. rewrite E, S. eauto. }
  destruct (o_truthy tl) eqn:T.
  2:{ right. destruct (Give "CreateEmptyTimeline returned None") as [E S].
      rewrite E, S. eauto. }
  left. rewrite gbind_run, on_project_run. cbn [fst snd].
  set (w4 := mkGWorld _ _ _).
  assert (S4 : gstats w4 = gstats gw) by reflexivity.
  rewrite gbind_run.
  unfold setup_tracks at 1 2.
  rewrite !gbind_run. cbn [gret fst snd].
  destruct (tracks_extend (fun _ => true) tl "video"
              (Some VIDEO_TRACKS_TOP_TO_BOTTOM) None true w4 (fun _ => eq_refl))
    as [O5 _].
  set (w5 := snd (on_timeline tl
                    (ensure_tracks_named (gtimeline tl) int_of_text "video"
                       (Some VIDEO_TRACKS_TOP_TO_BOTTOM) None true) w4)) in *.
  destruct (tracks_extend (fun _ => true) tl "audio"
              None (Some AUDIO_TRACKS) true w5 (fun _ => eq_refl))
    as [O6 _].
  set (w6 := snd (on_timeline tl
                    (ensure_tracks_named (gtimeline tl) int_of_text "audio"
                       None (Some AUDIO_TRACKS) true) w5)) in *.
  set (w7 := snd (gupdate_stats incr_timelines_created w6)).
  destruct (seed_if_any_extends (fun _ => true) tl markers w7
              (fun _ => eq_refl)) as [O8 _].
  split; [exact T|]. rewrite O8.
  unfold w7. cbn [gupdate_stats snd gstats].
  assert (O : other_counters (gstats w6) = other_counters (gstats gw))
    by congruence.
  unfold other_counters in *. cbn [incr_timelines_created folders_created
    folders_found timelines_created timelines_failed timelines_skipped].
  injection O as -> -> -> -> ->. reflexivity.
Qed.

(** From [w] to [w'] the run has called methods of [tl] and nothing
    else. *)
Let appends (tl : oval) (w w' : GWorld) : Prop :=
  exists ks, gtrace w' = gtrace w ++ map (OnTimeline tl) ks.

Lemma appends_refl tl (w : GWorld) : appends tl w w.
Proof. exists []. cbn [map]. now rewrite app_nil_r. Qed.

Lemma appends_trans tl (w1 w2 w3 : GWorld) :
  appends tl w1 w2 -> appends tl w2 w3 -> appends tl w1 w3.
Proof.
  intros [k1 E1] [k2 E2]. exists (k1 ++ k2).
  now rewrite E2, E1, map_app, app_assoc.
Qed.

Lemma appends_on_timeline {A} tl (m : M G A) (w : GWorld) :
  appends tl w (snd (on_timeline tl m w)).
Proof. rewrite on_timeline_run. cbn [snd]. eexists. reflexivity. Qed.

Lemma setup_tracks_appends tl (w : GWorld) :
  appends tl w (snd (setup_tracks gtimeline int_of_text tl w)).
Proof.
  unfold setup_tracks. rewrite !gbind_run.
  lazymatch goal with
  | |- appends _ _ (snd (gupdate_stats _ ?w2)) =>
      apply (appends_trans tl w w2);
        [|exists []; cbn [gupdate_stats snd gtrace map];
          now rewrite app_nil_r]
  end.
  lazymatch goal with
  | |- appends _ _ (snd (on_timeline _ _ ?w1)) =>
      apply (appends_trans tl w w1); apply appends_on_timeline
  end.
Qed.

Lemma seed_if_any_appends tl markers (w : GWorld) :
  appends tl w (snd (seed_if_any gtimeline tl markers w)).
Proof.
  unfold seed_if_any. destruct markers; [apply appends_refl|].
  rewrite gbind_run. cbn [gret snd]. apply appends_on_timeline.
Qed.

(** The calls of [create_vertical_timeline], in order. *)
Lemma create_vertical_timeline_calls folder title w h fps markers
    (gw : GWorld) :
  let run := create_vertical_timeline gproject gpool gtimeline int_of_text
               folder title w h fps markers in
  let saved := set_project_defaults gproject w h fps
                 (mkPWorld (gstate gw) []) in
  if o_truthy folder then
    exists ks,
      gtrace (snd (run gw))
      = gtrace gw
        ++ map OnProject (pcalls (snd saved))
        ++ [OnPool (SetCurrentFolder folder);
            OnPool (CreateEmptyTimeline title)]
        ++ map OnProject (map set_call (restorable (fst saved)))
        ++ map (OnTimeline (fst (run gw))) ks
      /\ (o_truthy (fst (run gw)) = false -> ks = [])
  else gtrace (snd (run gw)) = gtrace gw.
Proof.
  intros run saved. subst run. unfold create_vertical_timeline.
  destruct (o_truthy folder); cbn [negb].
  2:{ rewrite gbind_run. reflexivity. }
  rewrite gbind_run, on_project_run. cbn [fst snd]. fold saved.
  set (w1 := mkGWorld _ _ _).
  rewrite gbind_run, on_pool_run. cbn [fst snd].
  set (w2 := mkGWorld _ _ _).
  rewrite gbind_run, on_pool_run. cbn [fst snd].
  set (w3 := mkGWorld _ _ _).
  assert (T3 : gtrace w3
               = gtrace gw ++ map OnProject (pcalls (snd saved))
                 ++ [OnPool (SetCurrentFolder folder);
                     OnPool (CreateEmptyTimeline title)]).
  { unfold w3, w2, w1. cbn [gtrace]. now rewrite <- !app_assoc. }
  assert (Restore : forall g3 : GWorld,
            gtrace (snd (on_project
                           (restore_project_defaults gproject (fst saved))
                           g3))
            = gtrace g3
              ++ map OnProject (map set_call (restorable (fst saved)))).
  { intro g3. rewrite on_project_run. cbn [snd gtrace].
    destruct (restore_project_defaults_spec _ gproject (fst saved)
                (mkPWorld (gstate g3) [])) as [E _].
    rewrite E. reflexivity. }
  assert (Give : forall reason,
            fst (record_and_restore gproject title reason (fst saved) w3) = ONone
            /\ gtrace (snd (record_and_restore gproject title reason (fst saved) w3))
               = gtrace w3
                 ++ map OnProject (map set_call (restorable (fst saved)))).
  { intro reason. unfold record_and_restore.
    rewrite gbind_run. cbn [gupdate_stats fst snd].
    rewrite gbind_run. cbn [gret fst snd]. split; [reflexivity|].
    lazymatch goal with
    | |- gtrace (snd (on_project _ ?g)) = _ => exact (Restore g)
    end. }
  assert (Failed : forall reason,
            exists ks,
              gtrace (snd (record_and_restore gproject title reason (fst saved) w3))
              = gtrace gw
                ++ map OnProject (pcalls (snd saved))
                ++ [OnPool (SetCurrentFolder folder);
                    OnPool (CreateEmptyTimeline title)]
                ++ map OnProject (map set_call (restorable (fst saved)))
                ++ map (OnTimeline
                          (fst (record_and_restore gproject title reason (fst saved)
                                  w3))) ks
              /\ (o_truthy (fst (record_and_restore gproject title reason (fst saved)
                                   w3)) = false -> ks = [])).
  { intro reason. destruct (Give reason) as [E T]. exists [].
    split; [|reflexivity]. rewrite T, T3. cbn [map].
    now rewrite app_nil_r, <- !app_assoc. }
  destruct (fst (gpool (gstate w2) (CreateEmptyTimeline title)))
    as [tl|msg]; [|apply Failed].
  destruct (o_truthy tl) eqn:T; [|apply Failed].
  rewrite gbind_run.
  set (w4 := snd (on_project
                    (restore_project_defaults gproject (fst saved)) w3)).
  assert (T4 : gtrace w4
               = gtrace w3
                 ++ map OnProject (map set_call (restorable (fst saved))))
    by apply Restore.
  rewrite !gbind_run. cbn [gret fst snd].
  destruct (appends_trans tl _ _ _
              (setup_tracks_appends tl w4)
              (seed_if_any_appends tl markers
                 (snd (setup_tracks gtimeline int_of_text tl w4))))
    as [ks E].
  exists ks. split; [|congruence].
  rewrite E, T4, T3. now rewrite <- !app_assoc.
Qed.

(** X25.  [create_vertical_timeline] without a folder calls nothing.  With
    one, it sets the project defaults, makes the folder current, creates
    the timeline and writes the saved settings back, in this order and
    before any method of the new timeline is called; it then calls methods
    of the timeline it returns and nothing else.  It ends in one of two
    ways: it returns the timeline, counted as created whatever the track
    calls did, or it returns [None] with one failure and its reason
    recorded and no timeline method called. *)
Theorem create_vertical_timeline_restores_before_tracks folder title w h fps
    markers (gw : GWorld) :
  let run := create_vertical_timeline gproject gpool gtimeline int_of_text
               folder title w h fps markers in
  let saved := set_project_defaults gproject w h fps
                 (mkPWorld (gstate gw) []) in
  ((o_truthy (fst (run gw)) = true
    /\ other_counters (gstats (snd (run gw)))
       = other_counters (incr_timelines_created (gstats gw)))
   \/ (fst (run gw) = ONone
       /\ exists reason,
            gstats (snd (run gw)) = record_failure title reason (gstats gw)))
  /\ (if o_truthy folder then
        exists ks,
          gtrace (snd (run gw))
          = gtrace gw
            ++ map OnProject (pcalls (snd saved))
            ++ [OnPool (SetCurrentFolder folder);
                OnPool (CreateEmptyTimeline title)]
            ++ map OnProject (map set_call (restorable (fst saved)))
            ++ map (OnTimeline (fst (run gw))) ks
          /\ (o_truthy (fst (run gw)) = false -> ks = [])
      else gtrace (snd (run gw)) = gtrace gw).
Proof.
  intros run saved. split.
  - apply create_vertical_timeline_outcome.
  - apply create_vertical_timeline_calls.
Qed.

(** Looking a timeline up by name only reads. *)
Lemma is_named_extends tl name (w : GWorld) :
  extends is_lookup w (snd (is_named gtimeline tl name w)).
Proof.
  unfold is_named. destruct (o_truthy tl); [|apply extends_refl].
  rewrite gbind_run.
  pose proof (get_name_extends is_lookup tl w (fun _ => eq_refl)) as E.
  destruct (fst (on_timeline tl (host_call (gtimeline tl) GetName) w))
    as [[]|]; exact E.
Qed.

Lemma any_named_extends name tls : forall (w : GWorld),
  extends is_lookup w (snd (any_named gtimeline tls name w)).
Proof.
  induction tls as [|tl tls IH]; intro w; [apply extends_refl|].
  cbn [any_named]. rewrite gbind_run.
  pose proof (is_named_extends tl name w) as E.
  destruct (fst (is_named gtimeline tl name w)); [exact E|].
  eapply extends_trans; [exact E | apply IH].
Qed.

Lemma any_indexed_extends name n : forall i (w : GWorld),
  extends is_lookup w (snd (any_indexed gpool gtimeline n i name w)).
Proof.
  induction n as [|n IH]; intros i w; [apply extends_refl|].
  cbn [any_indexed]. rewrite gbind_run.
  pose proof (extends_on_pool is_lookup (GetTimelineByIndex i) w eq_refl)
    as E0.
  destruct (fst (on_pool gpool (GetTimelineByIndex i) w)) as [tl|msg].
  2:{ eapply extends_trans; [exact E0 | apply IH]. }
  rewrite gbind_run.
  pose proof (is_named_extends tl name (snd (on_pool gpool
                                               (GetTimelineByIndex i) w)))
    as E1.
  destruct (fst (is_named gtimeline tl name _)).
  - eapply extends_trans; [exact E0 | exact E1].
  - eapply extends_trans; [exact E0|].
    eapply extends_trans; [exact E1 | apply IH].
Qed.

Lemma timeline_exists_extends name (w : GWorld) :
  extends is_lookup w
    (snd (timeline_exists gpool gtimeline int_of_text name w)).
Proof.
  unfold timeline_exists. rewrite gbind_run.
  pose proof (extends_on_pool is_lookup GetTimelines w eq_refl) as E0.
  set (w0 := snd (on_pool gpool GetTimelines w)) in *.
  rewrite gbind_run.
  set (first := match fst (on_pool gpool GetTimelines w) with
                | GReturns (OList tls) => any_named gtimeline tls name
                | _ => gret false
                end).
  assert (E1 : extends is_lookup w0 (snd (first w0))).
  { unfold first.
    destruct (fst (on_pool gpool GetTimelines w)) as [[]|];
      try apply extends_refl.
    apply any_named_extends. }
  destruct (fst (first w0)).
  { eapply extends_trans; [exact E0 | exact E1]. }
  rewrite gbind_run.
  pose proof (extends_on_pool is_lookup GetTimelineCount (snd (first w0))
                eq_refl) as E2.
  eapply extends_trans; [exact E0|].
  eapply extends_trans; [exact E1|].
  destruct (fst (on_pool gpool GetTimelineCount (snd (first w0))))
    as [v|msg]; [|exact E2].
  destruct (o_int int_of_text v) as [count|]; [|exact E2].
  eapply extends_trans; [exact E2 | apply any_indexed_extends].
Qed.

Lemma upgrade_existing_extends tl (w : GWorld) :
  extends is_lookup w
    (snd (upgrade_existing_track_labels gtimeline int_of_text tl w)).
Proof.
  unfold upgrade_existing_track_labels. rewrite !gbind_run. cbn [gret snd].
  eapply extends_trans; [apply tracks_extend; reflexivity|].
  eapply extends_trans; [apply tracks_extend; reflexivity|].
  apply get_name_extends. reflexivity.
Qed.

Lemma upgrade_found_extends title markers n : forall i (w : GWorld),
  extends is_lookup w
    (snd (upgrade_found gpool gtimeline int_of_text n i title markers w)).
Proof.
  induction n as [|n IH]; intros i w; [apply extends_refl|].
  cbn [upgrade_found]. rewrite gbind_run.
  pose proof (extends_on_pool is_lookup (GetTimelineByIndex i) w eq_refl)
    as E0.
  set (w0 := snd (on_pool gpool (GetTimelineByIndex i) w)) in *.
  destruct (fst (on_pool gpool (GetTimelineByIndex i) w)) as [tl|msg];
    [|exact E0].
  destruct (o_truthy tl).
  2:{ eapply extends_trans; [exact E0 | apply IH]. }
  rewrite gbind_run.
  pose proof (get_name_extends is_lookup tl w0 (fun _ => eq_refl)) as E1.
  set (w1 := snd (on_timeline tl (host_call (gtimeline tl) GetName) w0))
    in *.
  assert (Next : extends is_lookup w
                   (snd (upgrade_found gpool gtimeline int_of_text n
                           (i + 1)%Z title markers w1))).
  { eapply extends_trans; [exact E0|].
    eapply extends_trans; [exact E1 | apply IH]. }
  destruct (fst (on_timeline tl (host_call (gtimeline tl) GetName) w0))
    as [v|msg].
  2:{ eapply extends_trans; [exact E0 | exact E1]. }
  destruct v; try exact Next.
  destruct (String.eqb _ title); [|exact Next].
  rewrite gbind_run.
  eapply extends_trans; [exact E0|].
  eapply extends_trans; [exact E1|].
  eapply extends_trans; [apply upgrade_existing_extends|].
  apply seed_if_any_extends. reflexivity.
Qed.

(** X26.  [create_vertical_timeline_unique] accounts for each timeline it is
    asked for exactly once, as created, failed or skipped, and counts one
    as created exactly when it returns a timeline.  When [timeline_exists]
    finds the name, it returns [None], counts the timeline as skipped, and
    its calls neither touch the project settings nor create a timeline;
    otherwise it goes on as [create_vertical_timeline]. *)
Theorem create_vertical_timeline_unique_counts_once folder title w h fps
    markers (gw : GWorld) :
  let run := create_vertical_timeline_unique gproject gpool gtimeline
               int_of_text folder title w h fps markers in
  let looked := timeline_exists gpool gtimeline int_of_text title gw in
  let s' := gstats (snd (run gw)) in
  timelines_counted s' = (timelines_counted (gstats gw) + 1)%Z
  /\ timelines_created s'
     = (timelines_created (gstats gw)
        + (if o_truthy (fst (run gw)) then 1 else 0))%Z
  /\ (if fst looked then
        fst (run gw) = ONone
        /\ other_counters s'
           = other_counters (incr_timelines_skipped (gstats gw))
        /\ exists cs,
             gtrace (snd (run gw)) = gtrace gw ++ cs
             /\ Forall (fun c => is_lookup c = true) cs
      else
        run gw
        = create_vertical_timeline gproject gpool gtimeline int_of_text
            folder title w h fps markers (snd looked)).
Proof.
  intros run looked s'. subst run s'.
  unfold create_vertical_timeline_unique. rewrite gbind_run. fold looked.
  pose proof (timeline_exists_extends title gw) as E0. fold looked in E0.
  destruct (fst looked).
  - rewrite !gbind_run. cbn [gret gupdate_stats fst snd gstats gtrace].
    set (w0 := snd looked) in *.
    set (again := snd (on_pool gpool GetTimelineCount w0)).
    assert (E1 : extends is_lookup w0 again)
      by (apply extends_on_pool; reflexivity).
    set (w2 := snd (match fst (on_pool gpool GetTimelineCount w0) with
                    | GReturns v =>
                        match o_int int_of_text v with
                        | Some count =>
                            upgrade_found gpool gtimeline int_of_text
                              (Z.to_nat count) 1 title markers
                        | None => gret tt
                        end
                    | GRaises _ => gret tt
                    end again)).
    assert (E2 : extends is_lookup again w2).
    { unfold w2.
      destruct (fst (on_pool gpool GetTimelineCount w0)) as [v|msg];
        [|apply extends_refl].
      destruct (o_int int_of_text v); [|apply extends_refl].
      apply upgrade_found_extends. }
    destruct (extends_trans _ _ _ _ E0 (extends_trans _ _ _ _ E1 E2))
      as [O (cs & C & F)].
    assert (O' : other_counters (incr_timelines_skipped (gstats w2))
                 = other_counters (incr_timelines_skipped (gstats gw))).
    { unfold other_counters in *.
      cbn [incr_timelines_skipped folders_created folders_found
           timelines_created timelines_failed timelines_skipped].
      injection O as -> -> -> -> ->. reflexivity. }
    destruct (counted_of_counters _ _ O') as [N K].
    repeat split.
    + rewrite N. unfold timelines_counted.
      cbn [incr_timelines_skipped timelines_created timelines_failed
           timelines_skipped]. lia.
    + rewrite K. cbn [o_truthy incr_timelines_skipped timelines_created].
      lia.
    + exact O'.
    + exists cs. split; [exact C | exact F].
  - destruct E0 as [O _]. destruct (counted_of_counters _ _ O) as [N K].
    set (w0 := snd looked) in *.
    pose proof (create_vertical_timeline_outcome folder title w h fps
                  markers w0) as Out.
    cbv zeta in Out.
    set (res := create_vertical_timeline gproject gpool gtimeline
                  int_of_text folder title w h fps markers w0) in *.
    repeat split.
    + destruct Out as [[_ S] | [_ (reason & S)]].
      * destruct (counted_of_counters _ _ S) as [N' _]. rewrite N', <- N.
        unfold timelines_counted.
        cbn [incr_timelines_created timelines_created timelines_failed
             timelines_skipped]. lia.
      * rewrite S, <- N. unfold timelines_counted, record_failure.
        cbn. lia.
    + destruct Out as [[T S] | [T (reason & S)]].
      * destruct (counted_of_counters _ _ S) as [_ K']. rewrite K', T, <- K.
        cbn [incr_timelines_created timelines_created]. reflexivity.
      * rewrite S, T, <- K. cbn. lia.
Qed.

End BuildFacts.
